(** * itty-durable: the actor runtime and its transparent proxy

    A shallow embedding of [src/itty-durable.js] (the class returned by
    [createDurable]) and of [src/proxy-durable.js] (the client handle).

    Conventions of the embedding.
    - A JavaScript object is an association list in insertion order; the
      actor instance [this] is such an object, its internal namespace is the
      value stored under the own property [state].
    - An [async] method is a function from the machine (instance and store)
      to the machine and the way its promise settles.  An [await] of a
      rejected promise is a throw.
    - A call [this.persist()], [this.getPersistable()], [this.onLoad()], ...
      made by the runtime looks the method up on the instance first: an own
      property of that name, which the [set] action and the load can write,
      takes the place of the class's definition, and so do the method of
      that name a subclass defines and what a replaced prototype gives.
      The definitions of the class are those of the source; what the
      functions found in their place do, and the member functions a
      subclass adds, reached through the action protocol or as the fallback
      handler, are parameters of the development.
    - The prototype of the instance is part of the machine: the one of its
      class, with the names of the methods a subclass overrides, until an
      object or [null] assigned to [__proto__] replaces it.
    - The routing library, the JSON built-ins and the superjson codec are
      external: the former is modelled by the one route the constructor
      registers, the latter two are parameters. *)

From Stdlib Require Import ZArith String Ascii List Lia DecimalString.
From stdpp Require Import base option list gmap strings sorting.

Local Open Scope string_scope.
Local Open Scope Z_scope.
Local Set Warnings "-register-all".

(** ** Requests *)

(** An inbound request as the handlers see it.  [req_params] holds the
    [action] and [target] path parameters when the URL matches
    [/do/:action/:target]; header names are lower case. *)
Record request := Request {
  req_method : string;
  req_params : option (string * string);
  req_headers : list (string * string)
}.

(** ** Values *)

Inductive value : Type :=
| VUndefined
| VNull
| VBool (b : bool)
| VNum (n : Z)
| VStr (s : string)
| VArr (items : list value) (named : list (string * value))
| VObj (props : list (string * value))
| VFun (name : string)                       (* a callable, opaque *)
| VError (name message : string) (status : option Z)
| VRouter                                    (* Router() with the /do route *)
| VStorage                                   (* the durable store adapter *)
| VTxn                                       (* a transaction over the store *)
| VRequest (r : request)
| VResponse (status : Z) (payload : option value).

Definition obj : Type := list (string * value).

Definition StatusError (status : Z) (message : string) : value :=
  VError "StatusError" message (Some status).
Definition TypeError (message : string) : value :=
  VError "TypeError" message None.
Definition Error (message : string) : value :=
  VError "Error" message None.

(** itty-router's response helpers, kept as constructors. *)
Definition json (v : value) : value := VResponse 200 (Some v).
Definition status (code : Z) : value := VResponse code None.

Definition response_status (v : value) : option Z :=
  match v with VResponse s _ => Some s | _ => None end.

(** ToBoolean. *)
Definition truthy (v : value) : bool :=
  match v with
  | VUndefined | VNull => false
  | VBool b => b
  | VNum n => negb (n =? 0)
  | VStr s => negb (String.eqb s "")
  | _ => true
  end.

Definition is_function (v : value) : bool :=
  match v with VFun _ => true | _ => false end.

(** ** Objects in insertion order *)

Fixpoint obj_get (o : obj) (k : string) : option value :=
  match o with
  | [] => None
  | (k', v) :: o' => if String.eqb k' k then Some v else obj_get o' k
  end.

(** [o[k] = v]: an existing key keeps its place, a new key goes last. *)
Fixpoint obj_set (o : obj) (k : string) (v : value) : obj :=
  match o with
  | [] => [(k, v)]
  | (k', v') :: o' =>
      if String.eqb k' k then (k, v) :: o' else (k', v') :: obj_set o' k v
  end.

(** [delete o[k]], also what the rest pattern [{ k, ...rest }] leaves. *)
Fixpoint obj_delete (o : obj) (k : string) : obj :=
  match o with
  | [] => []
  | (k', v) :: o' =>
      if String.eqb k' k then obj_delete o' k else (k', v) :: obj_delete o' k
  end.

(** [Object.assign(o, src)], and the spread [{ ...o, ...src }]. *)
Definition obj_assign (o src : obj) : obj :=
  fold_left (fun acc kv => obj_set acc kv.1 kv.2) src o.

Definition obj_keys (o : obj) : list string := map fst o.

(** Reading a property that may be missing. *)
Definition obj_prop (o : obj) (k : string) : value :=
  default VUndefined (obj_get o k).

(** ** Results *)

Inductive result (A : Type) : Type :=
| Ok (a : A)
| Throw (e : value).
Arguments Ok {A} a.
Arguments Throw {A} e.

(** The way a promise has settled. *)
Inductive settled : Type :=
| Fulfilled (v : value)
| Rejected (e : value).

(** What a call of a member function hands back: it throws, returns a plain
    value, or returns a promise. *)
Inductive completion : Type :=
| Threw (e : value)
| Returned (v : value)
| ReturnedPromise (p : settled).

(** [await] of a call. *)
Definition await (c : completion) : result value :=
  match c with
  | Threw e => Throw e
  | Returned v => Ok v
  | ReturnedPromise (Fulfilled v) => Ok v
  | ReturnedPromise (Rejected e) => Throw e
  end.

(** [v.k] for reading a named property.  Built-in prototype members are not
    modelled: a property that is not an own property reads as [undefined].
    An array carries the named properties written on it next to its
    items. *)
Definition get_prop (v : value) (k : string) : result value :=
  match v with
  | VUndefined | VNull =>
      Throw (TypeError ("Cannot read properties of undefined (reading '" ++ k ++ "')"))
  | VObj o => Ok (obj_prop o k)
  | VArr _ named => Ok (obj_prop named k)
  | VError _ m st =>
      if String.eqb k "message" then Ok (VStr m)
      else if String.eqb k "status" then
        Ok (match st with Some s => VNum s | None => VUndefined end)
      else Ok VUndefined
  | _ => Ok VUndefined
  end.

(** [v.k = x] in strict code.  A property written on a function, an error or
    a host object is accepted and not recorded. *)
Definition set_prop (v : value) (k : string) (x : value) : result value :=
  match v with
  | VUndefined | VNull =>
      Throw (TypeError ("Cannot set properties of undefined (setting '" ++ k ++ "')"))
  | VBool _ | VNum _ | VStr _ =>
      Throw (TypeError ("Cannot create property '" ++ k ++ "'"))
  | VObj o => Ok (VObj (obj_set o k x))
  | VArr l named => Ok (VArr l (obj_set named k x))
  | _ => Ok v
  end.

(** ** The durable store and the machine *)

Record world := World {
  store : gmap string string;      (* the actor's key-value store *)
  alarm : option Z;
  console : list value             (* what console.log has printed *)
}.

(** The prototype of an instance: the one of its class - the class of the
    source, or a subclass, which defines the methods [overridden] anew, of
    those the runtime reaches through [this]: [loadFromStorage], [persist],
    [getPersistable], [toJSON], [reset] and the hooks [onLoad] and
    [onDestroy] - or the value that has replaced it.  [fetch], [safeAlarm],
    [destroy] and the stages of the route are the ones of the source. *)
Inductive prototype : Type :=
| OfClass (overridden : list string)
| Replaced (p : value).

(** The instance, its prototype, and the world around it. *)
Record machine := MachineOf {
  this : obj;
  proto : prototype;
  outside : world
}.

(** A machine whose instance has the prototype of the class of the source,
    or of a subclass that leaves the methods of the class alone. *)
Definition Machine (o : obj) (w : world) : machine :=
  MachineOf o (OfClass []) w.

Definition with_this (m : machine) (o : obj) : machine :=
  MachineOf o (proto m) (outside m).
Definition with_proto (m : machine) (p : value) : machine :=
  MachineOf (this m) (Replaced p) (outside m).
Definition with_store (m : machine) (s : gmap string string) : machine :=
  MachineOf (this m) (proto m)
    (World s (alarm (outside m)) (console (outside m))).
Definition log (m : machine) (v : value) : machine :=
  MachineOf (this m) (proto m)
    (World (store (outside m)) (alarm (outside m)) (console (outside m) ++ [v])).

Definition key_le (a b : string * string) : Prop := String.le a.1 b.1.

#[local] Instance key_le_dec : RelDecision key_le.
Proof. intros a b. unfold key_le. apply _. Defined.

(** [storage.list({ prefix, limit })]: the entries whose key starts with
    [prefix], in ascending key order, at most [limit] of them. *)
Definition store_list (s : gmap string string) (prefix : string) (limit : nat)
  : list (string * string) :=
  take limit
    (merge_sort key_le
       (filter (fun kv => String.prefix prefix kv.1 = true) (map_to_list s))).

(** ** Computations of the runtime *)

Definition M (A : Type) : Type := machine -> machine * result A.

Definition ret {A} (a : A) : M A := fun m => (m, Ok a).
Definition throw {A} (e : value) : M A := fun m => (m, Throw e).
Definition bind {A B} (c : M A) (k : A -> M B) : M B :=
  fun m => match c m with
           | (m', Ok a) => k a m'
           | (m', Throw e) => (m', Throw e)
           end.
Definition lift {A} (r : result A) : M A := fun m => (m, r).
Definition read_this : M obj := fun m => (m, Ok (this m)).
Definition write_this (o : obj) : M unit := fun m => (with_this m o, Ok tt).
Definition when (b : bool) (c : M unit) : M unit := if b then c else ret tt.

Notation "'let!' x ':=' c 'in' k" := (bind c (fun x => k))
  (at level 10, x name, c at level 100, k at level 200).
Notation "c ;; k" := (bind c (fun _ => k))
  (at level 100, k at level 200, right associativity).

Fixpoint for_each {A} (f : A -> M unit) (l : list A) : M unit :=
  match l with
  | [] => ret tt
  | a :: l' => f a ;; for_each f l'
  end.

(** [s.slice(n)] *)
Fixpoint slice (n : nat) (s : string) : string :=
  match n, s with
  | O, _ => s
  | S n', String _ s' => slice n' s'
  | S _, EmptyString => EmptyString
  end.

(** [this.state] and its properties. *)
Definition state_of (o : obj) : value := obj_prop o "state".

Definition state_read (k : string) : M value :=
  fun m => (m, get_prop (state_of (this m)) k).

Definition state_write (k : string) (v : value) : M unit :=
  fun m => match set_prop (state_of (this m)) k v with
           | Ok st => (with_this m (obj_set (this m) "state" st), Ok tt)
           | Throw e => (m, Throw e)
           end.

(** The receiver of [this.state.storage.<method>(...)]. *)
Definition storage_handle (method : string) : M value :=
  let! st := state_read "storage" in
  match st with
  | VStorage | VTxn => ret st
  | VUndefined | VNull =>
      throw (TypeError ("Cannot read properties of undefined (reading '" ++ method ++ "')"))
  | _ => throw (TypeError ("this.state.storage." ++ method ++ " is not a function"))
  end.

Definition storage_list (prefix : string) (limit : nat)
  : M (list (string * string)) :=
  storage_handle "list" ;;
  fun m => (m, Ok (store_list (store (outside m)) prefix limit)).

Definition storage_put (k v : string) : M unit :=
  storage_handle "put" ;;
  fun m => (with_store m (<[k := v]> (store (outside m))), Ok tt).

(** ** Small helpers on strings and headers *)

Definition lower_ascii (c : ascii) : ascii :=
  let n := nat_of_ascii c in
  if (Nat.leb 65 n && Nat.leb n 90)%bool then ascii_of_nat (n + 32) else c.

(** [s.toLowerCase()] on ASCII text. *)
Fixpoint toLowerCase (s : string) : string :=
  match s with
  | EmptyString => EmptyString
  | String c s' => String (lower_ascii c) (toLowerCase s')
  end.

(** [headers.get(name)] *)
Fixpoint headers_get (h : list (string * string)) (name : string)
  : option string :=
  match h with
  | [] => None
  | (k, v) :: h' => if String.eqb k name then Some v else headers_get h' name
  end.

Fixpoint chars (s : string) : list value :=
  match s with
  | EmptyString => []
  | String c s' => VStr (String c EmptyString) :: chars s'
  end.

(** The argument list of a call [f(...v)]. *)
Definition spread_args (v : value) : result (list value) :=
  match v with
  | VArr l _ => Ok l
  | VStr s => Ok (chars s)
  | _ => Throw (TypeError "content is not iterable")
  end.

Definition index_key (i : nat) : string :=
  NilEmpty.string_of_uint (Nat.to_uint i).

(** The own enumerable properties [Object.assign] and the object spread copy
    from a source. *)
Definition own_enumerable (v : value) : obj :=
  match v with
  | VObj o => o
  | VArr l named => (imap (fun i x => (index_key i, x)) l ++ named)%list
  | VStr s => imap (fun i x => (index_key i, x)) (chars s)
  | VError _ _ (Some s) => [("status", VNum s)]
  | _ => []
  end.

Definition defined (v : value) : bool :=
  match v with VUndefined => false | _ => true end.

(** [const { k, ...rest } = v] *)
Definition rest_without (k : string) (v : value) : result obj :=
  match v with
  | VUndefined | VNull =>
      Throw (TypeError ("Cannot destructure property '" ++ k ++ "' of undefined"))
  | _ => Ok (obj_delete (own_enumerable v) k)
  end.

(** The value of a call that is used without [await]: a promise counts as
    an object without own enumerable properties, which is all the
    destructuring and [JSON.stringify] see of it. *)
Definition unawaited (c : completion) : result value :=
  match c with
  | Threw e => Throw e
  | Returned v => Ok v
  | ReturnedPromise _ => Ok (VObj [])
  end.

(** ** Looking a property up on the instance *)

(** The function-valued members of [Object.prototype] and of
    [Array.prototype]. *)
Definition Object_prototype : list string :=
  ["constructor"; "__defineGetter__"; "__defineSetter__"; "hasOwnProperty";
   "__lookupGetter__"; "__lookupSetter__"; "isPrototypeOf";
   "propertyIsEnumerable"; "toString"; "valueOf"; "toLocaleString"].

Definition Array_prototype : list string :=
  ["at"; "concat"; "copyWithin"; "entries"; "every"; "fill"; "filter";
   "find"; "findIndex"; "findLast"; "findLastIndex"; "flat"; "flatMap";
   "forEach"; "includes"; "indexOf"; "join"; "keys"; "lastIndexOf"; "map";
   "pop"; "push"; "reduce"; "reduceRight"; "reverse"; "shift"; "slice";
   "some"; "sort"; "splice"; "toReversed"; "toSorted"; "toSpliced";
   "unshift"; "values"; "with"].

(** The own properties of a value that serves as a prototype. *)
Definition own_properties (p : value) : obj :=
  match p with
  | VArr l _ =>
      (own_enumerable p ++ [("length", VNum (Z.of_nat (length l)))])%list
  | _ => own_enumerable p
  end.

Definition is_primitive (v : value) : bool :=
  match v with
  | VUndefined | VNull | VBool _ | VNum _ | VStr _ => true
  | _ => false
  end.

(** What an instance whose prototype is [p] inherits under the name [k]:
    an own property of [p], else a member of the built-in prototype behind
    it; the accessor [__proto__] of [Object.prototype] gives the prototype
    of the instance, which is [p].  Nothing is inherited from [null]. *)
Definition inherited (p : value) (k : string) : value :=
  if is_primitive p then VUndefined
  else
    match obj_get (own_properties p) k with
    | Some v => v
    | None =>
        if String.eqb k "__proto__" then p
        else if bool_decide (k ∈ Object_prototype) then VFun k
        else
          match p with
          | VArr _ _ =>
              if bool_decide (k ∈ Array_prototype) then VFun k
              else VUndefined
          | _ => VUndefined
          end
    end.

(** [this[k]] as far as the instance and its class decide it: an own
    property, what a replaced prototype gives, or the method a subclass
    defines in the place of the one of the class; [None] when the lookup
    reaches the class of the source. *)
Definition lookup (m : machine) (k : string) : option value :=
  match obj_get (this m) k with
  | Some v => Some v
  | None =>
      match proto m with
      | Replaced p => Some (inherited p k)
      | OfClass overridden =>
          if bool_decide (k ∈ overridden) then Some (VFun k) else None
      end
  end.

(** Whether an assignment to [__proto__] on the instance reaches the
    accessor of [Object.prototype]: there is no own property of that name,
    no data property of that name on the way, and the chain does not end in
    [null]. *)
Definition reaches_accessor (m : machine) : bool :=
  match obj_get (this m) "__proto__", proto m with
  | Some _, _ => false
  | None, OfClass overridden => negb (bool_decide ("__proto__" ∈ overridden))
  | None, Replaced p =>
      (negb (is_primitive p)
       && negb (bool_decide (is_Some (obj_get (own_properties p) "__proto__"))))%bool
  end.

(** [this[k] = v], also through the proxy the constructor returns.  The
    accessor [__proto__] takes an object or [null] as the new prototype and
    ignores any other value. *)
Definition assign (k : string) (v : value) : M unit :=
  fun m =>
    if (String.eqb k "__proto__" && reaches_accessor m)%bool then
      (match v with
       | VUndefined | VBool _ | VNum _ | VStr _ => m
       | _ => with_proto m v
       end, Ok tt)
    else (with_this m (obj_set (this m) k v), Ok tt).

(** [Object.assign(this, src)] *)
Definition Object_assign (src : obj) : M unit :=
  for_each (fun kv => assign kv.1 kv.2) src.

(** ** The constructor *)

(** What [proxyDurable(binding, { name, parse: true })] returns for a binding
    that has [idFromName]: an object with the one member [get]. *)
Definition proxyDurable_object (name : string) : value :=
  VObj [("get", VFun ("proxyDurable(" ++ name ++ ").get"))].

(** The loop that embeds the bindings of [env] into [this.state]. *)
Fixpoint embed_bindings (entries : obj) (st : obj) : result obj :=
  match entries with
  | [] => Ok st
  | (key, binding) :: rest =>
      match get_prop binding "idFromName" with
      | Throw e => Throw e
      | Ok f =>
          embed_bindings rest
            (obj_set st key
               (if is_function f then proxyDurable_object key else binding))
      end
  end.

(** [new IttyDurable(state, env)].  The route is registered on
    [this.state.router], which has to be the router still. *)
Definition constructor (state env : obj) : result obj :=
  let st0 :=
    obj_assign
      (obj_assign
         [("defaultState", VUndefined); ("initialized", VBool false);
          ("router", VRouter); ("env", VObj env)]
         env)
      state in
  match embed_bindings env st0 with
  | Throw e => Throw e
  | Ok st =>
      match obj_prop st "router" with
      | VRouter =>
          Ok [("env", VObj env); ("classInstance", VNull); ("state", VObj st)]
      | VUndefined | VNull =>
          Throw (TypeError "Cannot read properties of undefined (reading 'get')")
      | _ => Throw (TypeError "this.state.router.get is not a usable router")
      end
  end.

(** [getPersistable()]: all own properties but [state]. *)
Definition getPersistable (o : obj) : obj := obj_delete o "state".

(** [toJSON()] *)
Definition toJSON (o : obj) : obj := obj_delete o "state".

(** itty-router's [error(status, body)] builds a response with a body:
    [new Response] reads the status as an unsigned short, and throws for one
    outside 200..599 and for a status that allows no body. *)
Definition RangeError (message : string) : value :=
  VError "RangeError" message None.

Definition error (status : Z) (v : value) : result value :=
  let s := status mod 65536 in
  if ((s <? 200) || (599 <? s))%bool then
    Throw (RangeError "The status provided is outside the range [200, 599].")
  else if ((s =? 204) || (s =? 205) || (s =? 304))%bool then
    Throw (TypeError "Response with null body status cannot have body")
  else Ok (VResponse s (Some v)).

(** The number a text of decimal digits denotes. *)
Fixpoint numeral (s : string) (acc : Z) : option Z :=
  match s with
  | EmptyString => Some acc
  | String c s' =>
      let n := nat_of_ascii c in
      if (Nat.leb 48 n && Nat.leb n 57)%bool
      then numeral s' (10 * acc + Z.of_nat (n - 48))
      else None
  end.

(** The number a status is read as.  Of the strings, the decimal numerals
    are converted; any other string and any object count as [NaN], which is
    read as 0. *)
Definition status_number (st : value) : Z :=
  match st with
  | VNum n => n
  | VBool true => 1
  | VStr s => default 0 (numeral s 0)
  | _ => 0
  end.

(** The default error handler of [createDurable]:
    [(err) => error(err.status || 500, err.message)]. *)
Definition default_onError (err : value) : result value :=
  match get_prop err "status" with
  | Throw e => Throw e
  | Ok st =>
      match get_prop err "message" with
      | Throw e => Throw e
      | Ok msg => error (status_number (if truthy st then st else VNum 500)) msg
      end
  end.

(** [headers.get('do-content') || '[]'] *)
Definition content_text (r : request) : string :=
  match headers_get (req_headers r) "do-content" with
  | Some s => if String.eqb s "" then "[]" else s
  | None => "[]"
  end.

(** ** The class returned by [createDurable(options)] *)

Section Runtime.

(** The options. *)
Variable autoPersist : bool.
Variable autoReturn : bool.
Variable prefix : string.
Variable onError : value -> result value.

(** The JSON built-ins: [JSON.stringify] gives a text, [undefined] ([None])
    or throws; [JSON.parse] takes any value and converts it to a string
    itself. *)
Variable JSON_stringify : value -> result (option string).
Variable JSON_parse : value -> result value.

(** The superjson codec. *)
Variable superjson_stringify : value -> string.
Variable superjson_parse : string -> result value.

(** The function-valued members an instance inherits from its class, and
    what calling a function value does. *)
Variable proto_has : string -> bool.
Variable invoke : string -> list value -> machine -> machine * completion.

(** What the prototype of the class gives under [k]: a member function, or
    under [__proto__] the prototype itself, an object without own
    enumerable properties. *)
Definition class_member (k : string) : value :=
  if String.eqb k "__proto__" then VObj []
  else if proto_has k then VFun k else VUndefined.

(** [this[k]] *)
Definition member (m : machine) (k : string) : value :=
  match lookup m k with
  | Some v => v
  | None => class_member k
  end.

Definition read_member (k : string) : M value :=
  fun m => (m, Ok (member m k)).

(** [this[k](...args)] *)
Definition call_member (k : string) (args : list value)
  : machine -> machine * completion :=
  fun m =>
    match member m k with
    | VFun f => invoke f args m
    | _ => (m, Threw (TypeError ("this." ++ k ++ " is not a function")))
    end.

Definition awaited (c : machine -> machine * completion) : M value :=
  fun m => let (m', r) := c m in (m', await r).

(** The call of an [async] method with the body [body]: its promise. *)
Definition async (body : M value) : machine -> machine * completion :=
  fun m =>
    match body m with
    | (m', Ok v) => (m', ReturnedPromise (Fulfilled v))
    | (m', Throw e) => (m', ReturnedPromise (Rejected e))
    end.

(** [this.k(...args)] for a method [k] of the class, whose call is
    [definition]: the class's method is reached when nothing on the
    instance stands in its way. *)
Definition send (k : string) (args : list value)
  (definition : machine -> machine * completion)
  : machine -> machine * completion :=
  fun m =>
    match lookup m k with
    | None => definition m
    | Some (VFun f) => invoke f args m
    | Some _ => (m, Threw (TypeError ("this." ++ k ++ " is not a function")))
    end.

(** [await this.k()] for an [async] method of the class that returns
    nothing. *)
Definition await_method (k : string) (body : M unit) : M unit :=
  awaited (send k [] (async (body ;; ret VUndefined))) ;; ret tt.

(** [this.getPersistable()] *)
Definition call_getPersistable : M value :=
  fun m =>
    let (m', c) :=
      send "getPersistable" []
        (fun m => (m, Returned (VObj (getPersistable (this m))))) m in
    (m', unawaited c).

(** [async onLoad() {}] *)
Definition onLoad : M unit := ret tt.

(** The loop of [loadFromStorage] over the listed entries. *)
Fixpoint decode_entries (stored : list (string * string)) (stateObj : obj)
  : result obj :=
  match stored with
  | [] => Ok stateObj
  | (key, v) :: rest =>
      let truncatedKey :=
        if String.prefix prefix key
        then slice (String.length prefix) key else key in
      match superjson_parse v with
      | Throw e => Throw e
      | Ok x =>
          (* [stateObj[truncatedKey] = x]: on the fresh object the name
             [__proto__] is the accessor, and no own property is made *)
          if String.eqb truncatedKey "__proto__" then decode_entries rest stateObj
          else decode_entries rest (obj_set stateObj truncatedKey x)
      end
  end.

Definition loadFromStorage : M unit :=
  let! init := state_read "initialized" in
  if truthy init then ret tt
  else
    let! stored := storage_list prefix 100 in
    let! stateObj := lift (decode_entries stored []) in
    Object_assign stateObj ;;
    await_method "onLoad" onLoad ;;
    state_write "initialized" (VBool true).

(** [persist()]: one [put] per property of what [getPersistable()] gives,
    other than [state], whose name does not start with [$]. *)
Definition persist : M unit :=
  let! fields := call_getPersistable in
  let! persistable := lift (rest_without "state" fields) in
  for_each
    (fun propertyName =>
       if String.prefix "$" propertyName then ret tt
       else storage_put (prefix ++ propertyName)
              (superjson_stringify (obj_prop persistable propertyName)))
    (obj_keys persistable).

(** [reset()] *)
Definition reset : M unit :=
  let! fields := call_getPersistable in
  let! persistable := lift (rest_without "state" fields) in
  let! o := read_this in
  write_this (fold_left obj_delete (obj_keys persistable) o) ;;
  let! snapshot := state_read "defaultState" in
  let! defaults := lift (JSON_parse snapshot) in
  Object_assign (own_enumerable defaults).

(** [optionallyReturnThis()]: [this.toJSON ? this.toJSON() : this] *)
Definition optionallyReturnThis : M value :=
  if autoReturn then
    fun m =>
      if truthy (default (VFun "toJSON") (lookup m "toJSON")) then
        match send "toJSON" [] (fun m => (m, Returned (VObj (toJSON (this m))))) m
        with
        | (m', c) =>
            (m', match unawaited c with
                 | Ok v => Ok (json v)
                 | Throw e => Throw e
                 end)
        end
      else (m, Ok (json (VObj (this m))))
  else ret VUndefined.

(** The handler of the route [/do/:action/:target]; [undefined] lets the
    router go on to the next handler. *)
Definition action_handler (r : request) (action target : string) : M value :=
  let! content := lift (JSON_parse (VStr (content_text r))) in
  if String.eqb action "call" then
    let! f := read_member target in
    if negb (is_function f) then
      throw (StatusError 500
               ("Durable Object does not contain method " ++ target ++ "()"))
    else
      let! args := lift (spread_args content) in
      let! response := awaited (call_member target args) in
      ret (match response with
           | VUndefined => VUndefined
           | VResponse _ _ => response
           | _ => json response
           end)
  else if String.eqb action "set" then
    assign target content ;;
    ret VUndefined
  else if String.eqb action "get-prop" then
    let! v := read_member target in ret (json v)
  else ret VUndefined.

(** [router.handle(request)] for the router the constructor has set up:
    the action handler, [optionallyReturnThis], then [status(204)]. *)
Definition router_handle (r : request) : M value :=
  match req_params r with
  | Some (action, target) =>
      if String.eqb (req_method r) "GET" then
        let! first := action_handler r action target in
        if defined first then ret first
        else
          let! second := optionallyReturnThis in
          if defined second then ret second else ret (status 204)
      else ret VUndefined
  | None => ret VUndefined
  end.

(** [await this.state.router.handle(request, ...args).catch(onError)] *)
Definition dispatch (r : request) : M value :=
  let! router := state_read "router" in
  match router with
  | VRouter =>
      fun m => match router_handle r m with
               | (m', Ok v) => (m', Ok v)
               | (m', Throw e) => (m', onError e)
               end
  | VUndefined | VNull =>
      throw (TypeError "Cannot read properties of undefined (reading 'handle')")
  | _ => throw (TypeError "this.state.router.handle is not a function")
  end.

(** The first statements of [fetch]: the transport context goes into the
    internal namespace. *)
Definition record_context (r : request) : M unit :=
  let idFromName := headers_get (req_headers r) "do-name" in
  state_write "websocketRequest"
    (VBool (match headers_get (req_headers r) "upgrade" with
            | Some u => String.eqb (toLowerCase u) "websocket"
            | None => false
            end)) ;;
  state_write "request" (VRequest r) ;;
  match idFromName with
  | Some name =>
      when (truthy (VStr name)) (state_write "idFromName" (VStr name))
  | None => ret tt
  end.

(** [if (!this.state.initialized) this.state.defaultState = ...] *)
Definition save_default_state : M unit :=
  let! init := state_read "initialized" in
  when (negb (truthy init))
    (let! fields := call_getPersistable in
     let! text := lift (JSON_stringify fields) in
     state_write "defaultState"
       (match text with Some s => VStr s | None => VUndefined end)).

(** The statements of [fetch] from the call of the router on.  Their results
    are the two [return] statements: [return this.fetchFallback()] hands the
    call's value over as it is, [return response] a plain value. *)
Definition respond (r : request) : M completion :=
  let! response := dispatch r in
  let! fallback := read_member "fetchFallback" in
  if (negb (truthy response) && truthy fallback)%bool then
    fun m => match call_member "fetchFallback" [] m with
             | (m', Threw e) => (m', Throw e)
             | (m', c) => (m', Ok c)
             end
  else
    when autoPersist (await_method "persist" persist) ;;
    if truthy response then ret (Returned response)
    else throw (Error "Bad request to durable object").

(** The [try] block of [fetch]. *)
Definition fetch_try (r : request) : M completion :=
  record_context r ;;
  save_default_state ;;
  await_method "loadFromStorage" loadFromStorage ;;
  respond r.

(** [async fetch(request)]: the [catch] logs and answers
    [error(400, e)]. *)
Definition fetch (r : request) : machine -> machine * settled :=
  fun m =>
    match fetch_try r m with
    | (m', Ok (Returned v)) => (m', Fulfilled v)
    | (m', Ok (ReturnedPromise p)) => (m', p)
    | (m', Ok (Threw e)) => (m', Rejected e)
    | (m', Throw e) =>
        match error 400 e with
        | Ok response => (log m' e, Fulfilled response)
        | Throw e' => (log m' e, Rejected e')
        end
    end.

(** The [async (txn) => { ... }] closure of [safeAlarm]. *)
Definition alarm_closure (cb : option (machine -> machine * completion))
  : M unit :=
  let! o := read_this in
  let alteredState :=
    VObj (obj_set (own_enumerable (state_of o)) "storage" VTxn) in
  write_this (obj_set o "state" alteredState) ;;
  await_method "loadFromStorage" loadFromStorage ;;
  match cb with
  | Some f => awaited f ;; ret tt
  | None => ret tt
  end ;;
  when autoPersist (await_method "persist" persist).

(** A run of [safeAlarm]: the machine afterwards, the way the promise of
    [safeAlarm] settles, and the way the promise of
    [storage.transaction(...)], which nothing holds, settles. *)
Record alarm_run := AlarmRun {
  alarm_after : machine;
  alarm_returned : settled;
  alarm_detached : option settled
}.

(** [async safeAlarm(cb)].  The [try] covers the call of
    [this.state.storage.transaction], not the promise it returns.  A
    transaction whose closure fails leaves the store as it was. *)
Definition safeAlarm (cb : option (machine -> machine * completion))
  : machine -> alarm_run :=
  fun m =>
    match state_read "storage" m with
    | (m1, Ok VStorage) =>
        match alarm_closure cb m1 with
        | (m2, Ok _) =>
            AlarmRun m2 (Fulfilled VUndefined) (Some (Fulfilled VUndefined))
        | (m2, Throw e) =>
            AlarmRun (with_store m2 (store (outside m1)))
              (Fulfilled VUndefined) (Some (Rejected e))
        end
    | (m1, Ok (VUndefined | VNull)) =>
        AlarmRun
          (log m1 (TypeError "Cannot read properties of undefined (reading 'transaction')"))
          (Fulfilled VUndefined) None
    | (m1, Ok _) =>
        AlarmRun
          (log m1 (TypeError "this.state.storage.transaction is not a function"))
          (Fulfilled VUndefined) None
    | (m1, Throw e) =>
        AlarmRun (log m1 e) (Fulfilled VUndefined) None
    end.

End Runtime.

(** ** The client handle of [proxyDurable] *)

Module Proxy.
Section Handle.

Variable JSON_stringify : value -> result (option string).

(** The request [buildRequest] hands to [stub.fetch]; [out_content] is the
    text of the [do-content] header. *)
Record outbound := Outbound {
  out_url : string;
  out_method : string;
  out_headers : list (string * string);
  out_content : string
}.

(** The text a header is given for the value [JSON.stringify] returns:
    [undefined] is written out. *)
Definition header_text (text : option string) : string :=
  match text with
  | Some s => s
  | None => "undefined"
  end.

(** The options of a handle: the headers (with [do-name] when the handle
    was asked for by name), and which members of the optional mock
    instance are functions. *)
Variable headers : list (string * string).
Variable mock : option (string -> bool).

Definition isValidMethod (prop : string) : bool :=
  (negb (String.eqb prop "fetch")
   && match mock with
      | None => true
      | Some is_fn => is_fn prop
      end)%bool.

Definition buildRequest (type prop : string) (content : value)
  : result outbound :=
  match JSON_stringify content with
  | Throw e => Throw e
  | Ok text =>
      Ok (Outbound ("https://itty-durable/do/" ++ type ++ "/" ++ prop)
            "GET" headers (header_text text))
  end.

(** [stubFetch(obj, type, prop, content)] sends the request it builds. *)
Definition stubFetch (type prop : string) (content : value)
  : result outbound :=
  buildRequest type prop content.

(** What reading a property of the handle gives: a function that sends a
    request when it is called, or a request that has been sent. *)
Inductive property_read :=
| Callable (send : list value -> result outbound)
| Sent (r : result outbound).

(** The [get] trap. *)
Definition proxy_get (prop : string) : property_read :=
  if isValidMethod prop
  then Callable (fun args => stubFetch "call" prop (VArr args []))
  else Sent (stubFetch "get-prop" prop VUndefined).

(** The [set] trap. *)
Definition proxy_set (prop : string) (v : value) : result outbound :=
  stubFetch "set" prop v.

End Handle.
End Proxy.

(** ** A fragment of the external codecs, for running the model

    [JSON.stringify] and [JSON.parse] on texts without white space, integers
    and the two escapes of a quoted string; superjson on the values it
    writes as [{ json: ... }] and on [undefined]. *)

Module Fragment.

Definition quote : ascii := "034"%char.
Definition backslash : ascii := "092"%char.

Fixpoint escape (s : string) : string :=
  match s with
  | EmptyString => EmptyString
  | String c s' =>
      if (Ascii.eqb c quote || Ascii.eqb c backslash)%bool
      then String backslash (String c (escape s'))
      else String c (escape s')
  end.

Definition quoted (s : string) : string :=
  String quote (escape s ++ String quote EmptyString).

Definition int_text (n : Z) : string := NilZero.string_of_int (Z.to_int n).

Fixpoint join (l : list string) : string :=
  match l with
  | [] => EmptyString
  | [x] => x
  | x :: l' => x ++ "," ++ join l'
  end.

(** The text of a value, [None] where [JSON.stringify] gives [undefined].
    Object members without a text are left out, array items without one
    are [null]; a host object prints as an object without data
    properties. *)
Fixpoint JSON_text (v : value) : option string :=
  match v with
  | VUndefined | VFun _ => None
  | VNull => Some "null"
  | VBool true => Some "true"
  | VBool false => Some "false"
  | VNum n => Some (int_text n)
  | VStr s => Some (quoted s)
  | VArr l _ =>
      Some ("[" ++
            join ((fix items (l : list value) : list string :=
                     match l with
                     | [] => []
                     | x :: l' => default "null" (JSON_text x) :: items l'
                     end) l) ++ "]")
  | VObj o =>
      Some ("{" ++
            join ((fix members (o : list (string * value)) : list string :=
                     match o with
                     | [] => []
                     | (k, x) :: o' =>
                         match JSON_text x with
                         | Some t => (quoted k ++ ":" ++ t) :: members o'
                         | None => members o'
                         end
                     end) o) ++ "}")
  | VError _ _ (Some s) => Some ("{" ++ quoted "status" ++ ":" ++ int_text s ++ "}")
  | _ => Some "{}"
  end.

Definition JSON_stringify (v : value) : result (option string) :=
  Ok (JSON_text v).

Definition is_digit (c : ascii) : bool :=
  let n := nat_of_ascii c in (Nat.leb 48 n && Nat.leb n 57)%bool.

Fixpoint read_digits (s : string) (acc : Z) : Z * string :=
  match s with
  | String c s' =>
      if is_digit c
      then read_digits s' (10 * acc + Z.of_nat (nat_of_ascii c - 48))
      else (acc, s)
  | EmptyString => (acc, s)
  end.

(** The characters of a quoted string after its opening quote. *)
Fixpoint read_string (s : string) : option (string * string) :=
  match s with
  | EmptyString => None
  | String c s' =>
      if Ascii.eqb c quote then Some (EmptyString, s')
      else if Ascii.eqb c backslash then
        match s' with
        | String d s'' =>
            match read_string s'' with
            | Some (t, r) => Some (String d t, r)
            | None => None
            end
        | EmptyString => None
        end
      else
        match read_string s' with
        | Some (t, r) => Some (String c t, r)
        | None => None
        end
  end.

Fixpoint after (p s : string) : option string :=
  match p with
  | EmptyString => Some s
  | String a p' =>
      match s with
      | String b s' => if Ascii.eqb a b then after p' s' else None
      | EmptyString => None
      end
  end.

Inductive reading := AValue | Items (acc : list value) | Members (acc : obj).

(** A recursive-descent reader; [fuel] bounds the nesting and the number of
    items read. *)
Fixpoint read (fuel : nat) (what : reading) (s : string)
  : option (value * string) :=
  match fuel with
  | O => None
  | S fuel' =>
      match what with
      | AValue =>
          match s with
          | String c s' =>
              if Ascii.eqb c "["%char then
                match after "]" s' with
                | Some r => Some (VArr [] [], r)
                | None => read fuel' (Items []) s'
                end
              else if Ascii.eqb c "{"%char then
                match after "}" s' with
                | Some r => Some (VObj [], r)
                | None => read fuel' (Members []) s'
                end
              else if Ascii.eqb c quote then
                match read_string s' with
                | Some (t, r) => Some (VStr t, r)
                | None => None
                end
              else if Ascii.eqb c "-"%char then
                match s' with
                | String d _ =>
                    if is_digit d
                    then let (n, r) := read_digits s' 0 in Some (VNum (- n), r)
                    else None
                | EmptyString => None
                end
              else if is_digit c then
                let (n, r) := read_digits s 0 in Some (VNum n, r)
              else
                match after "null" s, after "true" s, after "false" s with
                | Some r, _, _ => Some (VNull, r)
                | _, Some r, _ => Some (VBool true, r)
                | _, _, Some r => Some (VBool false, r)
                | _, _, _ => None
                end
          | EmptyString => None
          end
      | Items acc =>
          match read fuel' AValue s with
          | Some (v, String c r) =>
              if Ascii.eqb c ","%char then read fuel' (Items (acc ++ [v])) r
              else if Ascii.eqb c "]"%char then Some (VArr (acc ++ [v]) [], r)
              else None
          | _ => None
          end
      | Members acc =>
          match s with
          | String c s' =>
              if Ascii.eqb c quote then
                match read_string s' with
                | Some (k, String colon s'') =>
                    if Ascii.eqb colon ":"%char then
                      match read fuel' AValue s'' with
                      | Some (v, String d r) =>
                          if Ascii.eqb d ","%char
                          then read fuel' (Members (obj_set acc k v)) r
                          else if Ascii.eqb d "}"%char
                          then Some (VObj (obj_set acc k v), r)
                          else None
                      | _ => None
                      end
                    else None
                | _ => None
                end
              else None
          | EmptyString => None
          end
      end
  end.

Definition SyntaxError : value :=
  VError "SyntaxError" "Unexpected token in JSON" None.

Definition parse_text (s : string) : result value :=
  match read (S (String.length s)) AValue s with
  | Some (v, EmptyString) => Ok v
  | _ => Throw SyntaxError
  end.

(** [JSON.parse(v)]: a string is read; of the other values, which
    [JSON.parse] converts to a string first, the primitives that print as
    their own text are covered. *)
Definition JSON_parse (v : value) : result value :=
  match v with
  | VStr s => parse_text s
  | VNull | VBool _ | VNum _ => Ok v
  | _ => Throw SyntaxError
  end.

Definition undefined_text : string :=
  "{" ++ quoted "json" ++ ":null," ++ quoted "meta" ++ ":{" ++
  quoted "values" ++ ":[" ++ quoted "undefined" ++ "]}}".

(** [superjson.stringify] *)
Definition superjson_stringify (v : value) : string :=
  match v with
  | VUndefined => undefined_text
  | _ => "{" ++ quoted "json" ++ ":" ++ default "null" (JSON_text v) ++ "}"
  end.

(** [superjson.parse] *)
Definition superjson_parse (s : string) : result value :=
  if String.eqb s undefined_text then Ok VUndefined
  else match parse_text s with
       | Ok (VObj o) => Ok (obj_prop o "json")
       | Ok _ => Throw (TypeError "Cannot read properties of null (reading 'json')")
       | Throw e => Throw e
       end.

End Fragment.

(** ** Vocabulary of the statements *)

(** [this.state.storage] is the store adapter or a transaction over it. *)
Definition storage_ok (o : obj) : Prop :=
  get_prop (state_of o) "storage" = Ok VStorage
  \/ get_prop (state_of o) "storage" = Ok VTxn.

(** The store after the [put] calls of [persist] for the names [names] of
    the object [fields]. *)
Definition put_fields (prefix : string) (stringify : value -> string)
  (fields : obj) (names : list string) (s : gmap string string)
  : gmap string string :=
  fold_left
    (fun s name =>
       if String.prefix "$" name then s
       else <[prefix ++ name := stringify (obj_prop fields name)]> s)
    names s.

(** ** Sample actors *)

Module Sample.

(** The platform state handed to the constructor: it brings the storage. *)
Definition platform : obj := [("storage", VStorage)].

(** The instance the base constructor builds. *)
Definition newborn : obj :=
  match constructor platform [] with
  | Ok o => o
  | Throw _ => []
  end.

(** A binding of another actor class, as the platform hands it over. *)
Definition counter_binding : value :=
  VObj [("idFromName", VFun "idFromName"); ("get", VFun "get")].

(** The instance the base constructor builds from an environment with that
    binding. *)
Definition bound : obj :=
  match constructor platform [("COUNTER", counter_binding)] with
  | Ok o => o
  | Throw _ => []
  end.

(** An actor whose constructor sets [this.list = [undefined]]. *)
Definition lister : obj := obj_set newborn "list" (VArr [VUndefined] []).

(** An actor whose constructor sets a counter and a transient field. *)
Definition actor : obj :=
  match constructor platform [] with
  | Ok o => obj_set (obj_set o "count" (VNum 0)) "$tmp" (VNum 7)
  | Throw _ => []
  end.

Definition empty_world : world := World ∅ None [].

Definition fresh : machine := Machine actor empty_world.

(** The same actor after some work: both fields have changed. *)
Definition worked : machine :=
  Machine (obj_set (obj_set actor "count" (VNum 5)) "$tmp" (VNum 8))
    empty_world.


(** The function-valued members every instance inherits: the methods of the
    class and those of [Object.prototype]. *)
Definition base_members : list string :=
  ["constructor"; "destroy"; "getAlarm"; "setAlarm"; "safeAlarm"; "fetch";
   "getPersistable"; "loadFromStorage"; "onDestroy"; "onLoad";
   "optionallyReturnThis"; "persist"; "reset"; "toJSON";
   "__defineGetter__"; "__defineSetter__"; "hasOwnProperty";
   "__lookupGetter__"; "__lookupSetter__"; "isPrototypeOf";
   "propertyIsEnumerable"; "toLocaleString"; "toString"; "valueOf"].

(** A class that adds no member of its own. *)
Definition plain (k : string) : bool := bool_decide (k ∈ base_members).

(** The bodies of the member functions, for runs that call none. *)
Definition no_call (f : string) (args : list value) (m : machine)
  : machine * completion :=
  (m, Threw (TypeError "not reached")).

(** A class that defines [async fetchFallback()]. *)
Definition with_fallback (k : string) : bool :=
  (plain k || String.eqb k "fetchFallback")%bool.

(** [async fetchFallback() { return new Response(null, { status: 200 }) }] *)
Definition fallback_answers (f : string) (args : list value) (m : machine)
  : machine * completion :=
  (m, ReturnedPromise (Fulfilled (status 200))).

(** [async fetchFallback() { throw new Error('alarm failed') }] *)
Definition fallback_rejects (f : string) (args : list value) (m : machine)
  : machine * completion :=
  (m, ReturnedPromise (Rejected (Error "alarm failed"))).

(** An actor with the fields [f0] ... [f100], all set to [v]. *)
Definition crowded (v : Z) : obj :=
  fold_left (fun o i => obj_set o ("f" ++ index_key i) (VNum v))
    (seq 0 101) newborn.

(** The actor once its state has been loaded. *)
Definition loaded : machine :=
  (loadFromStorage "_itty:" Fragment.superjson_parse no_call fresh).1.

(** [proxy.increment()] as it arrives. *)
Definition call_increment : request :=
  Request "GET" (Some ("call", "increment")) [("do-content", "[]")].


(** [proxy.state = {}] as it arrives. *)
Definition set_state : request :=
  Request "GET" (Some ("set", "state")) [("do-content", "{}")].

(** A request the route does not match. *)
Definition off_route : request := Request "POST" None [].

(** [fetch] of a class made by [createDurable({ autoPersist })]. *)
Definition run_fetch (autoPersist : bool) (proto_has : string -> bool)
  (invoke : string -> list value -> machine -> machine * completion)
  : request -> machine -> machine * settled :=
  fetch autoPersist false "_itty:" default_onError
    Fragment.JSON_stringify Fragment.JSON_parse
    Fragment.superjson_stringify Fragment.superjson_parse proto_has invoke.

(** [safeAlarm] of a class made by [createDurable({ autoPersist: true })]. *)
Definition run_safeAlarm
  : option (machine -> machine * completion) -> machine -> alarm_run :=
  safeAlarm true "_itty:" Fragment.superjson_stringify Fragment.superjson_parse
    no_call.

(** [proxy.getPersistable = 1] as it arrives, and the actor after it: the
    own property [getPersistable] now holds a number. *)
Definition set_getPersistable : request :=
  Request "GET" (Some ("set", "getPersistable")) [("do-content", "1")].

Definition overwritten : machine :=
  (run_fetch false plain no_call set_getPersistable loaded).1.

(** [async () => { throw new Error('callback failed') }] *)
Definition failing_callback (m : machine) : machine * completion :=
  (m, ReturnedPromise (Rejected (Error "callback failed"))).

(** A store that holds the counter at 5. *)
Definition counted : world :=
  World (<["_itty:count" := Fragment.superjson_stringify (VNum 5)]> ∅) None [].

End Sample.

(** The field name [loadFromStorage] recovers from a store key. *)
Definition truncated (prefix key : string) : string :=
  if String.prefix prefix key then slice (String.length prefix) key else key.

(** [this.state.initialized] reads as a value that is not truthy. *)
Definition uninitialized (o : obj) : Prop :=
  exists v, get_prop (state_of o) "initialized" = Ok v /\ truthy v = false.

(** [this.state.initialized] reads as a truthy value. *)
Definition initialized (o : obj) : Prop :=
  exists v, get_prop (state_of o) "initialized" = Ok v /\ truthy v = true.

(** The entries of the store whose key starts with [prefix]. *)
Definition stored_under (prefix : string) (s : gmap string string)
  : list (string * string) :=
  filter (fun kv => String.prefix prefix kv.1 = true) (map_to_list s).

(** The property "persisting, then loading a fresh instance from the same
    store, gives back every persisted field", as a statement about the
    model. *)
Definition persist_then_load_gives_every_field : Prop :=
  forall (prefix : string) (superjson_stringify : value -> string)
         (superjson_parse : string -> result value)
         (invoke : string -> list value -> machine -> machine * completion)
         (m : machine) (fresh : obj),
    storage_ok (this m) -> uninitialized fresh -> storage_ok fresh ->
    store (outside m) = ∅ ->
    (forall name v,
       name <> "state" -> obj_get (this m) name = Some v ->
       superjson_parse (superjson_stringify v) = Ok v) ->
    let m1 := (persist prefix superjson_stringify invoke m).1 in
    let m2 := (loadFromStorage prefix superjson_parse invoke
                 (Machine fresh (outside m1))).1 in
    forall name v,
      name <> "state" -> String.prefix "$" name = false ->
      obj_get (this m) name = Some v ->
      obj_get (this m2) name = Some v.

(** The method [k] of the class is in its place: the instance has no own
    property of that name, its prototype is the one of its class, and the
    class does not override the method. *)
Definition in_place (m : machine) (k : string) : Prop := lookup m k = None.

(** The property "[persist()] leaves an entry for every persistable field
    whose name does not start with [$]", as a statement about the model. *)
Definition persist_writes_every_field : Prop :=
  forall (prefix : string) (superjson_stringify : value -> string)
         (invoke : string -> list value -> machine -> machine * completion)
         (m : machine) (name : string) (v : value),
    storage_ok (this m) ->
    name <> "state" -> String.prefix "$" name = false ->
    obj_get (this m) name = Some v ->
    store (outside (persist prefix superjson_stringify invoke m).1)
      !! (prefix ++ name)
    = Some (superjson_stringify v).

(** No function stands in the place of the method [k]: the method of the
    class is reached, or a value that cannot be called. *)
Definition no_function_at (m : machine) (k : string) : Prop :=
  forall f, lookup m k <> Some (VFun f).

(** The store holds no entry for the name [k] that decodes to a
    function. *)
Definition no_function_stored (prefix : string)
  (superjson_parse : string -> result value) (s : gmap string string)
  (k : string) : Prop :=
  forall text f,
    s !! (prefix ++ k) = Some text -> superjson_parse text <> Ok (VFun f).

(** [this.state.router] is the router the constructor has set up. *)
Definition routed (o : obj) : Prop :=
  get_prop (state_of o) "router" = Ok VRouter.



(** A machine that differs from another in the properties [ks] of the
    internal namespace at most. *)
Definition same_but (ks : list string) (m m' : machine) : Prop :=
  outside m' = outside m
  /\ proto m' = proto m
  /\ (forall name, name <> "state" ->
                   obj_get (this m') name = obj_get (this m) name)
  /\ (forall k, k ∉ ks ->
                get_prop (state_of (this m')) k = get_prop (state_of (this m)) k)
  /\ is_function (state_of (this m')) = is_function (state_of (this m))
  /\ getPersistable (this m') = getPersistable (this m).

(** The properties of the internal namespace [fetch] records the transport
    context in. *)
Definition context_keys : list string :=
  ["websocketRequest"; "request"; "idFromName"].


(** A value that keeps the properties written on it: an object or an
    array. *)
Definition records (v : value) : bool :=
  match v with
  | VObj _ | VArr _ _ => true
  | _ => false
  end.

(** An instance that has not loaded yet and is able to: the flag is not
    set, the internal namespace holds the router and the storage, and
    [getPersistable], [loadFromStorage] and [onLoad] are the methods of the
    class. *)
Definition unserved (m : machine) : Prop :=
  uninitialized (this m) /\ routed (this m) /\ storage_ok (this m)
  /\ in_place m "getPersistable" /\ in_place m "loadFromStorage"
  /\ in_place m "onLoad".

(** A store the load gets through: every entry under the prefix decodes,
    there is none for the name [onLoad], and one for the name [state]
    decodes to an object or an array. *)
Definition loads_cleanly (prefix : string)
  (superjson_parse : string -> result value) (s : gmap string string) : Prop :=
  (forall key text,
     s !! key = Some text -> String.prefix prefix key = true ->
     exists v, superjson_parse text = Ok v)
  /\ s !! (prefix ++ "onLoad") = None
  /\ (forall text v,
        s !! (prefix ++ "state") = Some text -> superjson_parse text = Ok v ->
        records v = true).

(** The property [k] of the internal namespace holds a value that
    satisfies [Q]. *)
Definition holds (k : string) (Q : value -> Prop) (o : obj) : Prop :=
  exists v, get_prop (state_of o) k = Ok v /\ Q v.

(** A computation that keeps a property of the instance. *)
Definition preserves (I : obj -> Prop) {A : Type} (c : M A) : Prop :=
  forall m, I (this m) -> I (this (c m).1).

(** The functions that are invoked keep a property of the instance. *)
Definition keeps (I : obj -> Prop)
  (invoke : string -> list value -> machine -> machine * completion) : Prop :=
  forall f args m, I (this m) -> I (this (invoke f args m).1).

(** The functions that are invoked leave an initialized instance
    initialized. *)
Definition keeps_initialized
  (invoke : string -> list value -> machine -> machine * completion) : Prop :=
  keeps initialized invoke.

(** The internal namespace holds the snapshot [v]. *)
Definition snapshot_is (v : value) (o : obj) : Prop :=
  holds "defaultState" (fun x => x = v) o.

(** The request is a [set] of the own property [state]. *)
Definition sets_state (r : request) : Prop :=
  req_method r = "GET" /\ req_params r = Some ("set", "state").

(** The property "once initialized, an instance stays initialized over every
    request", as a statement about the model. *)
Definition initialized_is_permanent : Prop :=
  forall (autoPersist autoReturn : bool) (prefix : string)
         (onError : value -> result value)
         (JSON_stringify : value -> result (option string))
         (JSON_parse : value -> result value)
         (superjson_stringify : value -> string)
         (superjson_parse : string -> result value)
         (proto_has : string -> bool)
         (invoke : string -> list value -> machine -> machine * completion)
         (r : request) (m : machine),
    keeps_initialized invoke ->
    initialized (this m) ->
    initialized
      (this (fetch autoPersist autoReturn prefix onError JSON_stringify
               JSON_parse superjson_stringify superjson_parse proto_has
               invoke r m).1).

(** ** [destroy] *)

(** [storage.deleteAll()] *)
Definition storage_deleteAll : M unit :=
  storage_handle "deleteAll" ;;
  fun m => (with_store m ∅, Ok tt).

(** [async onDestroy() {}] *)
Definition onDestroy : M value := ret VUndefined.

(** [const { reset = false } = options], with [options = {}] by default. *)
Definition reset_option (options : value) : result bool :=
  match options with
  | VUndefined => Ok false
  | VNull =>
      Throw (TypeError "Cannot destructure property 'reset' of 'options' as it is null.")
  | _ =>
      match get_prop options "reset" with
      | Ok VUndefined => Ok false
      | Ok v => Ok (truthy v)
      | Throw e => Throw e
      end
  end.

(** A run of [destroy]: the machine afterwards, the way the promise of
    [destroy] settles, and the error of [this.reset()] when its promise,
    which [destroy] does not await, is rejected. *)
Record destroy_run := DestroyRun {
  destroy_after : machine;
  destroy_returned : settled;
  destroy_detached : option value
}.

Section Destroy.

Variable JSON_parse : value -> result value.
Variable invoke : string -> list value -> machine -> machine * completion.

(** [async destroy(options)].  The statement [this.reset()] makes the call
    and drops what it returns; [await this.onDestroy()] decides the
    result. *)
Definition destroy (options : value) : machine -> destroy_run :=
  fun m =>
    match reset_option options with
    | Throw e => DestroyRun m (Rejected e) None
    | Ok wanted =>
        match storage_deleteAll m with
        | (m1, Throw e) => DestroyRun m1 (Rejected e) None
        | (m1, Ok _) =>
            match (if wanted
                   then send invoke "reset" []
                          (async (reset JSON_parse invoke ;; ret VUndefined)) m1
                   else (m1, Returned VUndefined))
            with
            | (m2, Threw e) => DestroyRun m2 (Rejected e) None
            | (m2, c) =>
                let detached :=
                  match c with
                  | ReturnedPromise (Rejected e) => Some e
                  | _ => None
                  end in
                match awaited (send invoke "onDestroy" [] (async onDestroy)) m2
                with
                | (m3, Ok destructionResponse) =>
                    DestroyRun m3
                      (Fulfilled (if truthy destructionResponse
                                  then destructionResponse else VUndefined))
                      detached
                | (m3, Throw e) => DestroyRun m3 (Rejected e) detached
                end
            end
        end
    end.

End Destroy.

(** ** The client: [proxyDurable] and the handles it gives out *)

Module Client.

(** What the client code throws: [new StatusError(status, message)] with the
    arguments it is given, or a value thrown by something it calls. *)
Inductive thrown : Type :=
| StatusErrorOf (status : Z) (message : value)
| Other (e : value).

Inductive outcome (A : Type) : Type :=
| Done (a : A)
| Fail (t : thrown).
Arguments Done {A} a.
Arguments Fail {A} t.

(** [headers[name] = v] on a header object. *)
Fixpoint headers_set (h : list (string * string)) (name v : string)
  : list (string * string) :=
  match h with
  | [] => [(name, v)]
  | (k, x) :: h' =>
      if String.eqb k name then (k, v) :: h' else (k, x) :: headers_set h' name v
  end.

(** The options of [proxyDurable] and of [get]; [None] is a key that is not
    given.  [opt_class] holds what [new options.class()] gives: the
    instance, as the test which of its members are functions, or the error
    the constructor throws. *)
Record options := Options {
  opt_name : option string;
  opt_parse : option bool;
  opt_headers : option (list (string * string));
  opt_class : option (result (string -> bool))
}.

Definition no_options : options := Options None None None None.

(** [`${middlewareOptions.name || 'That'} is not a valid Durable Object
    binding.`] *)
Definition invalid_binding (middlewareOptions : options) : string :=
  (match opt_name middlewareOptions with
   | Some name => if String.eqb name "" then "That" else name
   | None => "That"
   end) ++ " is not a valid Durable Object binding.".

(** The test of [proxyDurable(durable, middlewareOptions)]; it gives the
    object with [get] when it passes. *)
Definition proxyDurable (durable : value) (middlewareOptions : options)
  : outcome unit :=
  if negb (truthy durable) then
    Fail (StatusErrorOf 500 (VStr (invalid_binding middlewareOptions)))
  else
    match get_prop durable "idFromName" with
    | Ok f =>
        if truthy f then Done tt
        else Fail (StatusErrorOf 500 (VStr (invalid_binding middlewareOptions)))
    | Throw e => Fail (Other e)
    end.

(** The header object a handle sends with: the one of [middlewareOptions],
    which all handles made without headers of their own share, or an object
    of its own (given to this call of [get], or made by it). *)
Inductive header_object : Type :=
| Shared
| Own (h : list (string * string)).

Record handle := Handle {
  h_stub : value;
  h_headers : header_object;
  h_mock : option (string -> bool);
  h_parse : bool
}.

Section Binding.

(** The binding: [durable.idFromName] and [durable.get]. *)
Variable idFromName : string -> result value.
Variable durable_get : value -> result value.

(** The options of [proxyDurable], without the header object, which is
    passed along as it changes. *)
Variable middlewareOptions : options.

(** [new Proxy(stub, ...)] wants an object. *)
Definition is_object (v : value) : bool :=
  match v with
  | VUndefined | VNull | VBool _ | VNum _ | VStr _ => false
  | _ => true
  end.

Definition not_an_object : value :=
  TypeError "Cannot create proxy with a non-object as target or handler".

(** [catch (err) { throw new StatusError(500, err.message) }] *)
Definition rethrow (err : value) : thrown :=
  match get_prop err "message" with
  | Ok message => StatusErrorOf 500 message
  | Throw e => Other e
  end.

(** [proxyDurable(durable, middlewareOptions).get(id, options)]: the handle,
    and the header object of [middlewareOptions] afterwards.  A header
    object given in [options] is taken to serve this call only. *)
Definition get (shared : option (list (string * string))) (id : value)
  (opts : options)
  : outcome handle * option (list (string * string)) :=
  let parse := match opt_parse opts with
               | Some b => b
               | None => default false (opt_parse middlewareOptions)
               end in
  let class := match opt_class opts with
               | Some c => Some c
               | None => opt_class middlewareOptions
               end in
  (* headers = options.headers || {}; headers['do-name'] = id *)
  let named (h : list (string * string)) :=
    match id with
    | VStr name => headers_set h "do-name" name
    | _ => h
    end in
  let '(object, shared') :=
    match opt_headers opts, shared with
    | Some h, _ => (Own (named h), shared)
    | None, Some h => (Shared, Some (named h))
    | None, None => (Own (named []), None)
    end in
  let resolved :=
    match id with
    | VStr name => idFromName name
    | _ => Ok id
    end in
  match resolved with
  | Throw err => (Fail (rethrow err), shared')
  | Ok id' =>
      match durable_get id' with
      | Throw err => (Fail (rethrow err), shared')
      | Ok stub =>
          match class with
          | Some (Throw err) => (Fail (rethrow err), shared')
          | Some (Ok mock) =>
              if is_object stub
              then (Done (Handle stub object (Some mock) parse), shared')
              else (Fail (rethrow not_an_object), shared')
          | None =>
              if is_object stub
              then (Done (Handle stub object None parse), shared')
              else (Fail (rethrow not_an_object), shared')
          end
      end
  end.

End Binding.

(** The headers a handle sends with at the moment of a request. *)
Definition current_headers (shared : option (list (string * string)))
  (h : handle) : list (string * string) :=
  match h_headers h with
  | Shared => default [] shared
  | Own own => own
  end.

Section Transport.

Variable JSON_stringify : value -> result (option string).

(** The responses of the stub: their status, what [response.json()] gives,
    and what [response.text()] gives where the code calls it, which is
    after [response.json()] has been tried. *)
Variable response : Type.
Variable response_status : response -> Z.
Variable response_json : response -> completion.
Variable response_text : response -> completion.

(** [stub.fetch(request)] *)
Variable stub_fetch : Proxy.outbound -> result response.

(** [response.ok] *)
Definition ok (r : response) : bool :=
  ((200 <=? response_status r) && (response_status r <=? 299))%bool.

(** [body?.error || body] *)
Definition message_of (body : value) : value :=
  match body with
  | VUndefined | VNull => body
  | _ =>
      match get_prop body "error" with
      | Ok e => if truthy e then e else body
      | Throw _ => body
      end
  end.

(** [catchErrors] *)
Definition catchErrors (r : response) : outcome response :=
  if (ok r || (response_status r =? 101))%bool then Done r
  else
    match await (response_json r) with
    | Ok body => Fail (StatusErrorOf (response_status r) (message_of body))
    | Throw _ =>
        match await (response_text r) with
        | Ok body => Fail (StatusErrorOf (response_status r) (message_of body))
        | Throw e => Fail (Other e)
        end
    end.

(** What a proxied access resolves to: a decoded body or the response. *)
Inductive answer : Type :=
| Body (v : value)
| Raw (r : response).

(** [transformResponse]: each [try] covers the call, not the promise the
    call returns. *)
Definition transformResponse (r : response) : outcome answer :=
  match response_json r with
  | Returned v | ReturnedPromise (Fulfilled v) => Done (Body v)
  | ReturnedPromise (Rejected e) => Fail (Other e)
  | Threw _ =>
      match response_text r with
      | Returned v | ReturnedPromise (Fulfilled v) => Done (Body v)
      | ReturnedPromise (Rejected e) => Fail (Other e)
      | Threw _ => Done (Raw r)
      end
  end.

(** [stubFetch(obj, type, prop, content)] of a handle. *)
Definition stubFetch (shared : option (list (string * string))) (h : handle)
  (type prop : string) (content : value) : outcome answer :=
  match Proxy.buildRequest JSON_stringify (current_headers shared h)
          type prop content with
  | Throw e => Fail (Other e)
  | Ok request =>
      match stub_fetch request with
      | Throw e => Fail (Other e)
      | Ok r =>
          match catchErrors r with
          | Fail t => Fail t
          | Done r' => if h_parse h then transformResponse r' else Done (Raw r')
          end
      end
  end.

(** Reading the property [prop] of a handle and, where that gives a
    function, calling it with [args]. *)
Definition read_and_call (shared : option (list (string * string)))
  (h : handle) (prop : string) (args : list value) : outcome answer :=
  if Proxy.isValidMethod (h_mock h) prop
  then stubFetch shared h "call" prop (VArr args [])
  else stubFetch shared h "get-prop" prop VUndefined.

(** Assigning [v] to the property [prop] of a handle. *)
Definition write (shared : option (list (string * string))) (h : handle)
  (prop : string) (v : value) : outcome answer :=
  stubFetch shared h "set" prop v.

End Transport.

End Client.

(** ** More vocabulary *)

(** [this.persist()] reaches the method of the class, and that one the
    store. *)
Definition can_persist (m : machine) : Prop :=
  storage_ok (this m) /\ in_place m "persist" /\ in_place m "getPersistable".

(** An instance ready to serve: it has been initialized, holds its router,
    and the methods the runtime calls on it are those of the class:
    [loadFromStorage], where requests are persisted [persist] and
    [getPersistable] with the store, and [toJSON] where the fields are
    returned. *)
Definition ready (autoPersist autoReturn : bool) (m : machine) : Prop :=
  initialized (this m) /\ routed (this m) /\ in_place m "loadFromStorage"
  /\ (autoPersist = true -> can_persist m)
  /\ (autoReturn = true -> in_place m "toJSON").

(** The names a [set] has to spare for the instance to go on serving: the
    internal namespace, the prototype, and the methods the runtime calls on
    the instance. *)
Definition reserved : list string :=
  ["state"; "__proto__"; "loadFromStorage"; "persist"; "getPersistable";
   "toJSON"].

(** The machine once the [autoPersist] step of [fetch] has run. *)
Definition after_persist (autoPersist : bool) (prefix : string)
  (superjson_stringify : value -> string)
  (invoke : string -> list value -> machine -> machine * completion)
  (m : machine) : machine :=
  if autoPersist then (persist prefix superjson_stringify invoke m).1 else m.


(** What the self-returning stage and the last handler make of a request the
    action handler has not answered. *)
Definition fallthrough (autoReturn : bool) (o : obj) : value :=
  if autoReturn then json (VObj (toJSON o)) else status 204.

(** What the route answers when the member function it has called returns
    [v] and leaves the machine [m1]. *)
Definition call_result (autoReturn : bool) (m1 : machine) (v : value)
  : value :=
  match v with
  | VUndefined => fallthrough autoReturn (this m1)
  | VResponse _ _ => v
  | _ => json v
  end.

(** The status the default error handler asks for: [err.status || 500]. *)
Definition asked_status (st : option Z) : Z :=
  match st with
  | Some s => if s =? 0 then 500 else s
  | None => 500
  end.

Module More.

(** [proxy.items = [1, 2, 3]] and [proxy.items] as they arrive. *)
Definition set_items : request :=
  Request "GET" (Some ("set", "items")) [("do-content", "[1,2,3]")].

Definition get_items : request :=
  Request "GET" (Some ("get-prop", "items")) [].

(** [handle.count] as the handle named [alice] sends it and the actor
    receives it. *)
Definition read_count : request :=
  Request "GET" (Some ("get-prop", "count"))
    [("do-name", "alice"); ("do-content", "undefined")].

(** [proxy.loadFromStorage = 1] as it arrives. *)
Definition set_loadFromStorage : request :=
  Request "GET" (Some ("set", "loadFromStorage")) [("do-content", "1")].


(** A counter class: [increment()] adds one to [count] and returns nothing,
    [explode()] throws [new StatusError(418, 'teapot')], [misfire()] throws
    [new StatusError(42, 'no such status')]; all are [async]. *)
Definition counter_members (k : string) : bool :=
  (Sample.plain k || String.eqb k "increment" || String.eqb k "explode"
   || String.eqb k "misfire")%bool.

Definition counter_invoke (f : string) (args : list value) (m : machine)
  : machine * completion :=
  if String.eqb f "increment" then
    (with_this m
       (obj_set (this m) "count"
          (match obj_prop (this m) "count" with
           | VNum n => VNum (n + 1)
           | _ => VUndefined
           end)),
     ReturnedPromise (Fulfilled VUndefined))
  else if String.eqb f "explode" then
    (m, ReturnedPromise (Rejected (StatusError 418 "teapot")))
  else if String.eqb f "misfire" then
    (m, ReturnedPromise (Rejected (StatusError 42 "no such status")))
  else (m, Threw (TypeError "not reached")).

Definition call_explode : request :=
  Request "GET" (Some ("call", "explode")) [("do-content", "[]")].

Definition call_misfire : request :=
  Request "GET" (Some ("call", "misfire")) [("do-content", "[]")].


(** A binding that resolves every name and hands out a stub, and one whose
    names do not resolve. *)
Definition resolve (name : string) : result value :=
  Ok (VObj [("name", VStr name)]).

Definition resolve_fails (name : string) : result value :=
  Throw (Error "unknown namespace").

Definition stub : value := VObj [("fetch", VFun "fetch")].

Definition stub_of (id : value) : result value := Ok stub.

(** The responses of a stub: a status and the text of the body, if the
    response has one.  [json()] reads the body, the empty text where there
    is none.  A body can be read once: [text()] after [json()] is rejected,
    but for a response without a body, where it gives the empty text. *)
Definition reply : Type := Z * option string.

Definition reply_json (r : reply) : completion :=
  ReturnedPromise
    (match Fragment.parse_text (default EmptyString r.2) with
     | Ok v => Fulfilled v
     | Throw e => Rejected e
     end).

Definition reply_text (r : reply) : completion :=
  ReturnedPromise
    (match r.2 with
     | Some _ => Rejected (TypeError "Body has already been used")
     | None => Fulfilled (VStr EmptyString)
     end).

(** An actor that answers every request with 204 and no body. *)
Definition no_content (request : Proxy.outbound) : result reply :=
  Ok (204, None).

(** The store the worked actor leaves behind, and a store with an entry
    that is no superjson text. *)
Definition saved : world :=
  outside (persist "_itty:" Fragment.superjson_stringify Sample.no_call
             Sample.worked).1.

Definition corrupt : world :=
  World (<["_itty:count" := "oops"]> ∅) None [].

End More.

(** [typeof binding.idFromName === 'function'] *)
Definition is_namespace (binding : value) : bool :=
  match get_prop binding "idFromName" with
  | Ok f => is_function f
  | Throw _ => false
  end.


(** * Properties *)

(** ** Objects *)

Lemma obj_get_set (o : obj) (k k' : string) (v : value) :
  obj_get (obj_set o k v) k' = if String.eqb k k' then Some v else obj_get o k'.
Proof.
  induction o as [|[k0 v0] o IH]; simpl.
  - reflexivity.
  - destruct (String.eqb_spec k0 k) as [->|Hne]; simpl.
    + destruct (String.eqb k k'); reflexivity.
    + rewrite IH. destruct (String.eqb_spec k0 k') as [->|Hne'].
      * destruct (String.eqb_spec k k'); [congruence|reflexivity].
      * reflexivity.
Qed.

Lemma obj_get_set_eq (o : obj) (k : string) (v : value) :
  obj_get (obj_set o k v) k = Some v.
Proof. rewrite obj_get_set, String.eqb_refl. reflexivity. Qed.

Lemma obj_get_set_ne (o : obj) (k k' : string) (v : value) :
  k <> k' -> obj_get (obj_set o k v) k' = obj_get o k'.
Proof.
  intros Hne. rewrite obj_get_set.
  destruct (String.eqb_spec k k'); [contradiction|reflexivity].
Qed.

Lemma obj_get_delete (o : obj) (k k' : string) :
  obj_get (obj_delete o k) k' = if String.eqb k k' then None else obj_get o k'.
Proof.
  induction o as [|[k0 v0] o IH]; simpl.
  - destruct (String.eqb k k'); reflexivity.
  - destruct (String.eqb_spec k0 k) as [->|Hne]; simpl.
    + rewrite IH. destruct (String.eqb k k'); reflexivity.
    + rewrite IH. destruct (String.eqb_spec k0 k') as [->|Hne'].
      * destruct (String.eqb_spec k k'); [congruence|reflexivity].
      * reflexivity.
Qed.

Lemma obj_get_delete_ne (o : obj) (k k' : string) :
  k <> k' -> obj_get (obj_delete o k) k' = obj_get o k'.
Proof.
  intros Hne. rewrite obj_get_delete.
  destruct (String.eqb_spec k k'); [contradiction|reflexivity].
Qed.

Lemma obj_get_delete_eq (o : obj) (k : string) :
  obj_get (obj_delete o k) k = None.
Proof. rewrite obj_get_delete, String.eqb_refl. reflexivity. Qed.

Lemma obj_get_Some_keys (o : obj) (k : string) (v : value) :
  obj_get o k = Some v -> k ∈ obj_keys o.
Proof.
  induction o as [|[k0 v0] o IH]; simpl; [discriminate|].
  destruct (String.eqb_spec k0 k) as [->|Hne]; intros H.
  - apply elem_of_cons. auto.
  - apply elem_of_cons. auto.
Qed.

Lemma obj_get_None_keys (o : obj) (k : string) :
  obj_get o k = None <-> k ∉ obj_keys o.
Proof.
  induction o as [|[k0 v0] o IH]; simpl.
  - split; [intros _; apply not_elem_of_nil|reflexivity].
  - rewrite not_elem_of_cons.
    destruct (String.eqb_spec k0 k) as [->|Hne].
    + split; [discriminate|]. intros [H _]. congruence.
    + rewrite IH. split; [intros H; split; [congruence|exact H]|intros [_ H]; exact H].
Qed.

Lemma obj_get_delete_all (ks : list string) (o : obj) (k : string) :
  obj_get (fold_left obj_delete ks o) k
  = if bool_decide (k ∈ ks) then None else obj_get o k.
Proof.
  revert o. induction ks as [|k0 ks IH]; intros o; simpl.
  - reflexivity.
  - rewrite IH, obj_get_delete.
    destruct (String.eqb_spec k0 k) as [->|Hne].
    + rewrite (bool_decide_eq_true_2 (k ∈ k :: ks)) by (apply elem_of_cons; auto).
      destruct (bool_decide (k ∈ ks)); reflexivity.
    + destruct (bool_decide (k ∈ ks)) eqn:E.
      * apply bool_decide_eq_true_1 in E.
        rewrite bool_decide_eq_true_2 by (apply elem_of_cons; auto). reflexivity.
      * apply bool_decide_eq_false_1 in E.
        rewrite bool_decide_eq_false_2; [reflexivity|].
        rewrite elem_of_cons. intros [->|H]; [congruence|contradiction].
Qed.

(** The last binding of a key decides what [Object.assign] leaves. *)
Lemma obj_get_assign (src o : obj) (k : string) :
  obj_get (obj_assign o src) k
  = match obj_get (rev src) k with
    | Some v => Some v
    | None => obj_get o k
    end.
Proof.
  unfold obj_assign. revert o.
  induction src as [|[k0 v0] src IH] using rev_ind; intros o.
  - reflexivity.
  - rewrite fold_left_app, rev_app_distr. simpl.
    rewrite obj_get_set, IH.
    destruct (String.eqb k0 k); reflexivity.
Qed.

Lemma obj_get_app (o o' : obj) (k : string) :
  obj_get (o ++ o')%list k
  = match obj_get o k with Some v => Some v | None => obj_get o' k end.
Proof.
  induction o as [|[k0 v0] o IH]; simpl; [reflexivity|].
  destruct (String.eqb k0 k); auto.
Qed.

Lemma obj_get_rev_unique (o : obj) (k : string) :
  NoDup (obj_keys o) -> obj_get (rev o) k = obj_get o k.
Proof.
  induction o as [|[k0 v0] o IH]; intros Hnd; [reflexivity|].
  simpl in *. apply NoDup_cons in Hnd as [Hnot Hnd].
  rewrite obj_get_app, IH by assumption. simpl.
  destruct (String.eqb_spec k0 k) as [->|Hne].
  - assert (obj_get o k = None) as -> by (apply obj_get_None_keys; exact Hnot).
    reflexivity.
  - destruct (obj_get o k); reflexivity.
Qed.

(** ** The store adapter *)

Lemma storage_handle_ok (method : string) (m : machine) :
  storage_ok (this m) ->
  exists h, storage_handle method m = (m, Ok h).
Proof.
  intros [H|H]; unfold storage_handle, bind, state_read; rewrite H; simpl;
    eexists; reflexivity.
Qed.

Lemma storage_put_ok (k v : string) (m : machine) :
  storage_ok (this m) ->
  storage_put k v m = (with_store m (<[k := v]> (store (outside m))), Ok tt).
Proof.
  intros H. unfold storage_put, bind.
  destruct (storage_handle_ok "put" m H) as [h ->]. reflexivity.
Qed.

Lemma storage_list_ok (prefix : string) (limit : nat) (m : machine) :
  storage_ok (this m) ->
  storage_list prefix limit m
  = (m, Ok (store_list (store (outside m)) prefix limit)).
Proof.
  intros H. unfold storage_list, bind.
  destruct (storage_handle_ok "list" m H) as [h ->]. reflexivity.
Qed.

Lemma with_store_same (m : machine) :
  with_store m (store (outside m)) = m.
Proof. destruct m as [o p [s a c]]. reflexivity. Qed.

Lemma with_this_same (m : machine) : with_this m (this m) = m.
Proof. destruct m as [o p w]. reflexivity. Qed.

(** ** Methods in their place *)

Lemma in_place_own (m : machine) (k : string) :
  in_place m k
  <-> obj_get (this m) k = None
      /\ exists overridden, proto m = OfClass overridden /\ k ∉ overridden.
Proof.
  unfold in_place, lookup. destruct (obj_get (this m) k) as [v|].
  - split; [discriminate|]. intros [H _]. discriminate.
  - destruct (proto m) as [l|p].
    + destruct (bool_decide (k ∈ l)) eqn:E.
      * apply bool_decide_eq_true_1 in E.
        split; [discriminate|]. intros [_ (l' & [= <-] & H)]. contradiction.
      * apply bool_decide_eq_false_1 in E. split; eauto.
    + split; [discriminate|]. intros [_ (l' & H & _)]. discriminate.
Qed.

Lemma in_place_Machine (o : obj) (w : world) (k : string) :
  obj_get o k = None -> in_place (Machine o w) k.
Proof.
  intros H. apply in_place_own. split; [exact H|].
  exists []. split; [reflexivity|]. apply not_elem_of_nil.
Qed.

Section Dispatch.

Variable invoke : string -> list value -> machine -> machine * completion.

Lemma send_in_place (k : string) (args : list value)
  (definition : machine -> machine * completion) (m : machine) :
  in_place m k -> send invoke k args definition m = definition m.
Proof. intros H. unfold send. rewrite H. reflexivity. Qed.

Lemma await_method_in_place (k : string) (body : M unit) (m : machine) :
  in_place m k -> await_method invoke k body m = body m.
Proof.
  intros H. unfold await_method, bind, awaited.
  rewrite send_in_place by exact H. unfold async, bind, ret.
  destruct (body m) as [m' [[]|e]]; reflexivity.
Qed.

(** A data property in the place of a method makes the call throw. *)
Lemma await_method_shadowed (k : string) (body : M unit) (m : machine)
  (v : value) :
  lookup m k = Some v -> is_function v = false ->
  await_method invoke k body m
  = (m, Throw (TypeError ("this." ++ k ++ " is not a function"))).
Proof.
  intros H Hf. unfold await_method, bind, awaited, send. rewrite H.
  destruct v; try discriminate; reflexivity.
Qed.

Lemma call_getPersistable_in_place (m : machine) :
  in_place m "getPersistable" ->
  call_getPersistable invoke m = (m, Ok (VObj (getPersistable (this m)))).
Proof.
  intros H. unfold call_getPersistable.
  rewrite send_in_place by exact H. reflexivity.
Qed.

Lemma call_getPersistable_shadowed (m : machine) (v : value) :
  lookup m "getPersistable" = Some v -> is_function v = false ->
  call_getPersistable invoke m
  = (m, Throw (TypeError "this.getPersistable is not a function")).
Proof.
  intros H Hf. unfold call_getPersistable, send. rewrite H.
  destruct v; try discriminate; reflexivity.
Qed.

End Dispatch.

(** ** Assignments on the instance *)

Lemma assign_plain (k : string) (v : value) (m : machine) :
  k <> "__proto__" ->
  assign k v m = (with_this m (obj_set (this m) k v), Ok tt).
Proof.
  intros Hne. unfold assign.
  destruct (String.eqb_spec k "__proto__"); [contradiction|reflexivity].
Qed.

Lemma Object_assign_plain (src : obj) (m : machine) :
  "__proto__" ∉ obj_keys src ->
  Object_assign src m = (with_this m (obj_assign (this m) src), Ok tt).
Proof.
  unfold Object_assign, obj_assign. revert m.
  induction src as [|[k v] src IH]; intros m Hk; cbn [for_each fold_left].
  - unfold ret. rewrite with_this_same. reflexivity.
  - simpl in Hk. apply not_elem_of_cons in Hk as [Hne Hk].
    unfold bind at 1. rewrite assign_plain by (intros Heq; apply Hne; symmetry; exact Heq).
    rewrite IH by exact Hk. reflexivity.
Qed.

(** ** [persist] *)

Section PersistFacts.

Variable prefix : string.
Variable superjson_stringify : value -> string.
Variable invoke : string -> list value -> machine -> machine * completion.

Lemma for_each_put (fields : obj) (names : list string) (m : machine) :
  storage_ok (this m) ->
  for_each
    (fun propertyName =>
       if String.prefix "$" propertyName then ret tt
       else storage_put (prefix ++ propertyName)
              (superjson_stringify (obj_prop fields propertyName)))
    names m
  = (with_store m
       (put_fields prefix superjson_stringify fields names (store (outside m))),
     Ok tt).
Proof.
  revert m. induction names as [|name names IH]; intros m Hok;
    cbn [for_each].
  - unfold ret, put_fields. cbn [fold_left]. rewrite with_store_same.
    reflexivity.
  - unfold bind at 1. unfold put_fields. cbn [fold_left].
    destruct (String.prefix "$" name) eqn:E.
    + unfold ret at 1. rewrite IH by assumption. reflexivity.
    + rewrite storage_put_ok by assumption.
      rewrite IH by exact Hok. reflexivity.
Qed.

Lemma persist_run (m : machine) :
  storage_ok (this m) -> in_place m "getPersistable" ->
  persist prefix superjson_stringify invoke m
  = (with_store m
       (put_fields prefix superjson_stringify
          (obj_delete (getPersistable (this m)) "state")
          (obj_keys (obj_delete (getPersistable (this m)) "state"))
          (store (outside m))),
     Ok tt).
Proof.
  intros Hok Hin. unfold persist. unfold bind at 1.
  rewrite call_getPersistable_in_place by exact Hin.
  unfold bind, lift. simpl. apply for_each_put. exact Hok.
Qed.

(** With a data property in the place of [getPersistable], [persist()]
    throws before it writes. *)
Lemma persist_shadowed (m : machine) (v : value) :
  lookup m "getPersistable" = Some v -> is_function v = false ->
  persist prefix superjson_stringify invoke m
  = (m, Throw (TypeError "this.getPersistable is not a function")).
Proof.
  intros H Hf. unfold persist, bind.
  rewrite (call_getPersistable_shadowed invoke m v H Hf). reflexivity.
Qed.

Lemma put_fields_snoc (fields : obj) (names : list string) (name : string)
  (s : gmap string string) :
  put_fields prefix superjson_stringify fields (names ++ [name]) s
  = let s' := put_fields prefix superjson_stringify fields names s in
    if String.prefix "$" name then s'
    else <[prefix ++ name := superjson_stringify (obj_prop fields name)]> s'.
Proof. unfold put_fields. rewrite fold_left_app. reflexivity. Qed.

Lemma lookup_put_fields_hit (fields : obj) (names : list string)
  (s : gmap string string) (name : string) :
  name ∈ names -> String.prefix "$" name = false ->
  put_fields prefix superjson_stringify fields names s !! (prefix ++ name)
  = Some (superjson_stringify (obj_prop fields name)).
Proof.
  induction names as [|n names IH] using rev_ind; intros Hin Hd.
  - apply elem_of_nil in Hin. contradiction.
  - rewrite put_fields_snoc. cbv zeta.
    destruct (decide (n = name)) as [->|Hne].
    + rewrite Hd. apply lookup_insert_eq.
    + apply elem_of_app in Hin as [Hin|Hin].
      2:{ apply list_elem_of_singleton in Hin. congruence. }
      destruct (String.prefix "$" n); [auto|].
      rewrite lookup_insert_ne; [auto|].
      intros Heq. apply Hne. eapply String.app_inj. exact Heq.
Qed.

Lemma lookup_put_fields_miss (fields : obj) (names : list string)
  (s : gmap string string) (key : string) :
  (forall name, name ∈ names -> String.prefix "$" name = false ->
                key <> prefix ++ name) ->
  put_fields prefix superjson_stringify fields names s !! key = s !! key.
Proof.
  induction names as [|n names IH] using rev_ind; intros Hmiss.
  - reflexivity.
  - rewrite put_fields_snoc. cbv zeta.
    assert (put_fields prefix superjson_stringify fields names s !! key = s !! key)
      as Hrec.
    { apply IH. intros name Hin. apply Hmiss. apply elem_of_app. auto. }
    destruct (String.prefix "$" n) eqn:E; [exact Hrec|].
    rewrite lookup_insert_ne; [exact Hrec|].
    intros Heq. eapply Hmiss; [|exact E|symmetry; exact Heq].
    apply elem_of_app. right. apply list_elem_of_singleton. reflexivity.
Qed.

End PersistFacts.

Lemma persistable_get (o : obj) (name : string) :
  name <> "state" ->
  obj_get (obj_delete (getPersistable o) "state") name = obj_get o name.
Proof.
  intros Hne. unfold getPersistable.
  rewrite !obj_get_delete_ne by congruence. reflexivity.
Qed.

Lemma persistable_keys (o : obj) (name : string) :
  name ∈ obj_keys (obj_delete (getPersistable o) "state")
  <-> name <> "state" /\ is_Some (obj_get o name).
Proof.
  split.
  - intros Hin. destruct (decide (name = "state")) as [->|Hne].
    + exfalso. revert Hin. apply obj_get_None_keys, obj_get_delete_eq.
    + split; [exact Hne|]. rewrite <- persistable_get by exact Hne.
      destruct (obj_get _ name) eqn:E; [eauto|].
      apply obj_get_None_keys in E. contradiction.
  - intros [Hne [v Hv]]. rewrite <- persistable_get in Hv by exact Hne.
    eapply obj_get_Some_keys. exact Hv.
Qed.

(** The effect of [persist()] on the store. *)
Lemma persist_effect (prefix : string) (superjson_stringify : value -> string)
  (invoke : string -> list value -> machine -> machine * completion)
  (m : machine) :
  storage_ok (this m) -> in_place m "getPersistable" ->
  exists s' : gmap string string,
    persist prefix superjson_stringify invoke m = (with_store m s', Ok tt)
    /\ this (with_store m s') = this m
    /\ (forall name v,
          name <> "state" -> obj_get (this m) name = Some v ->
          String.prefix "$" name = false ->
          s' !! (prefix ++ name) = Some (superjson_stringify v))
    /\ (forall name,
          String.prefix "$" name = true ->
          s' !! (prefix ++ name) = store (outside m) !! (prefix ++ name))
    /\ (forall key,
          (forall name,
             name <> "state" -> is_Some (obj_get (this m) name) ->
             String.prefix "$" name = false -> key <> prefix ++ name) ->
          s' !! key = store (outside m) !! key).
Proof.
  intros Hok Hplace. eexists. split; [apply persist_run; assumption|].
  split; [reflexivity|]. split; [|split].
  - intros name v Hne Hv Hd.
    rewrite lookup_put_fields_hit.
    + unfold obj_prop. rewrite persistable_get, Hv by exact Hne. reflexivity.
    + apply persistable_keys. eauto.
    + exact Hd.
  - intros name Hd. apply lookup_put_fields_miss.
    intros name' _ Hd' Heq.
    apply String.app_inj in Heq. subst name'. congruence.
  - intros key Hmiss. apply lookup_put_fields_miss.
    intros name Hin Hd. apply persistable_keys in Hin as [Hne Hsome].
    apply Hmiss; assumption.
Qed.

(** C7, as amended.  On an instance whose [getPersistable] is the method of
    the class, [persist()] leaves the store with one entry [prefix ++ name]
    per own property [name] other than [state] that does not start with
    [$], holding the encoded value; the entry of a [$] name and every other
    key of the store are as before, and the instance, the alarm and the
    console are untouched. *)
Theorem persist_frame (prefix : string) (superjson_stringify : value -> string)
  (invoke : string -> list value -> machine -> machine * completion)
  (m : machine) :
  storage_ok (this m) -> in_place m "getPersistable" ->
  exists s' : gmap string string,
    persist prefix superjson_stringify invoke m = (with_store m s', Ok tt)
    /\ this (with_store m s') = this m
    /\ (forall name v,
          name <> "state" -> obj_get (this m) name = Some v ->
          String.prefix "$" name = false ->
          s' !! (prefix ++ name) = Some (superjson_stringify v))
    /\ (forall name,
          String.prefix "$" name = true ->
          s' !! (prefix ++ name) = store (outside m) !! (prefix ++ name))
    /\ (forall key,
          (forall name,
             name <> "state" -> is_Some (obj_get (this m) name) ->
             String.prefix "$" name = false -> key <> prefix ++ name) ->
          s' !! key = store (outside m) !! key).
Proof. apply persist_effect. Qed.

Lemma persist_frame_witness :
  exists s' : gmap string string,
    persist "_itty:" Fragment.superjson_stringify Sample.no_call Sample.fresh
    = (with_store Sample.fresh s', Ok tt)
    /\ this (with_store Sample.fresh s') = this Sample.fresh
    /\ (forall name v,
          name <> "state" -> obj_get (this Sample.fresh) name = Some v ->
          String.prefix "$" name = false ->
          s' !! ("_itty:" ++ name) = Some (Fragment.superjson_stringify v))
    /\ (forall name,
          String.prefix "$" name = true ->
          s' !! ("_itty:" ++ name)
          = store (outside Sample.fresh) !! ("_itty:" ++ name))
    /\ (forall key,
          (forall name,
             name <> "state" -> is_Some (obj_get (this Sample.fresh) name) ->
             String.prefix "$" name = false -> key <> "_itty:" ++ name) ->
          s' !! key = store (outside Sample.fresh) !! key).
Proof.
  apply (persist_frame "_itty:" Fragment.superjson_stringify Sample.no_call
           Sample.fresh).
  - left. reflexivity.
  - reflexivity.
Defined.

(** C7 fails as stated: once a [set] has written the own property
    [getPersistable], the call [this.getPersistable()] in [persist()]
    throws, and no field is written. *)
Lemma persist_writes_nothing_once_getPersistable_is_overwritten :
  ~ persist_writes_every_field.
Proof.
  intros H.
  pose proof (H "_itty:" Fragment.superjson_stringify Sample.no_call
                Sample.overwritten "count" (VNum 0)
                (or_introl eq_refl) ltac:(discriminate) eq_refl eq_refl) as H'.
  assert (lookup Sample.overwritten "getPersistable" = Some (VNum 1)) as Hl
    by reflexivity.
  rewrite (persist_shadowed "_itty:" Fragment.superjson_stringify
             Sample.no_call Sample.overwritten (VNum 1) Hl eq_refl) in H'.
  vm_compute in H'. discriminate H'.
Qed.

(** ** The constructor and the persistable fields *)

Lemma constructor_shape (state env o : obj) :
  constructor state env = Ok o ->
  exists st,
    o = [("env", VObj env); ("classInstance", VNull); ("state", VObj st)]
    /\ obj_prop st "router" = VRouter.
Proof.
  unfold constructor. destruct (embed_bindings env _) as [st|e]; [|discriminate].
  destruct (obj_prop st "router") eqn:E; try discriminate.
  intros [= <-]. eauto.
Qed.



(** ** Keys under a prefix *)

Lemma prefix_app (p s : string) : String.prefix p (p ++ s) = true.
Proof.
  induction p as [|a p IH]; simpl.
  - destruct s; reflexivity.
  - destruct (ascii_dec a a); [exact IH|contradiction].
Qed.

Lemma slice_app (p s : string) : slice (String.length p) (p ++ s) = s.
Proof. induction p as [|a p IH]; simpl; [reflexivity|exact IH]. Qed.

Lemma prefix_slice (p key : string) :
  String.prefix p key = true -> key = p ++ slice (String.length p) key.
Proof.
  revert key. induction p as [|a p IH]; intros key H; simpl.
  - reflexivity.
  - destruct key as [|b key]; simpl in H; [discriminate|].
    destruct (ascii_dec a b) as [->|]; [|discriminate].
    change (String b key = String b (p ++ slice (String.length p) key)).
    f_equal. apply IH. exact H.
Qed.

(** ** [storage.list] *)

Section ListFacts.

Variable prefix : string.

Let under (kv : string * string) : Prop := String.prefix prefix kv.1 = true.

Lemma store_list_Permutation (s : gmap string string) (limit : nat) :
  (length (filter under (map_to_list s)) <= limit)%nat ->
  store_list s prefix limit ≡ₚ filter under (map_to_list s).
Proof.
  intros Hlen. unfold store_list.
  rewrite take_ge.
  - apply merge_sort_Permutation.
  - rewrite merge_sort_Permutation. exact Hlen.
Qed.

Lemma store_list_elem (s : gmap string string) (limit : nat)
  (key text : string) :
  (length (filter under (map_to_list s)) <= limit)%nat ->
  (key, text) ∈ store_list s prefix limit
  <-> s !! key = Some text /\ String.prefix prefix key = true.
Proof.
  intros Hlen. rewrite (store_list_Permutation s limit Hlen).
  rewrite list_elem_of_filter, elem_of_map_to_list. unfold under. simpl. tauto.
Qed.

Lemma store_list_sub (s : gmap string string) (limit : nat)
  (key text : string) :
  (key, text) ∈ store_list s prefix limit ->
  s !! key = Some text /\ String.prefix prefix key = true.
Proof.
  unfold store_list. intros Hin.
  apply elem_of_take in Hin as (i & Hin & _).
  apply list_elem_of_lookup_2 in Hin.
  rewrite merge_sort_Permutation in Hin.
  apply list_elem_of_filter in Hin as [Hp Hin].
  apply elem_of_map_to_list in Hin. auto.
Qed.

Lemma store_list_NoDup (s : gmap string string) (limit : nat) :
  NoDup (store_list s prefix limit).*1.
Proof.
  unfold store_list.
  apply (sublist_NoDup _ (merge_sort key_le (filter under (map_to_list s))).*1).
  - rewrite merge_sort_Permutation.
    apply (sublist_NoDup _ (map_to_list s).*1).
    + apply NoDup_fst_map_to_list.
    + apply fmap_sublist, sublist_filter.
  - apply fmap_sublist, sublist_take.
Qed.

End ListFacts.

(** ** [loadFromStorage] *)

Lemma obj_keys_set (o : obj) (k : string) (v : value) :
  obj_keys (obj_set o k v)
  = if bool_decide (k ∈ obj_keys o) then obj_keys o else (obj_keys o ++ [k])%list.
Proof.
  induction o as [|[k0 v0] o IH]; simpl.
  - reflexivity.
  - destruct (String.eqb_spec k0 k) as [->|Hne]; simpl.
    + rewrite bool_decide_eq_true_2 by (apply elem_of_cons; auto). reflexivity.
    + rewrite IH. destruct (bool_decide (k ∈ obj_keys o)) eqn:E.
      * apply bool_decide_eq_true_1 in E.
        rewrite bool_decide_eq_true_2 by (apply elem_of_cons; auto). reflexivity.
      * apply bool_decide_eq_false_1 in E.
        rewrite bool_decide_eq_false_2; [reflexivity|].
        rewrite elem_of_cons. intros [->|H]; [congruence|contradiction].
Qed.

Lemma obj_set_NoDup (o : obj) (k : string) (v : value) :
  NoDup (obj_keys o) -> NoDup (obj_keys (obj_set o k v)).
Proof.
  intros Hnd. rewrite obj_keys_set.
  destruct (bool_decide (k ∈ obj_keys o)) eqn:E; [exact Hnd|].
  apply bool_decide_eq_false_1 in E.
  apply NoDup_app. split; [exact Hnd|]. split.
  - intros x Hx Hx'. apply list_elem_of_singleton in Hx'. congruence.
  - apply NoDup_singleton.
Qed.

Section LoadFacts.

Variable prefix : string.
Variable superjson_parse : string -> result value.

Local Abbreviation decode := (decode_entries prefix superjson_parse).

Lemma decode_entries_step (key text : string) (rest : list (string * string))
  (acc : obj) :
  decode ((key, text) :: rest) acc
  = match superjson_parse text with
    | Throw e => Throw e
    | Ok x =>
        if String.eqb (truncated prefix key) "__proto__" then decode rest acc
        else decode rest (obj_set acc (truncated prefix key) x)
    end.
Proof. reflexivity. Qed.

Lemma decode_entries_app (l1 l2 : list (string * string)) (acc : obj) :
  decode (l1 ++ l2) acc
  = match decode l1 acc with
    | Ok a => decode l2 a
    | Throw e => Throw e
    end.
Proof.
  revert acc. induction l1 as [|[key text] l1 IH]; intros acc.
  - reflexivity.
  - rewrite <- app_comm_cons, !decode_entries_step.
    destruct (superjson_parse text); [|reflexivity].
    destruct (String.eqb (truncated prefix key) "__proto__"); apply IH.
Qed.

Lemma decode_entries_keeps (l : list (string * string)) (acc r : obj)
  (k : string) :
  decode l acc = Ok r ->
  (forall key text, (key, text) ∈ l -> truncated prefix key <> k) ->
  obj_get r k = obj_get acc k.
Proof.
  revert acc. induction l as [|[key text] l IH]; intros acc Hrun Hmiss.
  - injection Hrun as <-. reflexivity.
  - rewrite decode_entries_step in Hrun.
    destruct (superjson_parse text) as [x|e]; [|discriminate].
    assert (forall key' text', (key', text') ∈ l -> truncated prefix key' <> k)
      as Hmiss'.
    { intros key' text' Hin. eapply Hmiss. apply elem_of_cons. eauto. }
    destruct (String.eqb (truncated prefix key) "__proto__").
    + apply (IH _ Hrun Hmiss').
    + rewrite (IH _ Hrun Hmiss').
      apply obj_get_set_ne. eapply Hmiss. apply elem_of_cons. auto.
Qed.

(** The loop makes no own property [__proto__]. *)
Lemma decode_entries_no_proto (l : list (string * string)) (acc r : obj) :
  decode l acc = Ok r -> "__proto__" ∉ obj_keys acc -> "__proto__" ∉ obj_keys r.
Proof.
  revert acc. induction l as [|[key text] l IH]; intros acc Hrun Hacc.
  - injection Hrun as <-. exact Hacc.
  - rewrite decode_entries_step in Hrun.
    destruct (superjson_parse text) as [x|e]; [|discriminate].
    destruct (String.eqb_spec (truncated prefix key) "__proto__") as [Heq|Hne].
    + apply (IH _ Hrun Hacc).
    + apply (IH _ Hrun). apply obj_get_None_keys.
      rewrite obj_get_set_ne by exact Hne. apply obj_get_None_keys. exact Hacc.
Qed.

Lemma decode_entries_total (l : list (string * string)) (acc : obj) :
  (forall key text, (key, text) ∈ l -> exists v, superjson_parse text = Ok v) ->
  exists r, decode l acc = Ok r.
Proof.
  revert acc. induction l as [|[key text] l IH]; intros acc Hall.
  - eexists. reflexivity.
  - rewrite decode_entries_step.
    destruct (Hall key text) as [v ->]; [apply elem_of_cons; auto|].
    destruct (String.eqb (truncated prefix key) "__proto__");
      apply IH; intros key' text' Hin; eapply Hall; apply elem_of_cons; eauto.
Qed.

Lemma decode_entries_NoDup (l : list (string * string)) (acc r : obj) :
  NoDup (obj_keys acc) -> decode l acc = Ok r -> NoDup (obj_keys r).
Proof.
  revert acc. induction l as [|[key text] l IH]; intros acc Hnd Hrun.
  - injection Hrun as <-. exact Hnd.
  - rewrite decode_entries_step in Hrun.
    destruct (superjson_parse text) as [x|e]; [|discriminate].
    destruct (String.eqb (truncated prefix key) "__proto__").
    + eapply IH; [exact Hnd|exact Hrun].
    + eapply IH; [|exact Hrun]. apply obj_set_NoDup. exact Hnd.
Qed.

(** Where a property of the collected object comes from. *)
Lemma decode_entries_origin (l : list (string * string)) (acc r : obj)
  (k : string) (v : value) :
  decode l acc = Ok r -> obj_get r k = Some v ->
  obj_get acc k = Some v
  \/ exists key text,
       (key, text) ∈ l /\ truncated prefix key = k
       /\ superjson_parse text = Ok v.
Proof.
  revert acc. induction l as [|[key text] l IH]; intros acc Hrun Hv.
  - injection Hrun as <-. left. exact Hv.
  - rewrite decode_entries_step in Hrun.
    destruct (superjson_parse text) as [x|e] eqn:Hx; [|discriminate].
    assert (forall a, decode l a = Ok r ->
              obj_get a k = Some v
              \/ exists key' text',
                   (key', text') ∈ (key, text) :: l
                   /\ truncated prefix key' = k
                   /\ superjson_parse text' = Ok v) as Hrec.
    { intros a Ha. destruct (IH a Ha Hv) as [H|(key' & text' & Hin & H)];
        [left; exact H|right].
      exists key', text'. split; [apply elem_of_cons; auto|exact H]. }
    destruct (String.eqb (truncated prefix key) "__proto__"); [auto|].
    destruct (Hrec _ Hrun) as [H|H]; [|right; exact H].
    rewrite obj_get_set in H.
    destruct (String.eqb_spec (truncated prefix key) k) as [Heq|Hne].
    + injection H as <-. right. exists key, text.
      split; [apply elem_of_cons; auto|auto].
    + left. exact H.
Qed.

Lemma truncated_inj (key key' : string) :
  String.prefix prefix key = true -> String.prefix prefix key' = true ->
  truncated prefix key = truncated prefix key' -> key = key'.
Proof.
  intros H H' Heq. unfold truncated in Heq. rewrite H, H' in Heq.
  rewrite (prefix_slice _ _ H), (prefix_slice _ _ H'), Heq. reflexivity.
Qed.

Lemma truncated_app (name : string) : truncated prefix (prefix ++ name) = name.
Proof. unfold truncated. rewrite prefix_app. apply slice_app. Qed.

Lemma decode_entries_lookup (l : list (string * string)) (acc r : obj)
  (key text : string) (v : value) :
  NoDup l.*1 ->
  (forall key' text', (key', text') ∈ l -> String.prefix prefix key' = true) ->
  (key, text) ∈ l ->
  truncated prefix key <> "__proto__" ->
  superjson_parse text = Ok v ->
  decode l acc = Ok r ->
  obj_get r (truncated prefix key) = Some v.
Proof.
  intros Hnd Hunder Hin Hproto Hparse Hrun.
  apply list_elem_of_split in Hin as (l1 & l2 & ->).
  rewrite decode_entries_app in Hrun.
  destruct (decode l1 acc) as [a|e]; [|discriminate].
  rewrite decode_entries_step, Hparse in Hrun.
  destruct (String.eqb_spec (truncated prefix key) "__proto__");
    [contradiction|].
  rewrite (decode_entries_keeps _ _ _ _ Hrun).
  - apply obj_get_set_eq.
  - intros key' text' Hin' Heq.
    rewrite fmap_app, fmap_cons in Hnd. simpl in Hnd.
    apply NoDup_app in Hnd as (_ & _ & Hnd).
    apply NoDup_cons in Hnd as [Hnot _].
    apply Hnot. apply truncated_inj in Heq.
    + subst key'. apply list_elem_of_fmap. exists (key, text'). auto.
    + eapply Hunder. apply elem_of_app. right. apply elem_of_cons. eauto.
    + eapply Hunder. apply elem_of_app. right. apply elem_of_cons. auto.
Qed.

End LoadFacts.

Lemma state_write_frame (k : string) (v : value) (m m' : machine)
  (r : result unit) :
  state_write k v m = (m', r) ->
  outside m' = outside m
  /\ forall name, name <> "state" -> obj_get (this m') name = obj_get (this m) name.
Proof.
  unfold state_write. destruct (set_prop _ k v) as [st|e]; intros [= <- <-].
  - split; [reflexivity|]. intros name Hne. simpl.
    apply obj_get_set_ne. congruence.
  - split; reflexivity.
Qed.

Lemma state_write_proto (k : string) (v : value) (m : machine) :
  proto (state_write k v m).1 = proto m.
Proof.
  unfold state_write. destruct (set_prop _ k v) as [st|e]; reflexivity.
Qed.

Section LoadRuns.

Variable prefix : string.
Variable superjson_parse : string -> result value.
Variable invoke : string -> list value -> machine -> machine * completion.

Lemma load_noop (m : machine) :
  initialized (this m) ->
  loadFromStorage prefix superjson_parse invoke m = (m, Ok tt).
Proof.
  intros (v & Hv & Ht). unfold loadFromStorage, bind, state_read.
  rewrite Hv, Ht. reflexivity.
Qed.

(** The load up to the call of the hook: the decoded entries are on the
    instance. *)
Lemma load_assigns (m : machine) (stateObj : obj) :
  uninitialized (this m) -> storage_ok (this m) ->
  decode_entries prefix superjson_parse
    (store_list (store (outside m)) prefix 100) [] = Ok stateObj ->
  loadFromStorage prefix superjson_parse invoke m
  = (await_method invoke "onLoad" onLoad ;;
     state_write "initialized" (VBool true))
      (with_this m (obj_assign (this m) stateObj)).
Proof.
  intros (v & Hv & Ht) Hok Hdec. unfold loadFromStorage.
  unfold bind at 1. unfold state_read. rewrite Hv, Ht.
  unfold bind at 1. rewrite storage_list_ok by exact Hok.
  unfold bind at 1. unfold lift. rewrite Hdec.
  unfold bind at 1. rewrite Object_assign_plain; [reflexivity|].
  eapply decode_entries_no_proto; [exact Hdec|apply not_elem_of_nil].
Qed.

Lemma load_run (m : machine) (stateObj : obj) :
  uninitialized (this m) -> storage_ok (this m) ->
  decode_entries prefix superjson_parse
    (store_list (store (outside m)) prefix 100) [] = Ok stateObj ->
  in_place (with_this m (obj_assign (this m) stateObj)) "onLoad" ->
  loadFromStorage prefix superjson_parse invoke m
  = state_write "initialized" (VBool true)
      (with_this m (obj_assign (this m) stateObj)).
Proof.
  intros Hun Hok Hdec Hin. rewrite (load_assigns m stateObj Hun Hok Hdec).
  unfold bind. rewrite await_method_in_place by exact Hin. reflexivity.
Qed.

(** Where the hook is the one of the class or a data property stands in
    its place, the load leaves the decoded entries on the instance and the
    world as it was, whether it completes or not. *)
Lemma load_fields (m : machine) (stateObj : obj) :
  uninitialized (this m) -> storage_ok (this m) ->
  decode_entries prefix superjson_parse
    (store_list (store (outside m)) prefix 100) [] = Ok stateObj ->
  (forall f, lookup (with_this m (obj_assign (this m) stateObj)) "onLoad"
             <> Some (VFun f)) ->
  let m' := (loadFromStorage prefix superjson_parse invoke m).1 in
  outside m' = outside m
  /\ proto m' = proto m
  /\ forall name, name <> "state" ->
                  obj_get (this m') name
                  = obj_get (obj_assign (this m) stateObj) name.
Proof.
  intros Hun Hok Hdec Hfn. rewrite (load_assigns m stateObj Hun Hok Hdec).
  set (m1 := with_this m (obj_assign (this m) stateObj)) in *.
  destruct (lookup m1 "onLoad") as [v|] eqn:Hl.
  - assert (is_function v = false) as Hv.
    { destruct v; try reflexivity. exfalso. eapply Hfn. reflexivity. }
    unfold bind. rewrite (await_method_shadowed invoke _ _ m1 v Hl Hv).
    simpl. auto.
  - unfold bind. rewrite await_method_in_place by exact Hl.
    unfold onLoad, ret.
    destruct (state_write "initialized" (VBool true) m1) as [m2 r] eqn:Hw.
    pose proof (state_write_proto "initialized" (VBool true) m1) as Hp.
    rewrite Hw in Hp. apply state_write_frame in Hw as [Ho Hf].
    simpl. split; [exact Ho|]. split; [exact Hp|exact Hf].
Qed.

End LoadRuns.

Lemma lookup_put_fields_inv (prefix : string) (stringify : value -> string)
  (fields : obj) (names : list string) (s : gmap string string)
  (key text : string) :
  put_fields prefix stringify fields names s !! key = Some text ->
  (exists name, name ∈ names /\ String.prefix "$" name = false
                /\ key = prefix ++ name
                /\ text = stringify (obj_prop fields name))
  \/ s !! key = Some text.
Proof.
  induction names as [|n names IH] using rev_ind; intros Hget.
  - right. exact Hget.
  - rewrite put_fields_snoc in Hget. cbv zeta in Hget.
    assert (put_fields prefix stringify fields names s !! key = Some text ->
            (exists name, name ∈ (names ++ [n])%list /\ String.prefix "$" name = false
                          /\ key = prefix ++ name
                          /\ text = stringify (obj_prop fields name))
            \/ s !! key = Some text) as Hrec.
    { intros H. destruct (IH H) as [(name & Hin & Hrest)|Hs]; [left|right; exact Hs].
      exists name. split; [apply elem_of_app; auto|exact Hrest]. }
    destruct (String.prefix "$" n) eqn:E; [auto|].
    destruct (decide (prefix ++ n = key)) as [<-|Hne].
    + rewrite lookup_insert_eq in Hget. injection Hget as <-.
      left. exists n. split; [apply elem_of_app; right; apply list_elem_of_singleton; reflexivity|auto].
    + rewrite lookup_insert_ne in Hget by exact Hne. auto.
Qed.

(** ** Persisting and loading again *)

(** After the listed entries have been assigned, no function stands in
    the place of a method in which none stood before and for which the
    store holds none. *)
Lemma no_function_after_assign (prefix : string)
  (superjson_parse : string -> result value) (limit : nat)
  (stateObj : obj) (m : machine) (k : string) :
  decode_entries prefix superjson_parse
    (store_list (store (outside m)) prefix limit) [] = Ok stateObj ->
  no_function_at m k ->
  no_function_stored prefix superjson_parse (store (outside m)) k ->
  no_function_at (with_this m (obj_assign (this m) stateObj)) k.
Proof.
  intros Hdec Hm Hs f. unfold lookup. simpl. rewrite obj_get_assign.
  assert (NoDup (obj_keys stateObj)) as Hnd.
  { eapply decode_entries_NoDup; [|exact Hdec]. apply NoDup_nil_2. }
  rewrite (obj_get_rev_unique _ _ Hnd).
  destruct (obj_get stateObj k) as [v|] eqn:Hv; [|exact (Hm f)].
  intros [= ->].
  destruct (decode_entries_origin prefix superjson_parse _ _ _ _ _ Hdec Hv)
    as [H|(key & text & Hin & Htr & Hparse)]; [discriminate|].
  apply store_list_sub in Hin as [Hget Hp].
  unfold truncated in Htr. rewrite Hp in Htr.
  rewrite (prefix_slice _ _ Hp), Htr in Hget.
  exact (Hs text f Hget Hparse).
Qed.

(** C1, as amended.  After [persist()] on an instance whose
    [getPersistable] is the method of the class, loading an instance that
    has not been initialized from the same store gives every own property
    of the persisted instance, other than [state], [__proto__] and the
    names that start with [$], the value it had, provided the codec gives
    these values back, the entries that were in the store under the prefix
    decode, the store then holds at most 100 entries under the prefix, and
    no function stands in the place of the empty hook [onLoad]: the loading
    instance has none of its own and inherits none, and the store holds
    none under that name. *)
Theorem persist_then_load_restores_fields
  (prefix : string) (superjson_stringify : value -> string)
  (superjson_parse : string -> result value)
  (invoke : string -> list value -> machine -> machine * completion)
  (m : machine) (fresh : obj) (p : prototype) :
  storage_ok (this m) -> in_place m "getPersistable" ->
  uninitialized fresh -> storage_ok fresh ->
  (forall name v,
     name <> "state" -> obj_get (this m) name = Some v ->
     String.prefix "$" name = false ->
     superjson_parse (superjson_stringify v) = Ok v) ->
  (forall key text,
     store (outside m) !! key = Some text -> String.prefix prefix key = true ->
     exists v, superjson_parse text = Ok v) ->
  let m1 := (persist prefix superjson_stringify invoke m).1 in
  let loading := MachineOf fresh p (outside m1) in
  (length (stored_under prefix (store (outside m1))) <= 100)%nat ->
  no_function_at loading "onLoad" ->
  no_function_stored prefix superjson_parse (store (outside m1)) "onLoad" ->
  let m2 := (loadFromStorage prefix superjson_parse invoke loading).1 in
  forall name v,
    name <> "state" -> name <> "__proto__" ->
    obj_get (this m) name = Some v ->
    String.prefix "$" name = false ->
    obj_get (this m2) name = Some v.
Proof.
  intros Hok Hplace Hun Hokf Hround Hstale m1 loading Hlen Hhook Hnone m2
    name v Hne Hnp Hv Hd.
  destruct (persist_effect prefix superjson_stringify invoke m Hok Hplace)
    as (s1 & Hrun & _ & Hhit & _).
  assert (outside m1 = World s1 (alarm (outside m)) (console (outside m)))
    as Hout by (unfold m1; rewrite Hrun; reflexivity).
  assert (store (outside m1) = s1) as Hs1 by (rewrite Hout; reflexivity).
  (* every listed entry decodes *)
  set (listed := store_list s1 prefix 100).
  assert (forall key text, (key, text) ∈ listed ->
            exists x, superjson_parse text = Ok x) as Hall.
  { intros key text Hin. apply store_list_sub in Hin as [Hget Hp].
    pose proof (persist_run prefix superjson_stringify invoke m Hok Hplace)
      as Hrun'.
    rewrite Hrun in Hrun'. injection Hrun' as Hs.
    assert (s1 = put_fields prefix superjson_stringify
                   (obj_delete (getPersistable (this m)) "state")
                   (obj_keys (obj_delete (getPersistable (this m)) "state"))
                   (store (outside m))) as Hs1'.
    { destruct m as [o pm [s a c]]. simpl in *. congruence. }
    rewrite Hs1' in Hget.
    apply lookup_put_fields_inv in Hget
      as [(n & Hin & Hdn & -> & ->)|Hold].
    - apply persistable_keys in Hin as [Hnn [x Hx]].
      exists x. unfold obj_prop. rewrite persistable_get, Hx by exact Hnn.
      simpl. eapply Hround; eauto.
    - eapply Hstale; eauto. }
  destruct (decode_entries_total prefix superjson_parse listed [] Hall)
    as [stateObj Hdec].
  assert (obj_get stateObj name = Some v) as Hloaded.
  { rewrite <- (truncated_app prefix name).
    eapply (decode_entries_lookup prefix superjson_parse listed [] stateObj
              (prefix ++ name) (superjson_stringify v)).
    - apply store_list_NoDup.
    - intros key' text' Hin. apply store_list_sub in Hin. tauto.
    - apply store_list_elem.
      + rewrite <- Hs1. exact Hlen.
      + split; [apply Hhit; assumption|apply prefix_app].
    - rewrite truncated_app. exact Hnp.
    - eapply Hround; eauto.
    - exact Hdec. }
  assert (NoDup (obj_keys stateObj)) as Hnd.
  { eapply decode_entries_NoDup; [|exact Hdec]. apply NoDup_nil_2. }
  assert (decode_entries prefix superjson_parse
            (store_list (store (outside loading)) prefix 100) []
          = Ok stateObj) as Hdec'.
  { simpl. rewrite Hs1. exact Hdec. }
  destruct (load_fields prefix superjson_parse invoke loading stateObj
              Hun Hokf Hdec') as (_ & _ & Hfields).
  { apply (no_function_after_assign prefix superjson_parse 100 stateObj
             loading "onLoad" Hdec'); [exact Hhook|exact Hnone]. }
  unfold m2. rewrite Hfields by exact Hne. simpl.
  rewrite obj_get_assign, obj_get_rev_unique, Hloaded by exact Hnd.
  reflexivity.
Qed.

Ltac sample_field Hv name :=
  match type of Hv with
  | obj_get ?o _ = _ =>
      let o' := eval vm_compute in o in
      change o with o' in Hv
  end;
  cbn [obj_get] in Hv;
  repeat match type of Hv with
         | (if String.eqb ?k name then _ else _) = _ =>
             let E := fresh "E" in
             destruct (String.eqb_spec k name) as [E|E];
             [try (injection Hv as <-; vm_compute; reflexivity);
              try congruence; try (subst name; discriminate)|]
         end;
  try discriminate.

Lemma sample_roundtrip (name : string) (v : value) :
  name <> "state" -> obj_get (this Sample.worked) name = Some v ->
  Fragment.superjson_parse (Fragment.superjson_stringify v) = Ok v.
Proof. intros Hne Hv. sample_field Hv name. Qed.

Lemma persist_then_load_restores_fields_witness :
  obj_get
    (this (loadFromStorage "_itty:" Fragment.superjson_parse Sample.no_call
             (Machine Sample.actor
                (outside (persist "_itty:" Fragment.superjson_stringify
                            Sample.no_call Sample.worked).1))).1)
    "count"
  = Some (VNum 5).
Proof.
  apply (persist_then_load_restores_fields "_itty:"
           Fragment.superjson_stringify Fragment.superjson_parse
           Sample.no_call Sample.worked Sample.actor (OfClass [])).
  - left. reflexivity.
  - reflexivity.
  - exists (VBool false). split; reflexivity.
  - left. reflexivity.
  - intros name v Hne Hv _. exact (sample_roundtrip name v Hne Hv).
  - intros key text Hget. simpl in Hget. rewrite lookup_empty in Hget.
    discriminate.
  - vm_compute. lia.
  - discriminate.
  - intros text f Hget. vm_compute in Hget. discriminate.
  - discriminate.
  - discriminate.
  - reflexivity.
  - reflexivity.
Defined.

Lemma obj_get_In (o : obj) (k : string) (v : value) :
  obj_get o k = Some v -> In (k, v) o.
Proof.
  induction o as [|[k0 v0] o IH]; simpl; [discriminate|].
  destruct (String.eqb_spec k0 k) as [->|Hne].
  - intros [= ->]. auto.
  - auto.
Qed.

Lemma crowded_roundtrip (name : string) (v : value) :
  name <> "state" -> obj_get (Sample.crowded 1) name = Some v ->
  Fragment.superjson_parse (Fragment.superjson_stringify v) = Ok v.
Proof.
  intros Hne Hv. apply obj_get_In in Hv.
  assert (Forall (fun kv : string * value =>
                    kv.1 = "state"
                    \/ Fragment.superjson_parse
                         (Fragment.superjson_stringify kv.2) = Ok kv.2)
            (Sample.crowded 1)) as Hall.
  { let l := eval vm_compute in (Sample.crowded 1) in
    change (Sample.crowded 1) with l.
    repeat (apply Forall_cons; split;
            [first [right; vm_compute; reflexivity|left; reflexivity]|]).
    apply Forall_nil. trivial. }
  rewrite Forall_forall in Hall.
  destruct (Hall (name, v)) as [H|H]; [apply list_elem_of_In; exact Hv| |exact H].
  simpl in H. contradiction.
Qed.

(** C1 fails as stated: the load lists at most 100 entries, so of more
    persisted fields the ones with the greatest keys are not loaded. *)
Lemma persist_then_load_misses_fields_beyond_100 :
  ~ persist_then_load_gives_every_field.
Proof.
  intros H.
  specialize (H "_itty:" Fragment.superjson_stringify Fragment.superjson_parse
                Sample.no_call
                (Machine (Sample.crowded 1) Sample.empty_world)
                (Sample.crowded 0)).
  assert (obj_get
            (this (loadFromStorage "_itty:" Fragment.superjson_parse
                     Sample.no_call
                     (Machine (Sample.crowded 0)
                        (outside (persist "_itty:" Fragment.superjson_stringify
                                    Sample.no_call
                                    (Machine (Sample.crowded 1)
                                       Sample.empty_world)).1))).1)
            "f99"
          = Some (VNum 1)) as Heq.
  { apply H.
    - left. reflexivity.
    - exists (VBool false). split; reflexivity.
    - left. reflexivity.
    - reflexivity.
    - exact crowded_roundtrip.
    - discriminate.
    - reflexivity.
    - reflexivity. }
  vm_compute in Heq. discriminate.
Qed.

(** ** The fallback handler, the alarm guard and the handle *)

(** C3, the code at the failing input: with [autoPersist] on, a request the
    route does not match on an actor that has a fallback handler is answered
    by the handler and nothing is written to the store, while the instance
    has fields [persist()] would write. *)
Theorem fallback_answer_skips_persist :
  exists m',
    Sample.run_fetch true Sample.with_fallback Sample.fallback_answers
      Sample.off_route Sample.fresh
    = (m', Fulfilled (status 200))
    /\ store (outside m') = ∅
    /\ store
         (outside (persist "_itty:" Fragment.superjson_stringify
                     Sample.fallback_answers m').1)
       !! "_itty:count" = Some (Fragment.superjson_stringify (VNum 0)).
Proof. eexists. split; [vm_compute; reflexivity|]. split; reflexivity. Qed.

(** C5, the code at the failing input: a fallback handler whose promise
    rejects makes the promise of [fetch] reject; the [catch] of [fetch] does
    not see the error and logs nothing. *)
Theorem fallback_rejection_escapes_fetch :
  exists m',
    Sample.run_fetch false Sample.with_fallback Sample.fallback_rejects
      Sample.off_route Sample.fresh
    = (m', Rejected (Error "alarm failed"))
    /\ console (outside m') = [].
Proof. eexists. split; [vm_compute; reflexivity|reflexivity]. Qed.

(** The promise of [safeAlarm] is fulfilled whatever happens. *)
Lemma safeAlarm_returns (autoPersist : bool) (prefix : string)
  (superjson_stringify : value -> string)
  (superjson_parse : string -> result value)
  (invoke : string -> list value -> machine -> machine * completion)
  (cb : option (machine -> machine * completion)) (m : machine) :
  alarm_returned
    (safeAlarm autoPersist prefix superjson_stringify superjson_parse invoke
       cb m)
  = Fulfilled VUndefined.
Proof.
  unfold safeAlarm. destruct (state_read "storage" m) as [m1 [[]|e]];
    try reflexivity.
  destruct (alarm_closure _ _ _ _ _ cb m1) as [m2 [u|e]]; reflexivity.
Qed.

(** C8, the code at the failing input: an error of the callback rejects the
    promise of the transaction, which [safeAlarm] neither awaits nor
    returns; the [catch] does not run and nothing is logged. *)
Theorem callback_error_is_not_logged :
  Sample.run_safeAlarm (Some Sample.failing_callback) Sample.fresh
  = AlarmRun
      (alarm_after
         (Sample.run_safeAlarm (Some Sample.failing_callback) Sample.fresh))
      (Fulfilled VUndefined)
      (Some (Rejected (Error "callback failed")))
  /\ console
       (outside
          (alarm_after
             (Sample.run_safeAlarm (Some Sample.failing_callback)
                Sample.fresh)))
     = [].
Proof. split; reflexivity. Qed.

(** C9, the code at the failing input: reading [fetch] on a handle sends a
    [get-prop] request for the target [fetch]. *)
Theorem reading_fetch_sends_get_prop
  (JSON_stringify : value -> result (option string))
  (headers : list (string * string)) (mock : option (string -> bool)) :
  Proxy.isValidMethod mock "fetch" = false
  /\ Proxy.proxy_get JSON_stringify headers mock "fetch"
     = Proxy.Sent
         (match JSON_stringify VUndefined with
          | Throw e => Throw e
          | Ok text =>
              Ok (Proxy.Outbound "https://itty-durable/do/get-prop/fetch"
                    "GET" headers (Proxy.header_text text))
          end).
Proof. split; reflexivity. Qed.

(** ** Stepping through the computations *)

Lemma bind_ok {A B} (c : M A) (k : A -> M B) (m m' : machine) (a : A) :
  c m = (m', Ok a) -> bind c k m = k a m'.
Proof. intros H. unfold bind. rewrite H. reflexivity. Qed.

Lemma bind_throw {A B} (c : M A) (k : A -> M B) (m m' : machine) (e : value) :
  c m = (m', Throw e) -> bind c k m = (m', Throw e).
Proof. intros H. unfold bind. rewrite H. reflexivity. Qed.

(** ** Writes to the internal namespace *)

Lemma set_prop_other (st : value) (k k' : string) (v x : value) :
  get_prop st k = Ok v -> defined v = true ->
  exists st',
    set_prop st k' x = Ok st'
    /\ is_function st' = false
    /\ forall k'', k'' <> k' -> get_prop st' k'' = get_prop st k''.
Proof.
  intros Hget Hdef.
  destruct st; simpl in *; try (injection Hget as <-; discriminate);
    try discriminate.
  - eexists. split; [reflexivity|]. split; [reflexivity|].
    intros k'' Hne. simpl. unfold obj_prop.
    rewrite obj_get_set_ne by congruence. reflexivity.
  - eexists. split; [reflexivity|]. split; [reflexivity|].
    intros k'' Hne. simpl. unfold obj_prop.
    rewrite obj_get_set_ne by congruence. reflexivity.
  - eexists. split; [reflexivity|]. split; [reflexivity|]. reflexivity.
Qed.

Lemma obj_delete_set (o : obj) (k : string) (v : value) :
  obj_delete (obj_set o k v) k = obj_delete o k.
Proof.
  induction o as [|[k0 v0] o IH]; simpl.
  - rewrite String.eqb_refl. reflexivity.
  - destruct (String.eqb_spec k0 k) as [->|Hne]; simpl.
    + rewrite String.eqb_refl. reflexivity.
    + destruct (String.eqb_spec k0 k); [contradiction|]. rewrite IH. reflexivity.
Qed.

Lemma same_but_trans (ks ks' : list string) (m m' m'' : machine) :
  same_but ks m m' -> same_but ks' m' m'' -> same_but (ks ++ ks') m m''.
Proof.
  intros (Ho & Hpr & Hf & Hs & Hfn & Hp) (Ho' & Hpr' & Hf' & Hs' & Hfn' & Hp').
  split; [congruence|]. split; [congruence|]. split; [|split; [|split]].
  - intros name Hne. rewrite Hf', Hf by exact Hne. reflexivity.
  - intros k Hk. apply not_elem_of_app in Hk as [Hk Hk'].
    rewrite Hs', Hs by assumption. reflexivity.
  - congruence.
  - congruence.
Qed.

Lemma same_but_weaken (ks ks' : list string) (m m' : machine) :
  ks ⊆ ks' -> same_but ks m m' -> same_but ks' m m'.
Proof.
  intros Hsub (Ho & Hpr & Hf & Hs & Hfn). split; [exact Ho|].
  split; [exact Hpr|]. split; [exact Hf|].
  split; [|exact Hfn]. intros k Hk. apply Hs. intros Hin. apply Hk, Hsub, Hin.
Qed.

Lemma state_write_same (k k' : string) (v x : value) (m : machine) :
  get_prop (state_of (this m)) k = Ok v -> defined v = true ->
  exists m',
    state_write k' x m = (m', Ok tt) /\ same_but [k'] m m'.
Proof.
  intros Hget Hdef.
  destruct (set_prop_other _ k k' v x Hget Hdef) as (st' & Hset & Hfn & Hother).
  unfold state_write. rewrite Hset. eexists. split; [reflexivity|].
  assert (state_of (obj_set (this m) "state" st') = st') as Hst.
  { unfold state_of, obj_prop. rewrite obj_get_set_eq. reflexivity. }
  split; [reflexivity|]. split; [reflexivity|]. split; [|split; [|split]].
  - intros name Hne. simpl. apply obj_get_set_ne. congruence.
  - intros k'' Hk. simpl. rewrite Hst. apply Hother.
    intros ->. apply Hk. apply list_elem_of_singleton. reflexivity.
  - simpl. rewrite Hst, Hfn.
    destruct (state_of (this m)); try reflexivity.
    simpl in Hget. injection Hget as <-. discriminate.
  - simpl. apply obj_delete_set.
Qed.

Lemma record_context_same (r : request) (m : machine) :
  routed (this m) ->
  exists m', record_context r m = (m', Ok tt) /\ same_but context_keys m m'.
Proof.
  intros Hr. unfold record_context.
  destruct (state_write_same "router" "websocketRequest" VRouter
              (VBool (match headers_get (req_headers r) "upgrade" with
                      | Some u => String.eqb (toLowerCase u) "websocket"
                      | None => false
                      end)) m Hr eq_refl) as (m1 & Hw1 & Hs1).
  rewrite (bind_ok _ _ _ _ _ Hw1).
  assert (routed (this m1)) as Hr1.
  { unfold routed. destruct Hs1 as (_ & _ & _ & Hs & _). rewrite Hs; [exact Hr|].
    intros Hin. apply list_elem_of_singleton in Hin. discriminate. }
  destruct (state_write_same "router" "request" VRouter (VRequest r) m1 Hr1 eq_refl)
    as (m2 & Hw2 & Hs2).
  rewrite (bind_ok _ _ _ _ _ Hw2).
  assert (same_but context_keys m m2) as H12.
  { eapply same_but_weaken; [|eapply same_but_trans; eassumption].
    intros x Hx. apply elem_of_app in Hx as [Hx|Hx];
      apply list_elem_of_singleton in Hx; subst x; unfold context_keys;
      set_solver. }
  assert (routed (this m2)) as Hr2.
  { unfold routed. destruct Hs2 as (_ & _ & _ & Hs & _). rewrite Hs; [exact Hr1|].
    intros Hin. apply list_elem_of_singleton in Hin. discriminate. }
  destruct (headers_get (req_headers r) "do-name") as [name|].
  - destruct (truthy (VStr name)); simpl.
    + destruct (state_write_same "router" "idFromName" VRouter (VStr name) m2 Hr2 eq_refl)
        as (m3 & Hw3 & Hs3).
      exists m3. split; [exact Hw3|].
      eapply same_but_weaken; [|eapply same_but_trans; eassumption].
      intros x Hx. apply elem_of_app in Hx as [Hx|Hx]; [exact Hx|].
      apply list_elem_of_singleton in Hx. subst x. unfold context_keys. set_solver.
    + exists m2. split; [reflexivity|exact H12].
  - exists m2. split; [reflexivity|exact H12].
Qed.

(** ** A [call] of a missing method *)

Lemma same_but_get (ks : list string) (m m' : machine) (k : string) :
  same_but ks m m' -> k ∉ ks ->
  get_prop (state_of (this m')) k = get_prop (state_of (this m)) k.
Proof. intros (_ & _ & _ & Hs & _) Hk. apply Hs, Hk. Qed.

Lemma same_but_lookup (ks : list string) (m m' : machine) (k : string) :
  same_but ks m m' -> k <> "state" -> lookup m' k = lookup m k.
Proof.
  intros (_ & Hpr & Hf & _) Hne. unfold lookup.
  rewrite Hf, Hpr by exact Hne. reflexivity.
Qed.

Lemma same_but_in_place (ks : list string) (m m' : machine) (k : string) :
  same_but ks m m' -> k <> "state" -> in_place m k -> in_place m' k.
Proof.
  intros Hs Hne H. unfold in_place.
  rewrite (same_but_lookup ks m m' k Hs Hne). exact H.
Qed.

Lemma context_keys_spare (k : string) :
  k = "initialized" \/ k = "router" \/ k = "storage" \/ k = "defaultState" ->
  k ∉ context_keys.
Proof.
  unfold context_keys. intros [-> | [-> | [-> | ->]]] Hin;
    repeat (apply elem_of_cons in Hin as [Hin|Hin]; [discriminate|]);
    apply elem_of_nil in Hin; exact Hin.
Qed.

Lemma same_context_initialized (m m' : machine) :
  same_but context_keys m m' -> initialized (this m) -> initialized (this m').
Proof.
  intros Hs (v & Hv & Ht). exists v. split; [|exact Ht].
  rewrite (same_but_get _ _ _ _ Hs); [exact Hv|]. apply context_keys_spare. auto.
Qed.

Lemma same_context_routed (m m' : machine) :
  same_but context_keys m m' -> routed (this m) -> routed (this m').
Proof.
  intros Hs Hr. unfold routed.
  rewrite (same_but_get _ _ _ _ Hs); [exact Hr|]. apply context_keys_spare. auto.
Qed.


Lemma routed_state (o : obj) :
  routed o -> exists st, obj_get o "state" = Some st /\ is_function st = false.
Proof.
  unfold routed, state_of, obj_prop. destruct (obj_get o "state") as [st|].
  - intros H. exists st. split; [reflexivity|].
    destruct st; try reflexivity. discriminate.
  - discriminate.
Qed.

Lemma same_context_member (proto_has : string -> bool) (m m' : machine)
  (target : string) :
  same_but context_keys m m' -> routed (this m) ->
  is_function (member proto_has m' target)
  = is_function (member proto_has m target).
Proof.
  intros Hs Hr. pose proof (same_context_routed _ _ Hs Hr) as Hr'.
  destruct (decide (target = "state")) as [->|Hne].
  - destruct (routed_state _ Hr) as (st & Hst & Hfn).
    destruct (routed_state _ Hr') as (st' & Hst' & Hfn').
    unfold member, lookup. rewrite Hst, Hst'. congruence.
  - unfold member. rewrite (same_but_lookup _ _ _ _ Hs Hne). reflexivity.
Qed.

Lemma save_default_state_noop
  (JSON_stringify : value -> result (option string))
  (invoke : string -> list value -> machine -> machine * completion)
  (m : machine) :
  initialized (this m) ->
  save_default_state JSON_stringify invoke m = (m, Ok tt).
Proof.
  intros (v & Hv & Ht). unfold save_default_state, bind, state_read.
  rewrite Hv, Ht. reflexivity.
Qed.

Section CallFacts.

Variable autoReturn : bool.
Variable JSON_parse : value -> result value.
Variable proto_has : string -> bool.
Variable invoke : string -> list value -> machine -> machine * completion.


(** The route's handler reads the content before it looks at the action:
    a content that is no JSON makes it raise the error of [JSON.parse]. *)
Lemma router_handle_bad_content (r : request) (action target : string)
  (e : value) (m : machine) :
  req_method r = "GET" -> req_params r = Some (action, target) ->
  JSON_parse (VStr (content_text r)) = Throw e ->
  router_handle autoReturn JSON_parse proto_has invoke r m = (m, Throw e).
Proof.
  intros Hm Hp Hc. unfold router_handle. rewrite Hp, Hm. simpl.
  unfold bind at 1. unfold action_handler.
  unfold bind at 1. unfold lift. rewrite Hc. reflexivity.
Qed.


End CallFacts.

Section FetchFacts.

Variable autoPersist : bool.
Variable autoReturn : bool.
Variable prefix : string.
Variable JSON_stringify : value -> result (option string).
Variable JSON_parse : value -> result value.
Variable superjson_stringify : value -> string.
Variable superjson_parse : string -> result value.
Variable proto_has : string -> bool.
Variable invoke : string -> list value -> machine -> machine * completion.

(** On an instance that has been initialized and whose [loadFromStorage]
    is the method of the class, the [try] block comes down to recording the
    context and answering. *)
Lemma fetch_try_initialized (onError : value -> result value) (r : request)
  (m : machine) :
  initialized (this m) -> routed (this m) -> in_place m "loadFromStorage" ->
  exists m1,
    same_but context_keys m m1
    /\ fetch_try autoPersist autoReturn prefix onError JSON_stringify JSON_parse
         superjson_stringify superjson_parse proto_has invoke r m
       = respond autoPersist autoReturn prefix onError JSON_parse
           superjson_stringify proto_has invoke r m1.
Proof.
  intros Hi Hr Hl. destruct (record_context_same r m Hr) as (m1 & Hrun & Hs).
  exists m1. split; [exact Hs|]. unfold fetch_try.
  rewrite (bind_ok _ _ _ _ _ Hrun).
  pose proof (same_context_initialized _ _ Hs Hi) as Hi1.
  rewrite (bind_ok _ _ _ _ _
             (save_default_state_noop JSON_stringify invoke m1 Hi1)).
  assert (await_method invoke "loadFromStorage"
            (loadFromStorage prefix superjson_parse invoke) m1
          = (m1, Ok tt)) as Hload.
  { rewrite await_method_in_place.
    - apply load_noop. exact Hi1.
    - apply (same_but_in_place _ m m1 _ Hs); [discriminate|exact Hl]. }
  rewrite (bind_ok _ _ _ _ _ Hload).
  reflexivity.
Qed.

(** With a data property in the place of [loadFromStorage], every request
    is answered with 400 and the error of the call. *)
Lemma fetch_without_loadFromStorage (onError : value -> result value)
  (r : request) (m : machine) (v : value) :
  initialized (this m) -> routed (this m) ->
  lookup m "loadFromStorage" = Some v -> is_function v = false ->
  exists m1,
    same_but context_keys m m1
    /\ fetch autoPersist autoReturn prefix onError JSON_stringify JSON_parse
         superjson_stringify superjson_parse proto_has invoke r m
       = (log m1 (TypeError "this.loadFromStorage is not a function"),
          Fulfilled
            (VResponse 400
               (Some (TypeError "this.loadFromStorage is not a function")))).
Proof.
  intros Hi Hr Hl Hv. destruct (record_context_same r m Hr) as (m1 & Hrun & Hs).
  exists m1. split; [exact Hs|]. unfold fetch, fetch_try.
  rewrite (bind_ok _ _ _ _ _ Hrun).
  pose proof (same_context_initialized _ _ Hs Hi) as Hi1.
  rewrite (bind_ok _ _ _ _ _
             (save_default_state_noop JSON_stringify invoke m1 Hi1)).
  assert (lookup m1 "loadFromStorage" = Some v) as Hl1.
  { rewrite (same_but_lookup _ m m1 _ Hs); [exact Hl|discriminate]. }
  rewrite (bind_throw _ _ _ _ _
             (await_method_shadowed invoke "loadFromStorage" _ m1 v Hl1 Hv)).
  reflexivity.
Qed.


End FetchFacts.


(** ** Properties of the internal namespace that a request keeps *)

Lemma set_prop_keeps (st st' : value) (k k' : string) (x : value) :
  k' <> k -> set_prop st k' x = Ok st' -> get_prop st' k = get_prop st k.
Proof.
  intros Hne Hset. destruct st; simpl in Hset; try discriminate;
    injection Hset as <-; try reflexivity;
    simpl; unfold obj_prop; rewrite obj_get_set_ne by exact Hne; reflexivity.
Qed.

Section Invariant.

Variable key : string.
Variable Q : value -> Prop.

Local Abbreviation inv := (holds key Q).

Lemma preserves_ret {A} (a : A) : preserves inv (ret a).
Proof. intros m H. exact H. Qed.

Lemma preserves_throw {A} (e : value) : preserves inv (@throw A e).
Proof. intros m H. exact H. Qed.

Lemma preserves_lift {A} (r : result A) : preserves inv (lift r).
Proof. intros m H. exact H. Qed.

Lemma preserves_bind {A B} (c : M A) (k : A -> M B) :
  preserves inv c -> (forall a, preserves inv (k a)) ->
  preserves inv (bind c k).
Proof.
  intros Hc Hk m H. unfold bind. specialize (Hc m H).
  destruct (c m) as [m' [a|e]]; simpl in *.
  - apply Hk. exact Hc.
  - exact Hc.
Qed.

Lemma preserves_when (b : bool) (c : M unit) :
  preserves inv c -> preserves inv (when b c).
Proof. intros Hc. destruct b; [exact Hc|apply preserves_ret]. Qed.

Lemma preserves_for_each {A} (f : A -> M unit) (l : list A) :
  (forall a, preserves inv (f a)) -> preserves inv (for_each f l).
Proof.
  intros Hf. induction l as [|a l IH]; simpl.
  - apply preserves_ret.
  - apply preserves_bind; [apply Hf|intros _; exact IH].
Qed.

Lemma preserves_state_write (k : string) (x : value) :
  k <> key -> preserves inv (state_write k x).
Proof.
  intros Hne m (v & Hv & Ht). unfold state_write.
  destruct (set_prop (state_of (this m)) k x) as [st'|e] eqn:E; simpl.
  - exists v. split; [|exact Ht].
    unfold state_of at 1, obj_prop. rewrite obj_get_set_eq. simpl.
    rewrite (set_prop_keeps _ _ _ _ _ Hne E). exact Hv.
  - exists v. auto.
Qed.

Lemma preserves_state_read (k : string) : preserves inv (state_read k).
Proof. intros m H. exact H. Qed.

Lemma preserves_storage_put (k v : string) : preserves inv (storage_put k v).
Proof.
  unfold storage_put, storage_handle.
  apply preserves_bind.
  - apply preserves_bind; [apply preserves_state_read|].
    intros st. destruct st; first [apply preserves_ret|apply preserves_throw].
  - intros _ m H. exact H.
Qed.

Lemma preserves_assign (k : string) (v : value) :
  k <> "state" -> preserves inv (assign k v).
Proof.
  intros Hne m (x & Hx & Ht). unfold assign.
  destruct (String.eqb k "__proto__" && reaches_accessor m)%bool; simpl.
  - exists x. split; [|exact Ht]. destruct v; exact Hx.
  - exists x. split; [|exact Ht].
    unfold state_of, obj_prop. rewrite obj_get_set_ne by exact Hne. exact Hx.
Qed.

Lemma preserves_record_context (r : request) :
  key ∉ context_keys -> preserves inv (record_context r).
Proof.
  intros Hk. unfold record_context.
  assert (forall k, k ∈ context_keys -> k <> key) as Hne
    by (intros k Hin ->; contradiction).
  apply preserves_bind;
    [apply preserves_state_write, Hne; unfold context_keys; set_solver
    |intros _].
  apply preserves_bind;
    [apply preserves_state_write, Hne; unfold context_keys; set_solver
    |intros _].
  destruct (headers_get (req_headers r) "do-name");
    [apply preserves_when, preserves_state_write, Hne;
     unfold context_keys; set_solver
    |apply preserves_ret].
Qed.

End Invariant.

Lemma preserves_noop {A} (c : M A) (a : A) :
  (forall m, initialized (this m) -> c m = (m, Ok a)) ->
  preserves initialized c.
Proof. intros Hc m H. rewrite Hc by exact H. exact H. Qed.
Section Permanence.

Variable autoPersist : bool.
Variable autoReturn : bool.
Variable prefix : string.
Variable onError : value -> result value.
Variable JSON_stringify : value -> result (option string).
Variable JSON_parse : value -> result value.
Variable superjson_stringify : value -> string.
Variable superjson_parse : string -> result value.
Variable proto_has : string -> bool.
Variable invoke : string -> list value -> machine -> machine * completion.

Variable key : string.
Variable Q : value -> Prop.

Local Abbreviation inv := (holds key Q).

Hypothesis invoke_keeps : keeps inv invoke.

Lemma call_member_keeps (k : string) (args : list value) (m : machine) :
  inv (this m) -> inv (this (call_member proto_has invoke k args m).1).
Proof.
  intros H. unfold call_member.
  destruct (member proto_has m k); try exact H.
  apply invoke_keeps. exact H.
Qed.

Lemma send_keeps (k : string) (args : list value)
  (definition : machine -> machine * completion) (m : machine) :
  (forall m, inv (this m) -> inv (this (definition m).1)) ->
  inv (this m) -> inv (this (send invoke k args definition m).1).
Proof.
  intros Hd H. unfold send. destruct (lookup m k) as [[]|]; try exact H.
  - apply invoke_keeps. exact H.
  - apply Hd. exact H.
Qed.

Lemma preserves_await_method (k : string) (body : M unit) :
  preserves inv body -> preserves inv (await_method invoke k body).
Proof.
  intros Hb. unfold await_method.
  apply preserves_bind; [|intros _; apply preserves_ret].
  intros m H. unfold awaited.
  pose proof (send_keeps k [] (async (body ;; ret VUndefined)) m) as Hs.
  destruct (send invoke k [] _ m) as [m' c]. apply Hs; [|exact H].
  intros m0 H0. unfold async.
  pose proof (preserves_bind key Q body (fun _ => ret VUndefined) Hb
                (fun _ => preserves_ret key Q VUndefined) m0 H0) as Hb'.
  destruct ((body ;; ret VUndefined) m0) as [m1 [v|e]]; exact Hb'.
Qed.

Lemma preserves_call_getPersistable :
  preserves inv (call_getPersistable invoke).
Proof.
  intros m H. unfold call_getPersistable.
  pose proof (send_keeps "getPersistable" []
                (fun m => (m, Returned (VObj (getPersistable (this m))))) m
                (fun _ H0 => H0) H) as Hs.
  destruct (send invoke "getPersistable" [] _ m) as [m' c]. exact Hs.
Qed.

Lemma preserves_persist (stringify : value -> string) :
  preserves inv (persist prefix stringify invoke).
Proof.
  unfold persist.
  apply preserves_bind; [apply preserves_call_getPersistable|intros fields].
  apply preserves_bind; [apply preserves_lift|intros persistable].
  apply preserves_for_each. intros name.
  destruct (String.prefix "$" name);
    [apply preserves_ret|apply preserves_storage_put].
Qed.

Lemma preserves_awaited_call (k : string) (args : list value) :
  preserves inv (awaited (call_member proto_has invoke k args)).
Proof.
  intros m H. unfold awaited.
  pose proof (call_member_keeps k args m H) as H'.
  destruct (call_member proto_has invoke k args m). exact H'.
Qed.

Lemma preserves_action_handler (r : request) (action target : string) :
  ~ (action = "set" /\ target = "state") ->
  preserves inv (action_handler JSON_parse proto_has invoke r action target).
Proof.
  intros Hnot. unfold action_handler.
  apply preserves_bind; [apply preserves_lift|intros content].
  destruct (String.eqb_spec action "call") as [_|_].
  { apply preserves_bind; [intros m H; exact H|intros f].
    destruct (negb _); [apply preserves_throw|].
    apply preserves_bind; [apply preserves_lift|intros args].
    apply preserves_bind; [apply preserves_awaited_call|intros response].
    apply preserves_ret. }
  destruct (String.eqb_spec action "set") as [Hset|_].
  { apply preserves_bind; [|intros _; apply preserves_ret].
    apply preserves_assign. intros ->. apply Hnot. auto. }
  destruct (String.eqb action "get-prop").
  - apply preserves_bind; [intros m H; exact H|intros v].
    apply preserves_ret.
  - apply preserves_ret.
Qed.

Lemma preserves_optionallyReturnThis :
  preserves inv (optionallyReturnThis autoReturn invoke).
Proof.
  unfold optionallyReturnThis. destruct autoReturn; [|apply preserves_ret].
  intros m H. destruct (truthy _); [|exact H].
  pose proof (send_keeps "toJSON" []
                (fun m => (m, Returned (VObj (toJSON (this m))))) m
                (fun _ H0 => H0) H) as Hs.
  destruct (send invoke "toJSON" [] _ m) as [m' c]. exact Hs.
Qed.

Lemma preserves_router_handle (r : request) :
  ~ sets_state r ->
  preserves inv (router_handle autoReturn JSON_parse proto_has invoke r).
Proof.
  intros Hnot. unfold router_handle.
  destruct (req_params r) as [[action target]|] eqn:Hp; [|apply preserves_ret].
  destruct (String.eqb_spec (req_method r) "GET") as [Hm|_];
    [|apply preserves_ret].
  apply preserves_bind.
  - apply preserves_action_handler. intros [-> ->]. apply Hnot. split; auto.
  - intros first. destruct (defined first); [apply preserves_ret|].
    apply preserves_bind; [apply preserves_optionallyReturnThis|intros second].
    destruct (defined second); apply preserves_ret.
Qed.

Lemma preserves_dispatch (r : request) :
  ~ sets_state r ->
  preserves inv (dispatch autoReturn onError JSON_parse proto_has invoke r).
Proof.
  intros Hnot. unfold dispatch.
  apply preserves_bind; [apply preserves_state_read|intros router].
  destruct router; try apply preserves_throw.
  intros m H. pose proof (preserves_router_handle r Hnot m H) as H'.
  destruct (router_handle _ _ _ _ r m) as [m' [v|e]]; exact H'.
Qed.

Lemma preserves_respond (r : request) :
  ~ sets_state r ->
  preserves inv (respond autoPersist autoReturn prefix onError JSON_parse
                   superjson_stringify proto_has invoke r).
Proof.
  intros Hnot. unfold respond.
  apply preserves_bind; [apply preserves_dispatch; exact Hnot|intros response].
  apply preserves_bind; [intros m H; exact H|intros fallback].
  destruct (negb (truthy response) && truthy fallback)%bool.
  - intros m H. pose proof (call_member_keeps "fetchFallback" [] m H) as H'.
    destruct (call_member _ _ _ _ m) as [m' []]; exact H'.
  - apply preserves_bind;
      [apply preserves_when, preserves_await_method, preserves_persist
      |intros _].
    destruct (truthy response); [apply preserves_ret|apply preserves_throw].
Qed.

End Permanence.

Section Flag.

Variable autoPersist : bool.
Variable autoReturn : bool.
Variable prefix : string.
Variable onError : value -> result value.
Variable JSON_stringify : value -> result (option string).
Variable JSON_parse : value -> result value.
Variable superjson_stringify : value -> string.
Variable superjson_parse : string -> result value.
Variable proto_has : string -> bool.
Variable invoke : string -> list value -> machine -> machine * completion.

Lemma fetch_after_try (r : request) (m : machine) :
  this (fetch autoPersist autoReturn prefix onError JSON_stringify JSON_parse
          superjson_stringify superjson_parse proto_has invoke r m).1
  = this (fetch_try autoPersist autoReturn prefix onError JSON_stringify
            JSON_parse superjson_stringify superjson_parse proto_has invoke
            r m).1.
Proof.
  unfold fetch.
  destruct (fetch_try _ _ _ _ _ _ _ _ _ _ r m) as [m' [[e|v|p]|e]];
    reflexivity.
Qed.

Hypothesis invoke_keeps : keeps_initialized invoke.

Lemma fetch_keeps_initialized (r : request) (m : machine) :
  ~ sets_state r -> initialized (this m) ->
  initialized
    (this (fetch autoPersist autoReturn prefix onError JSON_stringify JSON_parse
             superjson_stringify superjson_parse proto_has invoke r m).1).
Proof.
  intros Hnot H. rewrite fetch_after_try.
  assert (preserves initialized
            (fetch_try autoPersist autoReturn prefix onError
               JSON_stringify JSON_parse superjson_stringify
               superjson_parse proto_has invoke r)) as Htry.
  { unfold fetch_try.
    apply (preserves_bind "initialized" (fun v => truthy v = true)).
    { apply (preserves_record_context "initialized" (fun v => truthy v = true)).
      apply (bool_decide_unpack _). reflexivity. }
    intros _.
    apply (preserves_bind "initialized" (fun v => truthy v = true));
      [apply (preserves_noop _ tt), save_default_state_noop|intros _].
    apply (preserves_bind "initialized" (fun v => truthy v = true)).
    { apply (preserves_await_method invoke "initialized"
               (fun v => truthy v = true) invoke_keeps).
      apply (preserves_noop _ tt), load_noop. }
    intros _.
    apply (preserves_respond autoPersist autoReturn prefix onError JSON_parse
             superjson_stringify proto_has invoke "initialized"
             (fun v => truthy v = true) invoke_keeps r Hnot). }
  exact (Htry m H).
Qed.

End Flag.

Lemma obj_get_rev_None (o : obj) (k : string) :
  obj_get o k = None -> obj_get (rev o) k = None.
Proof.
  rewrite !obj_get_None_keys. unfold obj_keys.
  rewrite map_rev. intros H Hin. apply H.
  apply list_elem_of_In in Hin. apply in_rev in Hin.
  apply list_elem_of_In. exact Hin.
Qed.

Lemma obj_get_assign_None (o src : obj) (k : string) :
  obj_get src k = None -> obj_get (obj_assign o src) k = obj_get o k.
Proof.
  intros H. rewrite obj_get_assign, (obj_get_rev_None _ _ H). reflexivity.
Qed.

Lemma embed_bindings_keeps (entries st st' : obj) (k : string) :
  embed_bindings entries st = Ok st' -> obj_get entries k = None ->
  obj_get st' k = obj_get st k.
Proof.
  revert st. induction entries as [|[key binding] entries IH]; intros st Hrun Hk.
  - injection Hrun as <-. reflexivity.
  - simpl in Hrun, Hk.
    destruct (String.eqb_spec key k) as [->|Hne]; [discriminate|].
    destruct (get_prop binding "idFromName") as [f|e]; [|discriminate].
    rewrite (IH _ Hrun Hk). apply obj_get_set_ne. exact Hne.
Qed.

Lemma constructor_uninitialized (state env o : obj) :
  constructor state env = Ok o ->
  obj_get env "initialized" = None -> obj_get state "initialized" = None ->
  get_prop (state_of o) "initialized" = Ok (VBool false).
Proof.
  intros Hc He Hs. unfold constructor in Hc.
  destruct (embed_bindings env _) as [st|e] eqn:Hemb; [|discriminate].
  destruct (obj_prop st "router"); try discriminate.
  injection Hc as <-. simpl. unfold obj_prop.
  rewrite (embed_bindings_keeps _ _ _ _ Hemb He).
  rewrite !obj_get_assign_None by assumption. reflexivity.
Qed.

(** ** The first request *)

Lemma routed_records (o : obj) : routed o -> records (state_of o) = true.
Proof.
  unfold routed. destruct (state_of o); simpl; try discriminate; reflexivity.
Qed.

(** A write to an internal namespace that keeps its properties. *)
Lemma state_write_records (k : string) (x : value) (m : machine) :
  records (state_of (this m)) = true ->
  exists m',
    state_write k x m = (m', Ok tt)
    /\ same_but [k] m m'
    /\ get_prop (state_of (this m')) k = Ok x
    /\ records (state_of (this m')) = true.
Proof.
  intros Hrec. unfold state_write.
  assert (exists st',
            set_prop (state_of (this m)) k x = Ok st'
            /\ records st' = true
            /\ is_function st' = false
            /\ get_prop st' k = Ok x
            /\ forall k', k' <> k ->
                          get_prop st' k' = get_prop (state_of (this m)) k')
    as (st' & Hset & Hrec' & Hfn & Hget & Hother).
  { destruct (state_of (this m)); try discriminate; simpl;
      eexists; (split; [reflexivity|]); (split; [reflexivity|]);
      (split; [reflexivity|]); simpl; unfold obj_prop;
      (split; [rewrite obj_get_set_eq; reflexivity|]);
      intros k' Hne; rewrite obj_get_set_ne by congruence; reflexivity. }
  rewrite Hset. eexists. split; [reflexivity|].
  assert (state_of (obj_set (this m) "state" st') = st') as Hst.
  { unfold state_of, obj_prop. rewrite obj_get_set_eq. reflexivity. }
  simpl. rewrite Hst. split; [|split; [exact Hget|exact Hrec']].
  split; [reflexivity|]. split; [reflexivity|]. split; [|split; [|split]].
  - intros name Hne. simpl. apply obj_get_set_ne. congruence.
  - intros k' Hk. simpl. rewrite Hst. apply Hother.
    intros ->. apply Hk. apply list_elem_of_singleton. reflexivity.
  - simpl. rewrite Hst, Hfn.
    destruct (state_of (this m)); try discriminate; reflexivity.
  - simpl. apply obj_delete_set.
Qed.

Lemma same_but_uninitialized (ks : list string) (m m' : machine) :
  same_but ks m m' -> "initialized" ∉ ks ->
  uninitialized (this m) -> uninitialized (this m').
Proof.
  intros Hs Hk (v & Hv & Ht). exists v. split; [|exact Ht].
  rewrite (same_but_get _ _ _ _ Hs Hk). exact Hv.
Qed.

Lemma same_but_routed (ks : list string) (m m' : machine) :
  same_but ks m m' -> "router" ∉ ks -> routed (this m) -> routed (this m').
Proof.
  intros Hs Hk H. unfold routed. rewrite (same_but_get _ _ _ _ Hs Hk). exact H.
Qed.

Lemma same_but_storage (ks : list string) (m m' : machine) :
  same_but ks m m' -> "storage" ∉ ks ->
  storage_ok (this m) -> storage_ok (this m').
Proof.
  intros Hs Hk H. unfold storage_ok.
  rewrite (same_but_get _ _ _ _ Hs Hk). exact H.
Qed.

Section FirstLoad.

Variable prefix : string.
Variable JSON_stringify : value -> result (option string).
Variable superjson_parse : string -> result value.
Variable invoke : string -> list value -> machine -> machine * completion.

(** The snapshot of the first request: the text of the persistable fields
    as they are when the request arrives. *)
Lemma save_default_state_run (m : machine) (text : option string) :
  uninitialized (this m) -> routed (this m) -> in_place m "getPersistable" ->
  JSON_stringify (VObj (getPersistable (this m))) = Ok text ->
  exists m',
    save_default_state JSON_stringify invoke m = (m', Ok tt)
    /\ same_but ["defaultState"] m m'
    /\ get_prop (state_of (this m')) "defaultState"
       = Ok (match text with Some s => VStr s | None => VUndefined end).
Proof.
  intros (v & Hv & Ht) Hr Hp Htext.
  unfold save_default_state. unfold bind at 1. unfold state_read.
  rewrite Hv, Ht. cbn [negb when].
  unfold bind at 1. rewrite call_getPersistable_in_place by exact Hp.
  unfold bind at 1. unfold lift. rewrite Htext.
  destruct (state_write_records "defaultState"
              (match text with Some s => VStr s | None => VUndefined end) m
              (routed_records _ Hr)) as (m' & Hw & Hs & Hget & _).
  exists m'. auto.
Qed.

(** A load that finds the hook of the class in its place and an internal
    namespace that keeps its properties completes and sets the flag. *)
Lemma load_completes (m : machine) (stateObj : obj) :
  uninitialized (this m) -> storage_ok (this m) ->
  decode_entries prefix superjson_parse
    (store_list (store (outside m)) prefix 100) [] = Ok stateObj ->
  in_place (with_this m (obj_assign (this m) stateObj)) "onLoad" ->
  records (state_of (obj_assign (this m) stateObj)) = true ->
  exists m',
    loadFromStorage prefix superjson_parse invoke m = (m', Ok tt)
    /\ initialized (this m')
    /\ same_but ["initialized"] (with_this m (obj_assign (this m) stateObj)) m'.
Proof.
  intros Hun Hok Hdec Hin Hrec.
  rewrite (load_run prefix superjson_parse invoke m stateObj Hun Hok Hdec Hin).
  destruct (state_write_records "initialized" (VBool true)
              (with_this m (obj_assign (this m) stateObj)) Hrec)
    as (m' & Hw & Hs & Hget & _).
  exists m'. split; [exact Hw|]. split; [|exact Hs].
  exists (VBool true). split; [exact Hget|reflexivity].
Qed.

(** What the listed entries of a store the load gets through decode to. *)
Lemma loads_cleanly_decodes (s : gmap string string) (o : obj) :
  loads_cleanly prefix superjson_parse s ->
  records (state_of o) = true ->
  exists stateObj,
    decode_entries prefix superjson_parse (store_list s prefix 100) []
    = Ok stateObj
    /\ (forall k, s !! (prefix ++ k) = None -> obj_get stateObj k = None)
    /\ records (state_of (obj_assign o stateObj)) = true.
Proof.
  intros (Hdec & Hnone & Hstate) Hrec.
  destruct (decode_entries_total prefix superjson_parse
              (store_list s prefix 100) []) as [stateObj Hrun].
  { intros key text Hin. apply store_list_sub in Hin as [Hget Hp]. eauto. }
  assert (forall k v, obj_get stateObj k = Some v ->
            exists text, s !! (prefix ++ k) = Some text
                         /\ superjson_parse text = Ok v) as Horigin.
  { intros k v Hv.
    destruct (decode_entries_origin prefix superjson_parse _ _ _ _ _ Hrun Hv)
      as [H|(key & text & Hin & Htr & Hparse)]; [discriminate|].
    apply store_list_sub in Hin as [Hget Hp].
    unfold truncated in Htr. rewrite Hp in Htr.
    rewrite (prefix_slice _ _ Hp), Htr in Hget. eauto. }
  exists stateObj. split; [exact Hrun|]. split.
  - intros k Hk. destruct (obj_get stateObj k) as [v|] eqn:Hv; [|reflexivity].
    destruct (Horigin _ _ Hv) as (text & Hget & _). congruence.
  - assert (NoDup (obj_keys stateObj)) as Hnd.
    { eapply decode_entries_NoDup; [|exact Hrun]. apply NoDup_nil_2. }
    unfold state_of, obj_prop.
    rewrite obj_get_assign, (obj_get_rev_unique _ _ Hnd).
    destruct (obj_get stateObj "state") as [v|] eqn:Hv; [|exact Hrec].
    destruct (Horigin _ _ Hv) as (text & Hget & Hparse).
    simpl. eapply Hstate; eassumption.
Qed.

End FirstLoad.

Lemma outside_key (k : string) (ks : list string) :
  bool_decide (k ∉ ks) = true -> k ∉ ks.
Proof. apply bool_decide_eq_true_1. Qed.

Lemma constructed_unserved (state env o : obj) (w : world) :
  constructor state env = Ok o ->
  obj_get env "initialized" = None -> obj_get state "initialized" = None ->
  storage_ok o -> unserved (Machine o w).
Proof.
  intros Hc He Hs Hok.
  pose proof (constructor_uninitialized _ _ _ Hc He Hs) as Hfalse.
  destruct (constructor_shape _ _ _ Hc) as (st & -> & Hrouter).
  split; [exists (VBool false); split; [exact Hfalse|reflexivity]|].
  split; [unfold routed; simpl; rewrite Hrouter; reflexivity|].
  split; [exact Hok|]. repeat split.
Qed.

Section FirstRequest.

Variable autoPersist : bool.
Variable autoReturn : bool.
Variable prefix : string.
Variable onError : value -> result value.
Variable JSON_stringify : value -> result (option string).
Variable JSON_parse : value -> result value.
Variable superjson_stringify : value -> string.
Variable superjson_parse : string -> result value.
Variable proto_has : string -> bool.
Variable invoke : string -> list value -> machine -> machine * completion.

(** The [try] block of the first request, up to the answer: the context is
    recorded, the snapshot taken, and the load has run. *)
Lemma fetch_try_first (r : request) (m : machine) (text : option string) :
  unserved m -> loads_cleanly prefix superjson_parse (store (outside m)) ->
  JSON_stringify (VObj (getPersistable (this m))) = Ok text ->
  exists m2 m3 stateObj,
    same_but (context_keys ++ ["defaultState"]) m m2
    /\ get_prop (state_of (this m2)) "defaultState"
       = Ok (match text with Some s => VStr s | None => VUndefined end)
    /\ decode_entries prefix superjson_parse
         (store_list (store (outside m)) prefix 100) [] = Ok stateObj
    /\ (forall k, store (outside m) !! (prefix ++ k) = None ->
                  obj_get stateObj k = None)
    /\ loadFromStorage prefix superjson_parse invoke m2 = (m3, Ok tt)
    /\ initialized (this m3)
    /\ same_but ["initialized"]
         (with_this m2 (obj_assign (this m2) stateObj)) m3
    /\ fetch_try autoPersist autoReturn prefix onError JSON_stringify
         JSON_parse superjson_stringify superjson_parse proto_has invoke r m
       = respond autoPersist autoReturn prefix onError JSON_parse
           superjson_stringify proto_has invoke r m3.
Proof.
  intros (Hun & Hr & Hok & Hpg & Hpl & Hpo) Hclean Htext.
  destruct (record_context_same r m Hr) as (m1 & Hrun1 & Hs1).
  assert (JSON_stringify (VObj (getPersistable (this m1))) = Ok text) as Htext1.
  { destruct Hs1 as (_ & _ & _ & _ & _ & Hp). rewrite Hp. exact Htext. }
  destruct (save_default_state_run JSON_stringify invoke m1 text)
    as (m2 & Hrun2 & Hs2 & Hd2); try assumption.
  { apply (same_but_uninitialized _ m m1 Hs1); [|exact Hun].
    apply outside_key. reflexivity. }
  { apply (same_context_routed _ _ Hs1 Hr). }
  { apply (same_but_in_place _ m m1 _ Hs1); [discriminate|exact Hpg]. }
  pose proof (same_but_trans _ _ _ _ _ Hs1 Hs2) as Hs.
  assert (uninitialized (this m2)) as Hun2.
  { apply (same_but_uninitialized _ m m2 Hs); [|exact Hun].
    apply outside_key. reflexivity. }
  assert (routed (this m2)) as Hr2.
  { apply (same_but_routed _ m m2 Hs); [|exact Hr].
    apply outside_key. reflexivity. }
  assert (storage_ok (this m2)) as Hok2.
  { apply (same_but_storage _ m m2 Hs); [|exact Hok].
    apply outside_key. reflexivity. }
  assert (outside m2 = outside m) as Hout by apply Hs.
  destruct (loads_cleanly_decodes prefix superjson_parse (store (outside m))
              (this m2) Hclean (routed_records _ Hr2))
    as (stateObj & Hdec & Habsent & Hrec).
  assert (obj_get stateObj "onLoad" = None) as Hhook
    by (apply Habsent, Hclean).
  assert (in_place (with_this m2 (obj_assign (this m2) stateObj)) "onLoad")
    as Hpo2.
  { apply in_place_own.
    apply (same_but_in_place _ m m2 _ Hs) in Hpo; [|discriminate].
    apply in_place_own in Hpo as [Hown Hproto]. simpl. split; [|exact Hproto].
    rewrite obj_get_assign_None by exact Hhook. exact Hown. }
  destruct (load_completes prefix superjson_parse invoke m2 stateObj)
    as (m3 & Hrun3 & Hi3 & Hs3); try assumption.
  { rewrite Hout. exact Hdec. }
  exists m2, m3, stateObj. split; [exact Hs|]. split; [exact Hd2|].
  split; [exact Hdec|]. split; [exact Habsent|].
  split; [exact Hrun3|]. split; [exact Hi3|].
  split; [exact Hs3|].
  unfold fetch_try.
  rewrite (bind_ok _ _ _ _ _ Hrun1), (bind_ok _ _ _ _ _ Hrun2).
  assert (await_method invoke "loadFromStorage"
            (loadFromStorage prefix superjson_parse invoke) m2 = (m3, Ok tt))
    as Hload.
  { rewrite await_method_in_place; [exact Hrun3|].
    apply (same_but_in_place _ m m2 _ Hs); [discriminate|exact Hpl]. }
  rewrite (bind_ok _ _ _ _ _ Hload). reflexivity.
Qed.

Hypothesis invoke_keeps : keeps_initialized invoke.

(** The first request loads: it leaves the flag set. *)
Lemma fetch_loads (r : request) (m : machine) (text : option string) :
  unserved m -> loads_cleanly prefix superjson_parse (store (outside m)) ->
  JSON_stringify (VObj (getPersistable (this m))) = Ok text ->
  ~ sets_state r ->
  initialized
    (this (fetch autoPersist autoReturn prefix onError JSON_stringify JSON_parse
             superjson_stringify superjson_parse proto_has invoke r m).1).
Proof.
  intros Hun Hclean Htext Hnot.
  destruct (fetch_try_first r m text Hun Hclean Htext)
    as (m2 & m3 & stateObj & _ & _ & _ & _ & _ & Hi3 & _ & Htry).
  rewrite fetch_after_try, Htry.
  apply (preserves_respond autoPersist autoReturn prefix onError JSON_parse
           superjson_stringify proto_has invoke "initialized"
           (fun v => truthy v = true) invoke_keeps r Hnot m3 Hi3).
Qed.

End FirstRequest.

(** C6, as amended.  An instance built from an environment and a platform
    state that do not define [initialized] themselves starts with the flag
    [false], and is ready for its first request when the platform state
    brings the storage.  The first request loads and leaves the flag set:
    that is so on every instance whose flag is not set, whose
    [getPersistable], [loadFromStorage] and [onLoad] are the methods of the
    class, whose snapshot [JSON.stringify] can write, and whose store the
    load gets through.  From then on every request leaves the flag set.
    Both hold for every request other than a [set] of the own property
    [state], as long as the functions that are invoked leave the flag
    alone.  And [loadFromStorage] on an initialized instance returns at
    once, the instance and the store as they were. *)
Theorem initialized_flag_lifecycle
  (autoPersist autoReturn : bool) (prefix : string)
  (onError : value -> result value)
  (JSON_stringify : value -> result (option string))
  (JSON_parse : value -> result value)
  (superjson_stringify : value -> string)
  (superjson_parse : string -> result value)
  (proto_has : string -> bool)
  (invoke : string -> list value -> machine -> machine * completion)
  (state env o : obj) :
  constructor state env = Ok o ->
  obj_get env "initialized" = None -> obj_get state "initialized" = None ->
  keeps_initialized invoke ->
  get_prop (state_of o) "initialized" = Ok (VBool false)
  /\ (forall w, storage_ok o -> unserved (Machine o w))
  /\ (forall r m text,
        unserved m ->
        loads_cleanly prefix superjson_parse (store (outside m)) ->
        JSON_stringify (VObj (getPersistable (this m))) = Ok text ->
        ~ sets_state r ->
        initialized
          (this (fetch autoPersist autoReturn prefix onError JSON_stringify
                   JSON_parse superjson_stringify superjson_parse proto_has
                   invoke r m).1))
  /\ (forall r m,
        ~ sets_state r -> initialized (this m) ->
        initialized
          (this (fetch autoPersist autoReturn prefix onError JSON_stringify
                   JSON_parse superjson_stringify superjson_parse proto_has
                   invoke r m).1))
  /\ (forall m,
        initialized (this m) ->
        loadFromStorage prefix superjson_parse invoke m = (m, Ok tt)).
Proof.
  intros Hc He Hs Hkeeps.
  split; [exact (constructor_uninitialized _ _ _ Hc He Hs)|].
  split; [intros w Hok; exact (constructed_unserved _ _ _ w Hc He Hs Hok)|].
  split; [|split].
  - intros r m text Hun Hclean Htext Hnot.
    apply (fetch_loads autoPersist autoReturn prefix onError JSON_stringify
             JSON_parse superjson_stringify superjson_parse proto_has invoke
             Hkeeps r m text); assumption.
  - intros r m Hnot Hi. apply fetch_keeps_initialized; assumption.
  - intros m Hi. apply load_noop. exact Hi.
Qed.

Lemma no_call_keeps : keeps_initialized Sample.no_call.
Proof. intros f args m H. exact H. Qed.

Lemma counted_loads_cleanly :
  loads_cleanly "_itty:" Fragment.superjson_parse
    (store Sample.counted).
Proof.
  split; [|split].
  - intros key text Hget _. simpl in Hget.
    apply lookup_insert_Some in Hget as [[_ <-]|[_ Hget]].
    + eexists. vm_compute. reflexivity.
    + rewrite lookup_empty in Hget. discriminate.
  - reflexivity.
  - intros text v Hget. vm_compute in Hget. discriminate.
Qed.

Lemma initialized_flag_lifecycle_witness :
  initialized
    (this (Sample.run_fetch false Sample.plain Sample.no_call
             Sample.call_increment
             (Sample.run_fetch false Sample.plain Sample.no_call
                Sample.call_increment
                (Machine Sample.newborn Sample.counted)).1).1).
Proof.
  destruct (initialized_flag_lifecycle false false "_itty:" default_onError
              Fragment.JSON_stringify Fragment.JSON_parse
              Fragment.superjson_stringify Fragment.superjson_parse
              Sample.plain Sample.no_call Sample.platform [] Sample.newborn
              eq_refl eq_refl eq_refl no_call_keeps)
    as (_ & Hready & Hfirst & Hkeep & _).
  apply Hkeep; [intros [_ Hp]; discriminate|].
  apply (Hfirst Sample.call_increment (Machine Sample.newborn Sample.counted)
           (Fragment.JSON_text (VObj (getPersistable Sample.newborn)))).
  - apply Hready. left. reflexivity.
  - exact counted_loads_cleanly.
  - reflexivity.
  - intros [_ Hp]. discriminate.
Defined.

(** C6 fails as stated: a [set] of the own property [state] replaces the
    internal namespace, and the flag with it. *)
Lemma set_of_state_clears_initialized : ~ initialized_is_permanent.
Proof.
  intros H.
  specialize (H false false "_itty:" default_onError
                Fragment.JSON_stringify Fragment.JSON_parse
                Fragment.superjson_stringify Fragment.superjson_parse
                Sample.plain Sample.no_call Sample.set_state Sample.loaded
                no_call_keeps).
  destruct H as (v & Hv & Ht).
  - exists (VBool true). split; reflexivity.
  - vm_compute in Hv. injection Hv as <-. discriminate.
Qed.
(** ** [reset] *)

(** What [Object.assign(this, src)] leaves: the own properties are those of
    the plain assignment, but for the name [__proto__], and the world is as
    it was. *)
Lemma Object_assign_fields (src : obj) (m : machine) :
  exists m',
    Object_assign src m = (m', Ok tt)
    /\ outside m' = outside m
    /\ forall name, name <> "__proto__" ->
                    obj_get (this m') name
                    = obj_get (obj_assign (this m) src) name.
Proof.
  unfold Object_assign. revert m.
  induction src as [|[k v] src IH]; intros m; cbn [for_each].
  - exists m. split; [reflexivity|]. split; reflexivity.
  - unfold bind at 1. unfold assign. cbn [fst snd].
    destruct (String.eqb_spec k "__proto__") as [->|Hne]; cbn [andb].
    + destruct (reaches_accessor m).
      * set (m1 := match v with
                   | VUndefined | VBool _ | VNum _ | VStr _ => m
                   | _ => with_proto m v
                   end).
        assert (this m1 = this m /\ outside m1 = outside m) as [Ht Ho]
          by (unfold m1; destruct v; split; reflexivity).
        destruct (IH m1) as (m' & Hrun & Hout & Hf).
        exists m'. split; [exact Hrun|]. split; [congruence|].
        intros name Hn. rewrite (Hf name Hn), Ht.
        unfold obj_assign. cbn [fold_left fst snd].
        fold (obj_assign (this m) src).
        fold (obj_assign (obj_set (this m) "__proto__" v) src).
        rewrite !obj_get_assign.
        destruct (obj_get (rev src) name); [reflexivity|].
        rewrite obj_get_set_ne by congruence. reflexivity.
      * destruct (IH (with_this m (obj_set (this m) "__proto__" v)))
          as (m' & Hrun & Hout & Hf).
        exists m'. split; [exact Hrun|]. split; [exact Hout|exact Hf].
    + destruct (IH (with_this m (obj_set (this m) k v)))
        as (m' & Hrun & Hout & Hf).
      exists m'. split; [exact Hrun|]. split; [exact Hout|exact Hf].
Qed.

Lemma persistable_keys_state (o : obj) :
  "state" ∉ obj_keys (obj_delete (getPersistable o) "state").
Proof. apply obj_get_None_keys, obj_get_delete_eq. Qed.

Section ResetFacts.

Variable JSON_parse : value -> result value.
Variable invoke : string -> list value -> machine -> machine * completion.

(** [reset()] up to the assignment of the defaults. *)
Lemma reset_steps (m : machine) :
  in_place m "getPersistable" ->
  reset JSON_parse invoke m
  = (let! snapshot := state_read "defaultState" in
     let! defaults := lift (JSON_parse snapshot) in
     Object_assign (own_enumerable defaults))
      (with_this m
         (fold_left obj_delete
            (obj_keys (obj_delete (getPersistable (this m)) "state")) (this m))).
Proof.
  intros Hp. unfold reset. unfold bind at 1.
  rewrite call_getPersistable_in_place by exact Hp.
  unfold bind at 1. unfold lift. cbn [rest_without own_enumerable].
  reflexivity.
Qed.

Lemma state_of_cleared (o : obj) :
  state_of
    (fold_left obj_delete (obj_keys (obj_delete (getPersistable o) "state")) o)
  = state_of o.
Proof.
  unfold state_of, obj_prop. rewrite obj_get_delete_all.
  rewrite bool_decide_eq_false_2 by apply persistable_keys_state.
  reflexivity.
Qed.

Lemma reset_run (m : machine) (snapshot defaults : value) :
  in_place m "getPersistable" ->
  get_prop (state_of (this m)) "defaultState" = Ok snapshot ->
  JSON_parse snapshot = Ok defaults ->
  exists m',
    reset JSON_parse invoke m = (m', Ok tt)
    /\ outside m' = outside m
    /\ forall name,
         name <> "__proto__" ->
         obj_get (this m') name
         = obj_get
             (obj_assign
                (fold_left obj_delete
                   (obj_keys (obj_delete (getPersistable (this m)) "state"))
                   (this m))
                (own_enumerable defaults)) name.
Proof.
  intros Hp Hsnap Hparse. rewrite (reset_steps m Hp).
  unfold bind at 1. unfold state_read. cbn [this with_this].
  rewrite state_of_cleared, Hsnap.
  unfold bind at 1. unfold lift. rewrite Hparse.
  destruct (Object_assign_fields (own_enumerable defaults)
              (with_this m
                 (fold_left obj_delete
                    (obj_keys (obj_delete (getPersistable (this m)) "state"))
                    (this m))))
    as (m' & Hrun & Hout & Hf).
  exists m'. split; [exact Hrun|]. split; [exact Hout|exact Hf].
Qed.

(** [reset()] leaves the world alone, unless a function has taken the
    place of [getPersistable]. *)
Lemma reset_store (m : machine) :
  no_function_at m "getPersistable" ->
  outside (reset JSON_parse invoke m).1 = outside m.
Proof.
  intros Hno. destruct (lookup m "getPersistable") as [v|] eqn:Hl.
  - assert (is_function v = false) as Hv.
    { destruct v; try reflexivity. exfalso. eapply Hno. exact Hl. }
    unfold reset, bind.
    rewrite (call_getPersistable_shadowed invoke m v Hl Hv). reflexivity.
  - rewrite (reset_steps m Hl).
    unfold bind at 1. unfold state_read. cbn [this with_this].
    destruct (get_prop _ "defaultState") as [snapshot|e]; [|reflexivity].
    unfold bind at 1. unfold lift.
    destruct (JSON_parse snapshot) as [defaults|e]; [|reflexivity].
    destruct (Object_assign_fields (own_enumerable defaults)
                (with_this m
                   (fold_left obj_delete
                      (obj_keys (obj_delete (getPersistable (this m)) "state"))
                      (this m))))
      as (m' & Hrun & Hout & _).
    rewrite Hrun. exact Hout.
Qed.

End ResetFacts.

Section Snapshot.

Variable autoPersist : bool.
Variable autoReturn : bool.
Variable prefix : string.
Variable onError : value -> result value.
Variable JSON_stringify : value -> result (option string).
Variable JSON_parse : value -> result value.
Variable superjson_stringify : value -> string.
Variable superjson_parse : string -> result value.
Variable proto_has : string -> bool.
Variable invoke : string -> list value -> machine -> machine * completion.

(** The first request leaves the text of the fields as they were when it
    arrived, before the load, in the internal namespace. *)
Lemma fetch_takes_snapshot (r : request) (m : machine) (text : string) :
  unserved m -> loads_cleanly prefix superjson_parse (store (outside m)) ->
  store (outside m) !! (prefix ++ "state") = None ->
  JSON_stringify (VObj (getPersistable (this m))) = Ok (Some text) ->
  ~ sets_state r -> keeps (snapshot_is (VStr text)) invoke ->
  snapshot_is (VStr text)
    (this (fetch autoPersist autoReturn prefix onError JSON_stringify JSON_parse
             superjson_stringify superjson_parse proto_has invoke r m).1).
Proof.
  intros Hun Hclean Hnone Htext Hnot Hkeeps.
  destruct (fetch_try_first autoPersist autoReturn prefix onError
              JSON_stringify JSON_parse superjson_stringify superjson_parse
              proto_has invoke r m (Some text) Hun Hclean Htext)
    as (m2 & m3 & stateObj & _ & Hd2 & _ & Habsent & _ & _ & Hs3 & Htry).
  rewrite fetch_after_try, Htry.
  apply (preserves_respond autoPersist autoReturn prefix onError JSON_parse
           superjson_stringify proto_has invoke "defaultState"
           (fun x => x = VStr text) Hkeeps r Hnot m3).
  exists (VStr text). split; [|reflexivity].
  rewrite (same_but_get _ _ _ _ Hs3).
  - cbn [this with_this]. unfold state_of, obj_prop.
    rewrite obj_get_assign_None by (apply Habsent, Hnone). exact Hd2.
  - apply (bool_decide_unpack _). reflexivity.
Qed.

End Snapshot.

(** C4, as amended.  The first request leaves in the internal namespace the
    text [JSON.stringify] gives for the persistable fields as they are when
    the request arrives, before the load.  [reset()] on an instance that
    holds this text and whose [getPersistable] is the method of the class
    leaves every own property other than [state] as [JSON.parse] reads it
    from the text, whatever the fields were at that moment, and leaves the
    store alone. *)
Theorem reset_restores_snapshot
  (autoPersist autoReturn : bool) (prefix : string)
  (onError : value -> result value)
  (JSON_stringify : value -> result (option string))
  (JSON_parse : value -> result value)
  (superjson_stringify : value -> string)
  (superjson_parse : string -> result value)
  (proto_has : string -> bool)
  (invoke : string -> list value -> machine -> machine * completion)
  (r : request) (m0 m : machine) (text : string) (defaults : obj) :
  unserved m0 -> loads_cleanly prefix superjson_parse (store (outside m0)) ->
  store (outside m0) !! (prefix ++ "state") = None ->
  JSON_stringify (VObj (getPersistable (this m0))) = Ok (Some text) ->
  ~ sets_state r -> keeps (snapshot_is (VStr text)) invoke ->
  in_place m "getPersistable" ->
  snapshot_is (VStr text) (this m) ->
  JSON_parse (VStr text) = Ok (VObj defaults) ->
  NoDup (obj_keys defaults) ->
  snapshot_is (VStr text)
    (this (fetch autoPersist autoReturn prefix onError JSON_stringify JSON_parse
             superjson_stringify superjson_parse proto_has invoke r m0).1)
  /\ (exists m',
        reset JSON_parse invoke m = (m', Ok tt)
        /\ outside m' = outside m
        /\ forall name, name <> "state" -> name <> "__proto__" ->
                        obj_get (this m') name = obj_get defaults name)
  /\ (forall m2,
        no_function_at m2 "getPersistable" ->
        outside (reset JSON_parse invoke m2).1 = outside m2).
Proof.
  intros Hun Hclean Hnone Htext Hnot Hkeeps Hp (x & Hsnap & ->) Hparse Hnd.
  split; [|split].
  - apply fetch_takes_snapshot; assumption.
  - destruct (reset_run JSON_parse invoke m _ _ Hp Hsnap Hparse)
      as (m' & Hrun & Hout & Hf).
    exists m'. split; [exact Hrun|]. split; [exact Hout|].
    intros name Hne Hnp. rewrite (Hf name Hnp). cbn [own_enumerable].
    rewrite obj_get_assign, (obj_get_rev_unique _ _ Hnd), obj_get_delete_all.
    destruct (obj_get defaults name) as [v|]; [reflexivity|].
    destruct (bool_decide _) eqn:E; [reflexivity|].
    apply bool_decide_eq_false_1 in E.
    destruct (obj_get (this m) name) as [v|] eqn:Hv; [|reflexivity].
    exfalso. apply E. apply persistable_keys. eauto.
  - intros m2. apply reset_store.
Qed.
Lemma no_call_keeps_snapshot (v : value) :
  keeps (snapshot_is v) Sample.no_call.
Proof. intros f args m H. exact H. Qed.

Lemma reset_restores_snapshot_witness :
  obj_get
    (this (Sample.run_fetch false Sample.plain Sample.no_call
             Sample.call_increment (Machine Sample.actor Sample.counted)).1)
    "count"
  = Some (VNum 5)
  /\ obj_get
       (this (reset Fragment.JSON_parse Sample.no_call
                (Sample.run_fetch false Sample.plain Sample.no_call
                   Sample.call_increment
                   (Machine Sample.actor Sample.counted)).1).1)
       "count"
     = Some (VNum 0).
Proof.
  split; [reflexivity|].
  destruct (reset_restores_snapshot false false "_itty:" default_onError
              Fragment.JSON_stringify Fragment.JSON_parse
              Fragment.superjson_stringify Fragment.superjson_parse
              Sample.plain Sample.no_call
              Sample.call_increment
              (Machine Sample.actor Sample.counted)
              (Sample.run_fetch false Sample.plain Sample.no_call
                 Sample.call_increment
                 (Machine Sample.actor Sample.counted)).1
              (default EmptyString
                 (Fragment.JSON_text (VObj (getPersistable Sample.actor))))
              [("env", VObj []); ("classInstance", VNull);
               ("count", VNum 0); ("$tmp", VNum 7)])
    as (_ & (m' & Hrun & _ & Hfields) & _).
  - split; [exists (VBool false); split; reflexivity|].
    split; [reflexivity|]. split; [left; reflexivity|].
    repeat split.
  - exact counted_loads_cleanly.
  - reflexivity.
  - reflexivity.
  - intros [_ Hp]. discriminate.
  - apply no_call_keeps_snapshot.
  - reflexivity.
  - eexists. split; reflexivity.
  - reflexivity.
  - apply (bool_decide_unpack _). reflexivity.
  - rewrite Hrun. simpl. rewrite Hfields by discriminate. reflexivity.
Defined.

(** C4 fails as stated: the constructor sets [this.env] to the environment,
    whose bindings carry functions; [reset()] leaves [this.env] with the
    bindings emptied. *)
Lemma reset_empties_the_bindings_of_env :
  obj_get Sample.bound "env"
  = Some (VObj [("COUNTER", Sample.counter_binding)])
  /\ obj_get
       (this (reset Fragment.JSON_parse Sample.no_call
                (Sample.run_fetch false Sample.plain Sample.no_call
                   Sample.call_increment
                   (Machine Sample.bound Sample.empty_world)).1).1)
       "env"
     = Some (VObj [("COUNTER", VObj [])]).
Proof. vm_compute. split; reflexivity. Qed.

(** Likewise an array item [undefined] comes back as [null]. *)
Lemma reset_turns_undefined_item_into_null :
  obj_get Sample.lister "list" = Some (VArr [VUndefined] [])
  /\ obj_get
       (this (reset Fragment.JSON_parse Sample.no_call
                (Sample.run_fetch false Sample.plain Sample.no_call
                   Sample.call_increment
                   (Machine Sample.lister Sample.empty_world)).1).1)
       "list"
     = Some (VArr [VNull] []).
Proof. vm_compute. split; reflexivity. Qed.

(** ** The outcomes of [fetch] *)

Lemma bind_inv_ok {A B} (c : M A) (k : A -> M B) (m m' : machine) (b : B) :
  bind c k m = (m', Ok b) ->
  exists m1 a, c m = (m1, Ok a) /\ k a m1 = (m', Ok b).
Proof.
  unfold bind. destruct (c m) as [m1 [a|e]]; [eauto|discriminate].
Qed.

Section Outcomes.

Variable autoPersist : bool.
Variable autoReturn : bool.
Variable prefix : string.
Variable onError : value -> result value.
Variable JSON_stringify : value -> result (option string).
Variable JSON_parse : value -> result value.
Variable superjson_stringify : value -> string.
Variable superjson_parse : string -> result value.
Variable proto_has : string -> bool.
Variable invoke : string -> list value -> machine -> machine * completion.

(** A request the router leaves unanswered on an actor with a fallback
    handler: [respond] is the call of the handler, whatever [autoPersist]
    says. *)
Lemma respond_hands_over (r : request) (m m1 : machine) (response : value) :
  dispatch autoReturn onError JSON_parse proto_has invoke r m
  = (m1, Ok response) ->
  truthy response = false ->
  truthy (member proto_has m1 "fetchFallback") = true ->
  respond autoPersist autoReturn prefix onError JSON_parse superjson_stringify
    proto_has invoke r m
  = match call_member proto_has invoke "fetchFallback" [] m1 with
    | (m', Threw e) => (m', Throw e)
    | (m', c) => (m', Ok c)
    end.
Proof.
  intros Hd Hf Hm. unfold respond.
  rewrite (bind_ok _ _ _ _ _ Hd). unfold bind, read_member.
  rewrite Hf, Hm. reflexivity.
Qed.

Lemma respond_completion (r : request) (m m' : machine) (c : completion) :
  respond autoPersist autoReturn prefix onError JSON_parse superjson_stringify
    proto_has invoke r m = (m', Ok c) ->
  (exists v, c = Returned v)
  \/ (exists m0 p,
        call_member proto_has invoke "fetchFallback" [] m0
        = (m', ReturnedPromise p)
        /\ c = ReturnedPromise p).
Proof.
  unfold respond. intros H.
  apply bind_inv_ok in H as (m1 & response & _ & H).
  apply bind_inv_ok in H as (m2 & fallback & Hread & H).
  injection Hread as <- <-.
  destruct (negb (truthy response) && truthy (member proto_has m1 "fetchFallback"))%bool.
  - destruct (call_member proto_has invoke "fetchFallback" [] m1)
      as [m3 [e|v|p]] eqn:Hcall; [discriminate| |].
    + injection H as <- <-. left. eauto.
    + injection H as <- <-. right. eauto.
  - apply bind_inv_ok in H as (m3 & u & _ & H).
    destruct (truthy response); [|discriminate].
    injection H as <- <-. left. eauto.
Qed.

(** The promise of [fetch] is fulfilled, unless it is the promise the
    fallback handler has returned. *)
Lemma fetch_rejects_only_through_fallback (r : request) (m m' : machine)
  (e : value) :
  fetch autoPersist autoReturn prefix onError JSON_stringify JSON_parse
    superjson_stringify superjson_parse proto_has invoke r m
  = (m', Rejected e) ->
  exists m0,
    call_member proto_has invoke "fetchFallback" [] m0
    = (m', ReturnedPromise (Rejected e)).
Proof.
  unfold fetch.
  destruct (fetch_try _ _ _ _ _ _ _ _ _ _ r m) as [m1 [c|e']] eqn:Htry;
    [|discriminate].
  unfold fetch_try in Htry.
  apply bind_inv_ok in Htry as (ma & ua & _ & Htry).
  apply bind_inv_ok in Htry as (mb & ub & _ & Htry).
  apply bind_inv_ok in Htry as (mc & uc & _ & Htry).
  apply respond_completion in Htry as [[v ->]|(m0 & p & Hcall & ->)].
  - discriminate.
  - intros [= <- ->]. eauto.
Qed.

End Outcomes.
(** * Further properties of the runtime *)

Lemma can_persist_same (ks : list string) (m m' : machine) :
  same_but ks m m' -> "storage" ∉ ks -> can_persist m -> can_persist m'.
Proof.
  intros Hs Hk (Hok & Hp & Hg). split; [|split].
  - eapply same_but_storage; eassumption.
  - apply (same_but_in_place _ m m' _ Hs); [discriminate|exact Hp].
  - apply (same_but_in_place _ m m' _ Hs); [discriminate|exact Hg].
Qed.

Lemma ready_same_context (autoPersist autoReturn : bool) (m m' : machine) :
  same_but context_keys m m' ->
  ready autoPersist autoReturn m -> ready autoPersist autoReturn m'.
Proof.
  intros Hs (Hi & Hr & Hl & Hst & Hj). split; [|split; [|split; [|split]]].
  - eapply same_context_initialized; eassumption.
  - eapply same_context_routed; eassumption.
  - apply (same_but_in_place _ m m' _ Hs); [discriminate|exact Hl].
  - intros Ha. apply (can_persist_same _ m m' Hs); [|auto].
    apply context_keys_spare. auto.
  - intros Ha. apply (same_but_in_place _ m m' _ Hs); [discriminate|auto].
Qed.

Lemma state_of_set (o : obj) (k : string) (v : value) :
  k <> "state" -> state_of (obj_set o k v) = state_of o.
Proof.
  intros Hne. unfold state_of, obj_prop. rewrite obj_get_set_ne by exact Hne.
  reflexivity.
Qed.

Lemma in_place_set (m : machine) (target k : string) (v : value) :
  target <> k -> in_place m k ->
  in_place (with_this m (obj_set (this m) target v)) k.
Proof.
  intros Hne H. apply in_place_own in H as [Ho Hp]. apply in_place_own.
  simpl. rewrite obj_get_set_ne by exact Hne. auto.
Qed.

(** A [set] of a name that is not reserved leaves the instance ready. *)
Lemma ready_set (autoPersist autoReturn : bool) (m : machine)
  (target : string) (v : value) :
  target ∉ reserved -> ready autoPersist autoReturn m ->
  ready autoPersist autoReturn (with_this m (obj_set (this m) target v)).
Proof.
  intros Hk (Hi & Hr & Hl & Hst & Hj).
  assert (forall k, k ∈ reserved -> target <> k) as Hne
    by (intros k Hin ->; contradiction).
  assert (state_of (obj_set (this m) target v) = state_of (this m)) as Hstate
    by (apply state_of_set, Hne; unfold reserved; set_solver).
  unfold ready, initialized, routed, can_persist, storage_ok. simpl.
  rewrite Hstate. split; [exact Hi|]. split; [exact Hr|].
  split; [apply in_place_set; [apply Hne; unfold reserved; set_solver|exact Hl]|].
  split.
  - intros Ha. destruct (Hst Ha) as (Hok & Hp & Hg).
    split; [exact Hok|].
    split; apply in_place_set; try assumption;
      apply Hne; unfold reserved; set_solver.
  - intros Ha. apply in_place_set; [|auto].
    apply Hne; unfold reserved; set_solver.
Qed.

Lemma after_persist_this (autoPersist : bool) (prefix : string)
  (stringify : value -> string)
  (invoke : string -> list value -> machine -> machine * completion)
  (m : machine) :
  (autoPersist = true -> can_persist m) ->
  this (after_persist autoPersist prefix stringify invoke m) = this m
  /\ proto (after_persist autoPersist prefix stringify invoke m) = proto m.
Proof.
  intros Hok. unfold after_persist. destruct autoPersist; [|split; reflexivity].
  destruct (Hok eq_refl) as (Hs & _ & Hg).
  rewrite persist_run by assumption. split; reflexivity.
Qed.

Lemma ready_after_persist (autoPersist autoReturn : bool) (prefix : string)
  (stringify : value -> string)
  (invoke : string -> list value -> machine -> machine * completion)
  (m : machine) :
  ready autoPersist autoReturn m ->
  ready autoPersist autoReturn
    (after_persist autoPersist prefix stringify invoke m).
Proof.
  intros Hr. pose proof Hr as (Hi & Hro & Hl & Hst & Hj).
  destruct (after_persist_this autoPersist prefix stringify invoke m Hst)
    as [Ht Hp].
  unfold ready, can_persist, in_place, lookup. rewrite Ht, Hp. exact Hr.
Qed.

Section ActorFacts.

Variable autoPersist : bool.
Variable autoReturn : bool.
Variable prefix : string.
Variable onError : value -> result value.
Variable JSON_stringify : value -> result (option string).
Variable JSON_parse : value -> result value.
Variable superjson_stringify : value -> string.
Variable superjson_parse : string -> result value.
Variable proto_has : string -> bool.
Variable invoke : string -> list value -> machine -> machine * completion.

Local Abbreviation the_fetch :=
  (fetch autoPersist autoReturn prefix onError JSON_stringify JSON_parse
     superjson_stringify superjson_parse proto_has invoke).
Local Abbreviation the_dispatch :=
  (dispatch autoReturn onError JSON_parse proto_has invoke).
Local Abbreviation the_respond :=
  (respond autoPersist autoReturn prefix onError JSON_parse
     superjson_stringify proto_has invoke).
Local Abbreviation persisted :=
  (after_persist autoPersist prefix superjson_stringify invoke).

(** The [autoPersist] step on an instance that can persist. *)
Lemma persist_step (m : machine) :
  (autoPersist = true -> can_persist m) ->
  when autoPersist
    (await_method invoke "persist"
       (persist prefix superjson_stringify invoke)) m
  = (persisted m, Ok tt).
Proof.
  intros Hok. unfold after_persist. destruct autoPersist; [|reflexivity].
  destruct (Hok eq_refl) as (Hs & Hp & Hg). cbn [when].
  rewrite await_method_in_place by exact Hp.
  rewrite persist_run by assumption. reflexivity.
Qed.

(** A response of the router is returned once the fields are persisted. *)
Lemma respond_answered (r : request) (m m1 : machine) (v : value) :
  the_dispatch r m = (m1, Ok v) -> truthy v = true ->
  (autoPersist = true -> can_persist m1) ->
  the_respond r m = (persisted m1, Ok (Returned v)).
Proof.
  intros Hd Hv Hok. unfold respond. rewrite (bind_ok _ _ _ _ _ Hd).
  unfold bind at 1. unfold read_member. rewrite Hv. cbn [negb andb].
  rewrite (bind_ok _ _ _ _ _ (persist_step m1 Hok)). reflexivity.
Qed.

Lemma fetch_answered (r : request) (m : machine) :
  ready autoPersist autoReturn m ->
  exists ma,
    same_but context_keys m ma
    /\ forall m1 v,
         the_dispatch r ma = (m1, Ok v) -> truthy v = true ->
         (autoPersist = true -> can_persist m1) ->
         the_fetch r m = (persisted m1, Fulfilled v).
Proof.
  intros (Hi & Hr & Hl & Hst & Hj).
  destruct (fetch_try_initialized autoPersist autoReturn prefix JSON_stringify
              JSON_parse superjson_stringify superjson_parse proto_has invoke
              onError r m Hi Hr Hl) as (ma & Hs & Htry).
  exists ma. split; [exact Hs|]. intros m1 v Hd Hv Hok.
  unfold fetch. rewrite Htry, (respond_answered r ma m1 v Hd Hv Hok).
  reflexivity.
Qed.

End ActorFacts.
Section Actions.

Variable autoPersist : bool.
Variable autoReturn : bool.
Variable prefix : string.
Variable onError : value -> result value.
Variable JSON_stringify : value -> result (option string).
Variable JSON_parse : value -> result value.
Variable superjson_stringify : value -> string.
Variable superjson_parse : string -> result value.
Variable proto_has : string -> bool.
Variable invoke : string -> list value -> machine -> machine * completion.

Local Abbreviation the_fetch :=
  (fetch autoPersist autoReturn prefix onError JSON_stringify JSON_parse
     superjson_stringify superjson_parse proto_has invoke).
Local Abbreviation the_dispatch :=
  (dispatch autoReturn onError JSON_parse proto_has invoke).
Local Abbreviation persisted :=
  (after_persist autoPersist prefix superjson_stringify invoke).

(** The self-returning stage and the last handler, with the [toJSON] of
    the class in its place. *)
Lemma falls_through (m : machine) :
  (autoReturn = true -> in_place m "toJSON") ->
  (let! second := optionallyReturnThis autoReturn invoke in
   if defined second then ret second else ret (status 204)) m
  = (m, Ok (fallthrough autoReturn (this m))).
Proof.
  intros Hj. unfold bind, optionallyReturnThis, fallthrough.
  destruct autoReturn; [|reflexivity].
  rewrite send_in_place by (apply Hj; reflexivity).
  pose proof (Hj eq_refl) as Hl. unfold in_place in Hl. rewrite Hl.
  reflexivity.
Qed.

Lemma dispatch_set (r : request) (target : string) (content : value)
  (m : machine) :
  req_method r = "GET" -> req_params r = Some ("set", target) ->
  JSON_parse (VStr (content_text r)) = Ok content ->
  routed (this m) -> target <> "__proto__" ->
  (autoReturn = true ->
   in_place (with_this m (obj_set (this m) target content)) "toJSON") ->
  the_dispatch r m
  = (with_this m (obj_set (this m) target content),
     Ok (fallthrough autoReturn (obj_set (this m) target content))).
Proof.
  intros Hm Hp Hc Hr Hnp Hj.
  assert (action_handler JSON_parse proto_has invoke r "set" target m
          = (with_this m (obj_set (this m) target content), Ok VUndefined))
    as Hact.
  { unfold action_handler. unfold bind at 1. unfold lift. rewrite Hc.
    cbn [String.eqb Ascii.eqb Bool.eqb andb].
    unfold bind at 1. rewrite assign_plain by exact Hnp. reflexivity. }
  unfold dispatch. unfold bind at 1. unfold state_read. rewrite Hr.
  unfold router_handle. rewrite Hp, Hm.
  cbn [String.eqb Ascii.eqb Bool.eqb andb].
  unfold bind at 1. rewrite Hact. cbn [defined].
  rewrite (falls_through _ Hj). reflexivity.
Qed.

Lemma dispatch_get_prop (r : request) (target : string) (content : value)
  (m : machine) :
  req_method r = "GET" -> req_params r = Some ("get-prop", target) ->
  JSON_parse (VStr (content_text r)) = Ok content ->
  routed (this m) ->
  the_dispatch r m = (m, Ok (json (member proto_has m target))).
Proof.
  intros Hm Hp Hc Hr. unfold dispatch, bind, state_read. rewrite Hr.
  unfold router_handle. rewrite Hp, Hm. simpl.
  unfold bind, action_handler, bind, lift. rewrite Hc. reflexivity.
Qed.

Lemma fallthrough_truthy (o : obj) : truthy (fallthrough autoReturn o) = true.
Proof. unfold fallthrough. destruct autoReturn; reflexivity. Qed.

(** What a [set] request does to an instance that is ready. *)
Lemma fetch_set (r : request) (target : string) (content : value)
  (m : machine) :
  req_method r = "GET" -> req_params r = Some ("set", target) ->
  JSON_parse (VStr (content_text r)) = Ok content ->
  target ∉ reserved -> ready autoPersist autoReturn m ->
  exists ma,
    same_but context_keys m ma
    /\ the_fetch r m
       = (persisted (with_this ma (obj_set (this ma) target content)),
          Fulfilled (fallthrough autoReturn (obj_set (this ma) target content)))
    /\ ready autoPersist autoReturn
         (with_this ma (obj_set (this ma) target content)).
Proof.
  intros Hm Hp Hc Hne Hready.
  destruct (fetch_answered autoPersist autoReturn prefix onError JSON_stringify
              JSON_parse superjson_stringify superjson_parse proto_has invoke
              r m Hready) as (ma & Hs & Hfetch).
  pose proof (ready_same_context _ _ _ _ Hs Hready) as Hready'.
  pose proof (ready_set _ _ ma target content Hne Hready') as Hready''.
  exists ma. split; [exact Hs|]. split; [|exact Hready''].
  apply Hfetch.
  - apply dispatch_set; try assumption.
    + apply Hready'.
    + intros ->. apply Hne. unfold reserved. set_solver.
    + apply Hready''.
  - apply fallthrough_truthy.
  - apply Hready''.
Qed.

(** X1. On an instance that is ready to serve, a [set] of a field whose
    name is not reserved, followed by a [get-prop] of the same field whose
    content is JSON, answers with the value that was set; the [set] itself
    is answered with 204, or with the fields when [autoReturn] is on, and
    touches no other field. *)
Theorem set_then_get_prop (r_set r_get : request) (target : string)
  (content ignored : value) (m : machine) :
  req_method r_set = "GET" -> req_params r_set = Some ("set", target) ->
  JSON_parse (VStr (content_text r_set)) = Ok content ->
  req_method r_get = "GET" -> req_params r_get = Some ("get-prop", target) ->
  JSON_parse (VStr (content_text r_get)) = Ok ignored ->
  target ∉ reserved -> ready autoPersist autoReturn m ->
  exists m1 m2,
    the_fetch r_set m = (m1, Fulfilled (fallthrough autoReturn (this m1)))
    /\ obj_get (this m1) target = Some content
    /\ (forall name, name <> "state" -> name <> target ->
                     obj_get (this m1) name = obj_get (this m) name)
    /\ the_fetch r_get m1 = (m2, Fulfilled (json content)).
Proof.
  intros Hm Hp Hc Hm' Hp' Hc' Hne Hready.
  destruct (fetch_set r_set target content m Hm Hp Hc Hne Hready)
    as (ma & Hs & Hfetch & Hready1).
  assert (target <> "state") as Hns
    by (intros ->; apply Hne; unfold reserved; set_solver).
  set (m0 := with_this ma (obj_set (this ma) target content)) in *.
  set (m1 := persisted m0) in *.
  destruct (after_persist_this autoPersist prefix superjson_stringify invoke
              m0 (proj1 (proj2 (proj2 (proj2 Hready1))))) as [Hthis Hproto].
  fold m1 in Hthis, Hproto.
  assert (ready autoPersist autoReturn m1) as Hr1
    by (apply ready_after_persist; exact Hready1).
  destruct (fetch_answered autoPersist autoReturn prefix onError JSON_stringify
              JSON_parse superjson_stringify superjson_parse proto_has invoke
              r_get m1 Hr1) as (mb & Hsb & Hfetchb).
  pose proof (ready_same_context _ _ _ _ Hsb Hr1) as Hrb.
  assert (obj_get (this mb) target = Some content) as Hget.
  { destruct Hsb as (_ & _ & Hf & _). rewrite Hf by exact Hns.
    rewrite Hthis. apply obj_get_set_eq. }
  exists m1, (persisted mb).
  split; [rewrite Hthis; exact Hfetch|]. split; [|split].
  - rewrite Hthis. apply obj_get_set_eq.
  - intros name Hn Hn'. rewrite Hthis. unfold m0. simpl.
    rewrite obj_get_set_ne by congruence.
    destruct Hs as (_ & _ & Hf & _). apply Hf. exact Hn.
  - assert (json content = json (member proto_has mb target)) as ->.
    { unfold member, lookup. rewrite Hget. reflexivity. }
    apply Hfetchb.
    + apply dispatch_get_prop with (content := ignored); try assumption.
      apply Hrb.
    + reflexivity.
    + apply Hrb.
Qed.

(** X2. On an instance that is ready to serve, with [autoPersist] on, the
    request that sets a field whose name is not reserved and does not start
    with [$] leaves the field's encoded value in the store under
    [prefix ++ name]; with it off, the request leaves the store, the alarm
    and the console as they were. *)
Theorem set_is_stored_under_autoPersist (r : request) (target : string)
  (content : value) (m : machine) :
  req_method r = "GET" -> req_params r = Some ("set", target) ->
  JSON_parse (VStr (content_text r)) = Ok content ->
  target ∉ reserved -> String.prefix "$" target = false ->
  ready autoPersist autoReturn m ->
  (autoPersist = true ->
   store (outside (the_fetch r m).1) !! (prefix ++ target)
   = Some (superjson_stringify content))
  /\ (autoPersist = false -> outside (the_fetch r m).1 = outside m).
Proof.
  intros Hm Hp Hc Hne Hd Hready.
  destruct (fetch_set r target content m Hm Hp Hc Hne Hready)
    as (ma & Hs & Hfetch & Hready1).
  assert (target <> "state") as Hns
    by (intros ->; apply Hne; unfold reserved; set_solver).
  rewrite Hfetch. simpl. unfold after_persist. split; intros Ha; rewrite Ha.
  - destruct Hready1 as (_ & _ & _ & Hcan & _).
    destruct (Hcan Ha) as (Hok & _ & Hg).
    destruct (persist_effect prefix superjson_stringify invoke
                (with_this ma (obj_set (this ma) target content)) Hok Hg)
      as (s' & Hrun & _ & Hhit & _).
    rewrite Hrun. simpl. apply Hhit; [exact Hns| |exact Hd].
    simpl. apply obj_get_set_eq.
  - simpl. apply Hs.
Qed.

End Actions.

Lemma loaded_ready (autoPersist autoReturn : bool) :
  ready autoPersist autoReturn Sample.loaded.
Proof.
  split; [exists (VBool true); split; reflexivity|].
  split; [reflexivity|]. split; [reflexivity|]. split.
  - intros _. split; [left; reflexivity|]. split; reflexivity.
  - intros _. reflexivity.
Qed.

Lemma items_not_reserved : "items" ∉ reserved.
Proof. apply (bool_decide_unpack _). reflexivity. Qed.

Lemma set_then_get_prop_witness :
  exists m1 m2,
    Sample.run_fetch true Sample.plain Sample.no_call More.set_items
      Sample.loaded
    = (m1, Fulfilled (status 204))
    /\ Sample.run_fetch true Sample.plain Sample.no_call More.get_items m1
       = (m2, Fulfilled (json (VArr [VNum 1; VNum 2; VNum 3] []))).
Proof.
  destruct (set_then_get_prop true false "_itty:" default_onError
              Fragment.JSON_stringify Fragment.JSON_parse
              Fragment.superjson_stringify Fragment.superjson_parse
              Sample.plain Sample.no_call More.set_items More.get_items
              "items" (VArr [VNum 1; VNum 2; VNum 3] []) (VArr [] [])
              Sample.loaded eq_refl eq_refl eq_refl eq_refl eq_refl eq_refl
              items_not_reserved (loaded_ready true false))
    as (m1 & m2 & H1 & _ & _ & H2).
  exists m1, m2. split; [exact H1|exact H2].
Defined.

Lemma set_is_stored_under_autoPersist_witness :
  store (outside (Sample.run_fetch true Sample.plain Sample.no_call
                    More.set_items Sample.loaded).1)
  !! "_itty:items"
  = Some (Fragment.superjson_stringify (VArr [VNum 1; VNum 2; VNum 3] [])).
Proof.
  apply (set_is_stored_under_autoPersist true false "_itty:" default_onError
           Fragment.JSON_stringify Fragment.JSON_parse
           Fragment.superjson_stringify Fragment.superjson_parse
           Sample.plain Sample.no_call More.set_items "items"
           (VArr [VNum 1; VNum 2; VNum 3] []) Sample.loaded
           eq_refl eq_refl eq_refl items_not_reserved eq_refl
           (loaded_ready true false)).
  reflexivity.
Defined.
Lemma error_accepts (s : Z) (v : value) :
  200 <= s <= 599 -> s <> 204 -> s <> 205 -> s <> 304 ->
  error s v = Ok (VResponse s (Some v)).
Proof.
  intros Hs H1 H2 H3. unfold error.
  rewrite Z.mod_small by lia. cbv zeta.
  destruct (Z.ltb_spec s 200); [lia|]. destruct (Z.ltb_spec 599 s); [lia|].
  destruct (Z.eqb_spec s 204); [lia|]. destruct (Z.eqb_spec s 205); [lia|].
  destruct (Z.eqb_spec s 304); [lia|]. reflexivity.
Qed.

Lemma error_refuses (s : Z) (v : value) :
  0 <= s < 200 \/ 599 < s < 65536 \/ s = 204 \/ s = 205 \/ s = 304 ->
  exists e, error s v = Throw e.
Proof.
  intros Hs. unfold error.
  rewrite Z.mod_small by lia. cbv zeta.
  destruct (Z.ltb_spec s 200); [eexists; reflexivity|].
  destruct (Z.ltb_spec 599 s); [eexists; reflexivity|].
  destruct (Z.eqb_spec s 204); [eexists; reflexivity|].
  destruct (Z.eqb_spec s 205); [eexists; reflexivity|].
  destruct (Z.eqb_spec s 304); [eexists; reflexivity|]. lia.
Qed.

Section Calls.

Variable autoPersist : bool.
Variable autoReturn : bool.
Variable prefix : string.
Variable JSON_stringify : value -> result (option string).
Variable JSON_parse : value -> result value.
Variable superjson_stringify : value -> string.
Variable superjson_parse : string -> result value.
Variable proto_has : string -> bool.
Variable invoke : string -> list value -> machine -> machine * completion.

Local Abbreviation persisted :=
  (after_persist autoPersist prefix superjson_stringify invoke).

Lemma same_context_member_value (m m' : machine) (k : string) :
  same_but context_keys m m' -> k <> "state" ->
  member proto_has m' k = member proto_has m k.
Proof.
  intros Hs Hne. unfold member. rewrite (same_but_lookup _ _ _ _ Hs Hne).
  reflexivity.
Qed.

Lemma router_handle_call (r : request) (target : string)
  (content : value) (args : list value) (m m1 : machine) (c : completion) :
  req_method r = "GET" -> req_params r = Some ("call", target) ->
  JSON_parse (VStr (content_text r)) = Ok content ->
  spread_args content = Ok args ->
  is_function (member proto_has m target) = true ->
  call_member proto_has invoke target args m = (m1, c) ->
  (autoReturn = true -> await c = Ok VUndefined -> in_place m1 "toJSON") ->
  router_handle autoReturn JSON_parse proto_has invoke r m
  = match await c with
    | Throw e => (m1, Throw e)
    | Ok v => (m1, Ok (call_result autoReturn m1 v))
    end.
Proof.
  intros Hm Hp Hc Ha Hfn Hcall Hj. unfold router_handle. rewrite Hp, Hm.
  cbn [String.eqb Ascii.eqb Bool.eqb andb].
  assert (action_handler JSON_parse proto_has invoke r "call" target m
          = match await c with
            | Throw e => (m1, Throw e)
            | Ok v => (m1, Ok (match v with
                               | VUndefined => VUndefined
                               | VResponse _ _ => v
                               | _ => json v
                               end))
            end) as Hact.
  { unfold action_handler. unfold bind at 1. unfold lift. rewrite Hc.
    cbn [String.eqb Ascii.eqb Bool.eqb andb].
    unfold bind at 1. unfold read_member. rewrite Hfn. cbn [negb].
    unfold bind at 1. rewrite Ha.
    unfold bind at 1. unfold awaited. rewrite Hcall.
    destruct (await c); reflexivity. }
  unfold bind at 1. rewrite Hact.
  destruct (await c) as [v|e] eqn:Hv; [|reflexivity].
  destruct v; try reflexivity.
  cbn [defined]. rewrite falls_through; [reflexivity|].
  intros Hr. apply Hj; [exact Hr|reflexivity].
Qed.

(** X3. On an instance that is ready to serve, the answer to a [call] of a
    member function is what the function hands back: a response as it is,
    another value as JSON, and for [undefined] the fields as they are after
    the call when [autoReturn] is on, else 204; with [autoPersist] the
    fields are persisted first.  The call may change the instance: what is
    said holds when the methods the runtime needs afterwards are still in
    their place. *)
Theorem call_answer (onError : value -> result value) (r : request)
  (target : string) (content : value) (args : list value) (m : machine) :
  req_method r = "GET" -> req_params r = Some ("call", target) ->
  JSON_parse (VStr (content_text r)) = Ok content ->
  spread_args content = Ok args ->
  is_function (member proto_has m target) = true ->
  ready autoPersist autoReturn m ->
  exists ma,
    same_but context_keys m ma
    /\ forall m1 c v,
         call_member proto_has invoke target args ma = (m1, c) ->
         await c = Ok v ->
         (autoPersist = true -> can_persist m1) ->
         (autoReturn = true -> v = VUndefined -> in_place m1 "toJSON") ->
         fetch autoPersist autoReturn prefix onError JSON_stringify JSON_parse
           superjson_stringify superjson_parse proto_has invoke r m
         = (persisted m1, Fulfilled (call_result autoReturn m1 v)).
Proof.
  intros Hm Hp Hc Ha Hfn Hready.
  destruct (fetch_answered autoPersist autoReturn prefix onError JSON_stringify
              JSON_parse superjson_stringify superjson_parse proto_has invoke
              r m Hready) as (ma & Hs & Hfetch).
  pose proof (ready_same_context _ _ _ _ Hs Hready) as (_ & Hr & _).
  exists ma. split; [exact Hs|]. intros m1 c v Hcall Hv Hok Hj.
  apply Hfetch; [|destruct v; try reflexivity; unfold call_result, fallthrough;
                  destruct autoReturn; reflexivity|exact Hok].
  unfold dispatch, bind, state_read. rewrite Hr.
  rewrite (router_handle_call r target content args ma m1 c Hm Hp Hc Ha);
    [rewrite Hv; reflexivity| |exact Hcall|].
  - rewrite (same_context_member proto_has m ma target Hs); [exact Hfn|].
    apply Hready.
  - intros Hr' Hu. apply Hj; [exact Hr'|]. congruence.
Qed.

(** X4. An error of the called function, thrown or carried by a rejected
    promise, becomes the answer of the default error handler: the message
    of the error with its status, or with 500 where it has none or it is 0
    - when that is a status a response with a body may have.  A status the
    response refuses makes the handler throw: the request is answered with
    400, the error of the response is logged and nothing is persisted. *)
Theorem call_error_answer (r : request) (target : string) (content : value)
  (args : list value) (m : machine) :
  req_method r = "GET" -> req_params r = Some ("call", target) ->
  JSON_parse (VStr (content_text r)) = Ok content ->
  spread_args content = Ok args ->
  is_function (member proto_has m target) = true ->
  ready autoPersist autoReturn m ->
  exists ma,
    same_but context_keys m ma
    /\ forall m1 c name message st,
         call_member proto_has invoke target args ma = (m1, c) ->
         await c = Throw (VError name message st) ->
         let s := asked_status st in
         (200 <= s <= 599 -> s <> 204 -> s <> 205 -> s <> 304 ->
          (autoPersist = true -> can_persist m1) ->
          fetch autoPersist autoReturn prefix default_onError JSON_stringify
            JSON_parse superjson_stringify superjson_parse proto_has invoke r m
          = (persisted m1, Fulfilled (VResponse s (Some (VStr message)))))
         /\ (0 < s < 200 \/ 599 < s < 65536 \/ s = 204 \/ s = 205 \/ s = 304 ->
             exists e,
               fetch autoPersist autoReturn prefix default_onError
                 JSON_stringify JSON_parse superjson_stringify superjson_parse
                 proto_has invoke r m
               = (log m1 e, Fulfilled (VResponse 400 (Some e)))).
Proof.
  intros Hm Hp Hc Ha Hfn Hready.
  pose proof Hready as (Hi & Hro & Hl & _).
  destruct (fetch_try_initialized autoPersist autoReturn prefix JSON_stringify
              JSON_parse superjson_stringify superjson_parse proto_has invoke
              default_onError r m Hi Hro Hl) as (ma & Hs & Htry).
  pose proof (ready_same_context _ _ _ _ Hs Hready) as (_ & Hr & _).
  exists ma. split; [exact Hs|]. intros m1 c name message st Hcall Hv s.
  assert (dispatch autoReturn default_onError JSON_parse proto_has invoke r ma
          = (m1, error s (VStr message))) as Hd.
  { unfold dispatch, bind, state_read. rewrite Hr.
    rewrite (router_handle_call r target content args ma m1 c Hm Hp Hc Ha);
      [rewrite Hv| |exact Hcall|].
    - unfold default_onError, s, asked_status. simpl.
      destruct st as [x|]; simpl; [|reflexivity].
      destruct (x =? 0); reflexivity.
    - rewrite (same_context_member proto_has m ma target Hs); [exact Hfn|].
      exact Hro.
    - intros _ Hu. rewrite Hv in Hu. discriminate. }
  split.
  - intros Hs1 H1 H2 H3 Hok.
    rewrite (error_accepts s (VStr message) Hs1 H1 H2 H3) in Hd.
    unfold fetch. rewrite Htry.
    rewrite (respond_answered autoPersist autoReturn prefix default_onError
               JSON_parse superjson_stringify proto_has invoke r ma m1 _ Hd
               eq_refl Hok).
    reflexivity.
  - intros Hs1.
    destruct (error_refuses s (VStr message)) as [e He]; [lia|].
    rewrite He in Hd. exists e.
    unfold fetch. rewrite Htry. unfold respond.
    rewrite (bind_throw _ _ _ _ _ Hd). reflexivity.
Qed.

(** X5. A request the route does not match, on an instance that is ready to
    serve and has no fallback handler, is answered with 400 and the error is
    logged; with [autoPersist] the fields are persisted all the same. *)
Theorem unmatched_request_is_a_bad_request (onError : value -> result value)
  (r : request) (m : machine) :
  req_params r = None \/ req_method r <> "GET" ->
  truthy (member proto_has m "fetchFallback") = false ->
  ready autoPersist autoReturn m ->
  exists ma,
    same_but context_keys m ma
    /\ fetch autoPersist autoReturn prefix onError JSON_stringify JSON_parse
         superjson_stringify superjson_parse proto_has invoke r m
       = (log (persisted ma) (Error "Bad request to durable object"),
          Fulfilled
            (VResponse 400 (Some (Error "Bad request to durable object")))).
Proof.
  intros Hroute Hfb Hready. pose proof Hready as (Hi & Hr & Hl & Hst & _).
  destruct (fetch_try_initialized autoPersist autoReturn prefix JSON_stringify
              JSON_parse superjson_stringify superjson_parse proto_has invoke
              onError r m Hi Hr Hl) as (ma & Hs & Htry).
  pose proof (ready_same_context _ _ _ _ Hs Hready) as (_ & Hr' & _ & Hst' & _).
  exists ma. split; [exact Hs|]. unfold fetch. rewrite Htry.
  assert (dispatch autoReturn onError JSON_parse proto_has invoke r ma
          = (ma, Ok VUndefined)) as Hd.
  { unfold dispatch, bind, state_read. rewrite Hr'. unfold router_handle.
    destruct (req_params r) as [[action target]|]; [|reflexivity].
    destruct Hroute as [Hn|Hn]; [discriminate|].
    destruct (String.eqb_spec (req_method r) "GET"); [contradiction|reflexivity]. }
  unfold respond. rewrite (bind_ok _ _ _ _ _ Hd).
  unfold bind at 1. unfold read_member.
  rewrite (same_context_member_value m ma "fetchFallback" Hs), Hfb by discriminate.
  cbn [truthy negb andb].
  rewrite (bind_ok _ _ _ _ _
             (persist_step autoPersist prefix superjson_stringify invoke ma Hst')).
  reflexivity.
Qed.

End Calls.
Lemma call_answer_witness :
  exists ma,
    same_but context_keys Sample.loaded ma
    /\ forall m1 c v,
         call_member More.counter_members More.counter_invoke "increment" [] ma
         = (m1, c) ->
         await c = Ok v ->
         (true = true -> can_persist m1) ->
         (true = true -> v = VUndefined -> in_place m1 "toJSON") ->
         fetch true true "_itty:" default_onError Fragment.JSON_stringify
           Fragment.JSON_parse Fragment.superjson_stringify
           Fragment.superjson_parse More.counter_members More.counter_invoke
           Sample.call_increment Sample.loaded
         = (after_persist true "_itty:" Fragment.superjson_stringify
              More.counter_invoke m1,
            Fulfilled (call_result true m1 v)).
Proof.
  exact (call_answer true true "_itty:" Fragment.JSON_stringify
           Fragment.JSON_parse Fragment.superjson_stringify
           Fragment.superjson_parse More.counter_members More.counter_invoke
           default_onError Sample.call_increment "increment" (VArr [] []) []
           Sample.loaded eq_refl eq_refl eq_refl eq_refl eq_refl
           (loaded_ready true true)).
Defined.

(** The scenario of the counter: two calls of [increment()] under
    [autoReturn] answer with [count] 1, then 2. *)
Lemma increment_twice :
  let run :=
    fetch false true "_itty:" default_onError Fragment.JSON_stringify
      Fragment.JSON_parse Fragment.superjson_stringify
      Fragment.superjson_parse More.counter_members More.counter_invoke
      Sample.call_increment in
  let first := run Sample.loaded in
  let second := run first.1 in
  (exists fields,
     first.2 = Fulfilled (json (VObj fields))
     /\ obj_get fields "count" = Some (VNum 1))
  /\ (exists fields,
        second.2 = Fulfilled (json (VObj fields))
        /\ obj_get fields "count" = Some (VNum 2)).
Proof. vm_compute. split; eexists; split; reflexivity. Qed.

Lemma call_error_answer_witness :
  exists ma,
    same_but context_keys Sample.loaded ma
    /\ forall m1 c name message st,
         call_member More.counter_members More.counter_invoke "explode" [] ma
         = (m1, c) ->
         await c = Throw (VError name message st) ->
         let s := asked_status st in
         (200 <= s <= 599 -> s <> 204 -> s <> 205 -> s <> 304 ->
          (false = true -> can_persist m1) ->
          fetch false false "_itty:" default_onError Fragment.JSON_stringify
            Fragment.JSON_parse Fragment.superjson_stringify
            Fragment.superjson_parse More.counter_members More.counter_invoke
            More.call_explode Sample.loaded
          = (after_persist false "_itty:" Fragment.superjson_stringify
               More.counter_invoke m1,
             Fulfilled (VResponse s (Some (VStr message)))))
         /\ (0 < s < 200 \/ 599 < s < 65536 \/ s = 204 \/ s = 205 \/ s = 304 ->
             exists e,
               fetch false false "_itty:" default_onError
                 Fragment.JSON_stringify Fragment.JSON_parse
                 Fragment.superjson_stringify Fragment.superjson_parse
                 More.counter_members More.counter_invoke More.call_explode
                 Sample.loaded
               = (log m1 e, Fulfilled (VResponse 400 (Some e)))).
Proof.
  exact (call_error_answer false false "_itty:" Fragment.JSON_stringify
           Fragment.JSON_parse Fragment.superjson_stringify
           Fragment.superjson_parse More.counter_members More.counter_invoke
           More.call_explode "explode" (VArr [] []) [] Sample.loaded
           eq_refl eq_refl eq_refl eq_refl eq_refl (loaded_ready false false)).
Defined.

(** The scenarios of the failing call: a teapot is answered as such, a
    status the response refuses with 400. *)
Lemma explode_scenarios :
  (exists m1,
     fetch false false "_itty:" default_onError Fragment.JSON_stringify
       Fragment.JSON_parse Fragment.superjson_stringify
       Fragment.superjson_parse More.counter_members More.counter_invoke
       More.call_explode Sample.loaded
     = (m1, Fulfilled (VResponse 418 (Some (VStr "teapot")))))
  /\ (exists m1 e,
        fetch false false "_itty:" default_onError Fragment.JSON_stringify
          Fragment.JSON_parse Fragment.superjson_stringify
          Fragment.superjson_parse More.counter_members More.counter_invoke
          More.call_misfire Sample.loaded
        = (m1, Fulfilled (VResponse 400 (Some e)))
        /\ console (outside m1) = [e]).
Proof.
  split; [eexists; vm_compute; reflexivity|].
  do 2 eexists. vm_compute. split; reflexivity.
Qed.

Lemma unmatched_request_is_a_bad_request_witness :
  exists ma,
    same_but context_keys Sample.loaded ma
    /\ Sample.run_fetch true Sample.plain Sample.no_call Sample.off_route
         Sample.loaded
       = (log (after_persist true "_itty:" Fragment.superjson_stringify
                 Sample.no_call ma)
            (Error "Bad request to durable object"),
          Fulfilled
            (VResponse 400 (Some (Error "Bad request to durable object")))).
Proof.
  apply (unmatched_request_is_a_bad_request true false "_itty:"
           Fragment.JSON_stringify Fragment.JSON_parse
           Fragment.superjson_stringify Fragment.superjson_parse
           Sample.plain Sample.no_call default_onError Sample.off_route
           Sample.loaded).
  - left. reflexivity.
  - reflexivity.
  - exact (loaded_ready true false).
Defined.
(** ** The first load *)

Section FirstLoad.

Variable prefix : string.
Variable superjson_parse : string -> result value.
Variable invoke : string -> list value -> machine -> machine * completion.

Lemma decode_entries_fails (l : list (string * string)) (acc : obj)
  (key text : string) (e : value) :
  (key, text) ∈ l -> superjson_parse text = Throw e ->
  exists e', decode_entries prefix superjson_parse l acc = Throw e'.
Proof.
  revert acc. induction l as [|[k t] l IH]; intros acc Hin Hfail.
  - apply elem_of_nil in Hin. contradiction.
  - rewrite decode_entries_step.
    destruct (superjson_parse t) as [x|e0] eqn:E; [|eauto].
    apply elem_of_cons in Hin as [[= -> ->]|Hin]; [congruence|].
    destruct (String.eqb (truncated prefix k) "__proto__");
      apply IH; assumption.
Qed.

Lemma stored_under_length (s : gmap string string) :
  (length (stored_under prefix s) <= 100)%nat ->
  forall key text,
    (key, text) ∈ store_list s prefix 100
    <-> s !! key = Some text /\ String.prefix prefix key = true.
Proof. intros Hlen key text. apply store_list_elem. exact Hlen. Qed.

(** The effect of the first load on the fields. *)
Lemma first_load_effect (m : machine) :
  uninitialized (this m) -> storage_ok (this m) ->
  (length (stored_under prefix (store (outside m))) <= 100)%nat ->
  (forall key text,
     store (outside m) !! key = Some text -> String.prefix prefix key = true ->
     exists v, superjson_parse text = Ok v) ->
  no_function_at m "onLoad" ->
  no_function_stored prefix superjson_parse (store (outside m)) "onLoad" ->
  let m' := (loadFromStorage prefix superjson_parse invoke m).1 in
  outside m' = outside m
  /\ (forall name text v,
        name <> "state" -> name <> "__proto__" ->
        store (outside m) !! (prefix ++ name) = Some text ->
        superjson_parse text = Ok v ->
        obj_get (this m') name = Some v)
  /\ (forall name,
        name <> "state" ->
        store (outside m) !! (prefix ++ name) = None ->
        obj_get (this m') name = obj_get (this m) name).
Proof.
  intros Hun Hok Hlen Hall Hhook Hstored m'.
  set (listed := store_list (store (outside m)) prefix 100).
  destruct (decode_entries_total prefix superjson_parse listed []) as [stateObj Hdec].
  { intros key text Hin. apply store_list_sub in Hin as [Hget Hp]. eauto. }
  assert (NoDup (obj_keys stateObj)) as Hnd.
  { eapply decode_entries_NoDup; [|exact Hdec]. apply NoDup_nil_2. }
  destruct (load_fields prefix superjson_parse invoke m stateObj Hun Hok Hdec)
    as (Hout & _ & Hfields).
  { apply (no_function_after_assign prefix superjson_parse 100 stateObj m
             "onLoad" Hdec Hhook Hstored). }
  fold m' in Hout, Hfields.
  split; [exact Hout|]. split.
  - intros name text v Hne Hnp Hget Hparse.
    rewrite Hfields by exact Hne.
    rewrite obj_get_assign, (obj_get_rev_unique _ _ Hnd).
    rewrite <- (truncated_app prefix name) at 1.
    rewrite (decode_entries_lookup prefix superjson_parse listed [] stateObj
               (prefix ++ name) text v); try assumption; try reflexivity.
    + apply store_list_NoDup.
    + intros key' text' Hin. apply store_list_sub in Hin. tauto.
    + apply stored_under_length; [exact Hlen|].
      split; [exact Hget|apply prefix_app].
    + rewrite truncated_app. exact Hnp.
  - intros name Hne Hnone.
    rewrite Hfields by exact Hne.
    rewrite obj_get_assign, (obj_get_rev_unique _ _ Hnd).
    rewrite (decode_entries_keeps _ _ _ _ _ _ Hdec); [reflexivity|].
    intros key text Hin Htr. apply store_list_sub in Hin as [Hget Hp].
    unfold truncated in Htr. rewrite Hp in Htr.
    rewrite (prefix_slice _ _ Hp), Htr in Hget. congruence.
Qed.

(** X6. The first load gives every entry of the store under the prefix to
    the field the rest of its key names - but for the name [__proto__],
    which makes no field - and leaves the fields without an entry, the
    store, the alarm and the console as they were, provided the store holds
    at most 100 entries under the prefix, all of them decode, and no
    function stands in the place of the hook [onLoad], neither on the
    instance nor in the store. *)
Theorem first_load_assigns_the_entries (m : machine) :
  uninitialized (this m) -> storage_ok (this m) ->
  (length (stored_under prefix (store (outside m))) <= 100)%nat ->
  (forall key text,
     store (outside m) !! key = Some text -> String.prefix prefix key = true ->
     exists v, superjson_parse text = Ok v) ->
  no_function_at m "onLoad" ->
  no_function_stored prefix superjson_parse (store (outside m)) "onLoad" ->
  let m' := (loadFromStorage prefix superjson_parse invoke m).1 in
  outside m' = outside m
  /\ (forall name text v,
        name <> "state" -> name <> "__proto__" ->
        store (outside m) !! (prefix ++ name) = Some text ->
        superjson_parse text = Ok v ->
        obj_get (this m') name = Some v)
  /\ (forall name,
        name <> "state" ->
        store (outside m) !! (prefix ++ name) = None ->
        obj_get (this m') name = obj_get (this m) name).
Proof. apply first_load_effect. Qed.

(** X7. When an entry under the prefix does not decode, the first load
    throws and changes nothing: no field is assigned, the instance stays
    uninitialized and the next request loads again. *)
Theorem failed_load_changes_nothing (m : machine) (key text : string)
  (e : value) :
  uninitialized (this m) -> storage_ok (this m) ->
  (length (stored_under prefix (store (outside m))) <= 100)%nat ->
  store (outside m) !! key = Some text -> String.prefix prefix key = true ->
  superjson_parse text = Throw e ->
  exists e', loadFromStorage prefix superjson_parse invoke m = (m, Throw e').
Proof.
  intros (v & Hv & Ht) Hok Hlen Hget Hp Hfail.
  destruct (decode_entries_fails
              (store_list (store (outside m)) prefix 100) [] key text e)
    as [e' Hdec]; [|exact Hfail|].
  { apply stored_under_length; auto. }
  exists e'. unfold loadFromStorage.
  unfold bind at 1. unfold state_read. rewrite Hv, Ht.
  unfold bind at 1. rewrite storage_list_ok by exact Hok.
  unfold bind at 1. unfold lift. rewrite Hdec. reflexivity.
Qed.

End FirstLoad.
Ltac each_entry Hget :=
  apply elem_of_map_to_list in Hget;
  match type of Hget with
  | _ ∈ ?l => let l' := eval vm_compute in l in change l with l' in Hget
  end;
  repeat (apply elem_of_cons in Hget as [Hget|Hget];
          [injection Hget as -> ->; eexists; vm_compute; reflexivity|]);
  apply elem_of_nil in Hget; contradiction.

Lemma first_load_assigns_the_entries_witness :
  obj_get
    (this (loadFromStorage "_itty:" Fragment.superjson_parse Sample.no_call
             (Machine Sample.actor More.saved)).1)
    "count"
  = Some (VNum 5).
Proof.
  destruct (first_load_assigns_the_entries "_itty:" Fragment.superjson_parse
              Sample.no_call (Machine Sample.actor More.saved))
    as (_ & Hgot & _).
  - exists (VBool false). split; reflexivity.
  - left. reflexivity.
  - vm_compute. lia.
  - intros key text Hget _. each_entry Hget.
  - discriminate.
  - intros text f Hget. vm_compute in Hget. discriminate.
  - apply (Hgot "count" (Fragment.superjson_stringify (VNum 5)) (VNum 5));
      [discriminate|discriminate|reflexivity|reflexivity].
Defined.

Lemma failed_load_changes_nothing_witness :
  exists e',
    loadFromStorage "_itty:" Fragment.superjson_parse Sample.no_call
      (Machine Sample.actor More.corrupt)
    = (Machine Sample.actor More.corrupt, Throw e').
Proof.
  apply (failed_load_changes_nothing "_itty:" Fragment.superjson_parse
           Sample.no_call (Machine Sample.actor More.corrupt) "_itty:count"
           "oops" Fragment.SyntaxError).
  - exists (VBool false). split; reflexivity.
  - left. reflexivity.
  - vm_compute. lia.
  - reflexivity.
  - reflexivity.
  - reflexivity.
Defined.
(** ** More on [persist] *)

Section PersistMore.

Variable prefix : string.
Variable superjson_stringify : value -> string.
Variable invoke : string -> list value -> machine -> machine * completion.

Lemma put_fields_twice (fields : obj) (names : list string)
  (s : gmap string string) :
  put_fields prefix superjson_stringify fields names
    (put_fields prefix superjson_stringify fields names s)
  = put_fields prefix superjson_stringify fields names s.
Proof.
  apply map_eq. intros key.
  destruct (decide (Exists (fun name => String.prefix "$" name = false
                                        /\ key = prefix ++ name) names))
    as [Hex|Hno].
  - apply Exists_exists in Hex as (name & Hin & Hd & ->).
    rewrite !lookup_put_fields_hit by assumption. reflexivity.
  - rewrite lookup_put_fields_miss; [reflexivity|].
    intros name Hin Hd Heq. apply Hno. apply Exists_exists. eauto.
Qed.

(** X8. On an instance whose [getPersistable] is the method of the class,
    [persist()] twice in a row is [persist()] once: the second run leaves
    the store as the first has left it. *)
Theorem persist_twice (m : machine) :
  storage_ok (this m) -> in_place m "getPersistable" ->
  persist prefix superjson_stringify invoke
    (persist prefix superjson_stringify invoke m).1
  = ((persist prefix superjson_stringify invoke m).1, Ok tt).
Proof.
  intros Hok Hp.
  rewrite (persist_run prefix superjson_stringify invoke m Hok Hp). simpl.
  rewrite persist_run by assumption. simpl.
  rewrite put_fields_twice. reflexivity.
Qed.

Variable superjson_parse : string -> result value.

(** X9. [persist()] writes, it never deletes: on an instance whose
    [getPersistable] is the method of the class, the entry of a field that
    has been deleted from the instance survives the next [persist()], and a
    later first load, by an instance on which no function stands in the
    place of the hook [onLoad], brings the field back.  The field is any but
    [state], [__proto__] and the names that start with [$]. *)
Theorem deleted_field_comes_back (m : machine) (fresh : obj) (p : prototype)
  (k : string) (v : value) :
  storage_ok (this m) -> in_place m "getPersistable" ->
  obj_get (this m) k = Some v ->
  k <> "state" -> k <> "__proto__" -> String.prefix "$" k = false ->
  superjson_parse (superjson_stringify v) = Ok v ->
  let m1 := (persist prefix superjson_stringify invoke m).1 in
  let m2 := (persist prefix superjson_stringify invoke
               (with_this m1 (obj_delete (this m1) k))).1 in
  obj_get (this m2) k = None
  /\ store (outside m2) !! (prefix ++ k) = Some (superjson_stringify v)
  /\ (uninitialized fresh -> storage_ok fresh ->
      (length (stored_under prefix (store (outside m2))) <= 100)%nat ->
      (forall key text,
         store (outside m2) !! key = Some text ->
         String.prefix prefix key = true ->
         exists x, superjson_parse text = Ok x) ->
      no_function_at (MachineOf fresh p (outside m2)) "onLoad" ->
      no_function_stored prefix superjson_parse (store (outside m2)) "onLoad" ->
      obj_get
        (this (loadFromStorage prefix superjson_parse invoke
                 (MachineOf fresh p (outside m2))).1) k
      = Some v).
Proof.
  intros Hok Hp Hv Hne Hnp Hd Hround m1 m2.
  destruct (persist_effect prefix superjson_stringify invoke m Hok Hp)
    as (s1 & Hrun1 & _ & Hhit1 & _).
  assert (m1 = with_store m s1) as Hm1 by (unfold m1; rewrite Hrun1; reflexivity).
  assert (storage_ok (this (with_this m1 (obj_delete (this m1) k)))) as Hok'.
  { rewrite Hm1. simpl. unfold storage_ok, state_of, obj_prop.
    rewrite obj_get_delete_ne by congruence. exact Hok. }
  assert (in_place (with_this m1 (obj_delete (this m1) k)) "getPersistable")
    as Hp'.
  { apply in_place_own in Hp as [Ho Hpr]. apply in_place_own.
    rewrite Hm1. simpl. split; [|exact Hpr].
    rewrite obj_get_delete. destruct (String.eqb k "getPersistable"); auto. }
  destruct (persist_effect prefix superjson_stringify invoke _ Hok' Hp')
    as (s2 & Hrun2 & _ & _ & _ & Hmiss2).
  assert (m2 = with_store (with_this m1 (obj_delete (this m1) k)) s2) as Hm2
      by (unfold m2; rewrite Hrun2; reflexivity).
  assert (store (outside m2) !! (prefix ++ k) = Some (superjson_stringify v))
    as Hkept.
  { rewrite Hm2. simpl. rewrite Hmiss2.
    - rewrite Hm1. simpl. apply Hhit1; assumption.
    - intros name _ [x Hx] _ Heq. apply String.app_inj in Heq. subst name.
      simpl in Hx. rewrite obj_get_delete_eq in Hx. discriminate. }
  split; [rewrite Hm2; simpl; apply obj_get_delete_eq|].
  split; [exact Hkept|].
  intros Hun Hokf Hlen Hall Hhook Hstored.
  destruct (first_load_effect prefix superjson_parse invoke
              (MachineOf fresh p (outside m2)) Hun Hokf Hlen Hall Hhook Hstored)
    as (_ & Hgot & _).
  eapply Hgot; eassumption.
Qed.

End PersistMore.
Lemma persist_twice_witness :
  persist "_itty:" Fragment.superjson_stringify Sample.no_call
    (persist "_itty:" Fragment.superjson_stringify Sample.no_call
       Sample.fresh).1
  = ((persist "_itty:" Fragment.superjson_stringify Sample.no_call
        Sample.fresh).1, Ok tt).
Proof.
  apply (persist_twice "_itty:" Fragment.superjson_stringify Sample.no_call
           Sample.fresh).
  - left. reflexivity.
  - reflexivity.
Defined.

Lemma deleted_field_comes_back_witness :
  store
    (outside
       (persist "_itty:" Fragment.superjson_stringify Sample.no_call
          (with_this
             (persist "_itty:" Fragment.superjson_stringify Sample.no_call
                Sample.worked).1
             (obj_delete
                (this (persist "_itty:" Fragment.superjson_stringify
                         Sample.no_call Sample.worked).1) "count"))).1)
  !! "_itty:count"
  = Some (Fragment.superjson_stringify (VNum 5)).
Proof.
  destruct (deleted_field_comes_back "_itty:" Fragment.superjson_stringify
              Sample.no_call Fragment.superjson_parse Sample.worked
              Sample.actor (OfClass []) "count" (VNum 5)) as (_ & H & _).
  - left. reflexivity.
  - reflexivity.
  - reflexivity.
  - discriminate.
  - discriminate.
  - reflexivity.
  - reflexivity.
  - exact H.
Defined.

(** ** [reset] and [destroy] *)

Lemma constructor_keeps_defaultState (state env o : obj) :
  constructor state env = Ok o ->
  obj_get env "defaultState" = None -> obj_get state "defaultState" = None ->
  get_prop (state_of o) "defaultState" = Ok VUndefined.
Proof.
  intros Hc He Hs. unfold constructor in Hc.
  destruct (embed_bindings env _) as [st|e] eqn:Hemb; [|discriminate].
  destruct (obj_prop st "router"); try discriminate.
  injection Hc as <-. simpl. unfold obj_prop.
  rewrite (embed_bindings_keeps _ _ _ _ Hemb He).
  rewrite !obj_get_assign_None by assumption. reflexivity.
Qed.

Lemma reset_fails (JSON_parse : value -> result value)
  (invoke : string -> list value -> machine -> machine * completion)
  (m : machine) (snapshot e : value) :
  in_place m "getPersistable" ->
  get_prop (state_of (this m)) "defaultState" = Ok snapshot ->
  JSON_parse snapshot = Throw e ->
  exists o',
    reset JSON_parse invoke m = (with_this m o', Throw e)
    /\ state_of o' = state_of (this m)
    /\ forall name, name <> "state" -> obj_get o' name = None.
Proof.
  intros Hp Hsnap Hparse.
  exists (fold_left obj_delete
            (obj_keys (obj_delete (getPersistable (this m)) "state")) (this m)).
  pose proof (state_of_cleared (this m)) as Hst.
  split; [|split; [exact Hst|]].
  - rewrite (reset_steps JSON_parse invoke m Hp).
    unfold bind at 1. unfold state_read. cbn [this with_this].
    rewrite Hst, Hsnap. unfold bind at 1. unfold lift. rewrite Hparse.
    reflexivity.
  - intros name Hne. rewrite obj_get_delete_all.
    destruct (bool_decide _) eqn:E; [reflexivity|].
    apply bool_decide_eq_false_1 in E.
    destruct (obj_get (this m) name) as [v|] eqn:Hv; [|reflexivity].
    exfalso. apply E. apply persistable_keys. eauto.
Qed.

(** X10. [reset()] on an instance that has not handled a request finds no
    snapshot: it fails with the error of [JSON.parse(undefined)], after it
    has deleted every field - [env] and [classInstance] with them - and
    without touching the store. *)
Theorem reset_before_the_first_request (JSON_parse : value -> result value)
  (invoke : string -> list value -> machine -> machine * completion)
  (state env o : obj) (w : world) (e : value) :
  constructor state env = Ok o ->
  obj_get env "defaultState" = None -> obj_get state "defaultState" = None ->
  JSON_parse VUndefined = Throw e ->
  exists o',
    reset JSON_parse invoke (Machine o w) = (Machine o' w, Throw e)
    /\ (forall name, name <> "state" -> obj_get o' name = None)
    /\ obj_get o "env" = Some (VObj env)
    /\ obj_get o "classInstance" = Some VNull.
Proof.
  intros Hc He Hs Hparse.
  pose proof (constructor_keeps_defaultState _ _ _ Hc He Hs) as Hsnap.
  destruct (constructor_shape _ _ _ Hc) as (st & Ho & _).
  destruct (reset_fails JSON_parse invoke (Machine o w) VUndefined e)
    as (o' & Hrun & _ & Hgone); [|exact Hsnap|exact Hparse|].
  { apply in_place_Machine. rewrite Ho. reflexivity. }
  exists o'. split; [exact Hrun|]. split; [exact Hgone|].
  rewrite Ho. split; reflexivity.
Qed.

Lemma storage_deleteAll_ok (m : machine) :
  storage_ok (this m) -> storage_deleteAll m = (with_store m ∅, Ok tt).
Proof.
  intros H. unfold storage_deleteAll, bind.
  destruct (storage_handle_ok "deleteAll" m H) as [h ->]. reflexivity.
Qed.

Lemma stored_under_empty (prefix : string) : stored_under prefix ∅ = [].
Proof. unfold stored_under. rewrite map_to_list_empty. reflexivity. Qed.

(** X11. On an instance whose [onDestroy] is the empty hook of the class,
    [destroy()] without the option [reset] leaves the store without any
    entry, whatever its key, and the fields as they are, and resolves to
    [undefined]; an instance that loads from the store afterwards keeps the
    fields its constructor has set, provided no function stands in the
    place of its hook [onLoad]. *)
Theorem destroy_then_load_gives_defaults (JSON_parse : value -> result value)
  (prefix : string) (superjson_parse : string -> result value)
  (invoke : string -> list value -> machine -> machine * completion)
  (options : value) (m : machine) (fresh : obj) (p : prototype) :
  storage_ok (this m) -> reset_option options = Ok false ->
  in_place m "onDestroy" ->
  uninitialized fresh -> storage_ok fresh ->
  (forall w, no_function_at (MachineOf fresh p w) "onLoad") ->
  destroy JSON_parse invoke options m
  = DestroyRun (with_store m ∅) (Fulfilled VUndefined) None
  /\ forall name,
       name <> "state" ->
       obj_get
         (this (loadFromStorage prefix superjson_parse invoke
                  (MachineOf fresh p
                     (outside
                        (destroy_after
                           (destroy JSON_parse invoke options m))))).1)
         name
       = obj_get fresh name.
Proof.
  intros Hok Hopt Hhook Hun Hokf Hload.
  assert (destroy JSON_parse invoke options m
          = DestroyRun (with_store m ∅) (Fulfilled VUndefined) None) as Hrun.
  { unfold destroy. rewrite Hopt, (storage_deleteAll_ok m Hok).
    unfold awaited. rewrite send_in_place by exact Hhook. reflexivity. }
  split; [exact Hrun|]. rewrite Hrun. simpl. intros name Hne.
  destruct (first_load_effect prefix superjson_parse invoke
              (MachineOf fresh p
                 (World ∅ (alarm (outside m)) (console (outside m)))))
    as (_ & _ & Hkept); simpl; try assumption.
  - rewrite stored_under_empty. simpl. lia.
  - intros key text Hget. rewrite lookup_empty in Hget. discriminate.
  - apply Hload.
  - intros text f Hget. rewrite lookup_empty in Hget. discriminate.
  - apply Hkept; [exact Hne|apply lookup_empty].
Qed.

(** X12. [destroy({ reset: true })] does not wait for [reset()]: on an
    instance that has not handled a request, where [reset()] fails, the
    promise of [destroy] is fulfilled all the same, the store is emptied and
    the fields are gone; the error of [reset()] is left in a promise nothing
    holds. *)
Theorem destroy_does_not_wait_for_reset (JSON_parse : value -> result value)
  (invoke : string -> list value -> machine -> machine * completion)
  (options : value) (state env o : obj) (w : world) (e : value) :
  constructor state env = Ok o ->
  obj_get env "defaultState" = None -> obj_get state "defaultState" = None ->
  storage_ok o -> JSON_parse VUndefined = Throw e ->
  reset_option options = Ok true ->
  exists o',
    destroy JSON_parse invoke options (Machine o w)
    = DestroyRun (Machine o' (World ∅ (alarm w) (console w)))
        (Fulfilled VUndefined) (Some e)
    /\ forall name, name <> "state" -> obj_get o' name = None.
Proof.
  intros Hc He Hs Hok Hparse Hopt.
  pose proof (constructor_keeps_defaultState _ _ _ Hc He Hs) as Hsnap.
  destruct (constructor_shape _ _ _ Hc) as (st & Ho & _).
  destruct (reset_fails JSON_parse invoke (with_store (Machine o w) ∅)
              VUndefined e) as (o' & Hrun & _ & Hgone);
    [|exact Hsnap|exact Hparse|].
  { apply in_place_Machine. rewrite Ho. reflexivity. }
  exists o'. split; [|exact Hgone].
  unfold destroy. rewrite Hopt, (storage_deleteAll_ok (Machine o w) Hok).
  rewrite send_in_place by (apply in_place_Machine; rewrite Ho; reflexivity).
  unfold async, bind at 1. rewrite Hrun.
  unfold awaited. rewrite send_in_place
    by (apply in_place_Machine; apply Hgone; discriminate).
  reflexivity.
Qed.

Lemma reset_before_the_first_request_witness :
  exists o',
    reset Fragment.JSON_parse Sample.no_call
      (Machine Sample.newborn Sample.empty_world)
    = (Machine o' Sample.empty_world, Throw Fragment.SyntaxError)
    /\ (forall name, name <> "state" -> obj_get o' name = None)
    /\ obj_get Sample.newborn "env" = Some (VObj [])
    /\ obj_get Sample.newborn "classInstance" = Some VNull.
Proof.
  exact (reset_before_the_first_request Fragment.JSON_parse Sample.no_call
           Sample.platform []
           Sample.newborn Sample.empty_world Fragment.SyntaxError
           eq_refl eq_refl eq_refl eq_refl).
Defined.

Lemma destroy_then_load_gives_defaults_witness :
  destroy Fragment.JSON_parse Sample.no_call VUndefined
    (Machine Sample.actor More.saved)
  = DestroyRun (with_store (Machine Sample.actor More.saved) ∅)
      (Fulfilled VUndefined) None.
Proof.
  destruct (destroy_then_load_gives_defaults Fragment.JSON_parse "_itty:"
              Fragment.superjson_parse Sample.no_call VUndefined
              (Machine Sample.actor More.saved) Sample.actor (OfClass []))
    as [H _].
  - left. reflexivity.
  - reflexivity.
  - reflexivity.
  - exists (VBool false). split; reflexivity.
  - left. reflexivity.
  - intros w f. discriminate.
  - exact H.
Defined.

Lemma destroy_does_not_wait_for_reset_witness :
  exists o',
    destroy Fragment.JSON_parse Sample.no_call (VObj [("reset", VBool true)])
      (Machine Sample.newborn More.saved)
    = DestroyRun
        (Machine o' (World ∅ (alarm More.saved) (console More.saved)))
        (Fulfilled VUndefined) (Some Fragment.SyntaxError)
    /\ forall name, name <> "state" -> obj_get o' name = None.
Proof.
  apply (destroy_does_not_wait_for_reset Fragment.JSON_parse Sample.no_call
           (VObj [("reset", VBool true)]) Sample.platform [] Sample.newborn
           More.saved Fragment.SyntaxError eq_refl eq_refl eq_refl).
  - left. reflexivity.
  - reflexivity.
  - reflexivity.
Defined.

(** ** The constructor *)

Lemma embed_bindings_get (entries st st' : obj) (key : string)
  (binding : value) :
  NoDup (obj_keys entries) ->
  embed_bindings entries st = Ok st' ->
  obj_get entries key = Some binding ->
  obj_get st' key
  = Some (if is_namespace binding then proxyDurable_object key else binding).
Proof.
  revert st. induction entries as [|[k0 b0] entries IH]; intros st Hnd Hrun Hget.
  - discriminate.
  - simpl in Hrun, Hget, Hnd. apply NoDup_cons in Hnd as [Hnot Hnd].
    destruct (get_prop b0 "idFromName") as [f|e] eqn:Hf; [|discriminate].
    destruct (String.eqb_spec k0 key) as [->|Hne].
    + injection Hget as <-.
      rewrite (embed_bindings_keeps _ _ _ _ Hrun);
        [|apply obj_get_None_keys; exact Hnot].
      rewrite obj_get_set_eq. unfold is_namespace. rewrite Hf. reflexivity.
    + eapply IH; eassumption.
Qed.

Lemma embed_bindings_fails (entries st : obj) (key : string) (binding : value) :
  In (key, binding) entries -> binding = VNull \/ binding = VUndefined ->
  exists e, embed_bindings entries st = Throw e.
Proof.
  revert st. induction entries as [|[k0 b0] entries IH]; intros st Hin Hnull.
  - contradiction.
  - simpl. destruct (get_prop b0 "idFromName") as [f|e] eqn:Hf; [|eauto].
    destruct Hin as [[= -> ->]|Hin].
    + destruct Hnull as [->| ->]; discriminate.
    + apply IH; assumption.
Qed.

(** X13. The constructor keeps [env] as it is given under [this.env], and
    embeds each binding in the internal namespace under its name: a binding
    whose [idFromName] is a function as the object [proxyDurable] makes of
    it, any other binding as it is; a property of the platform state that
    no binding is named after is kept. *)
Theorem constructor_embeds_the_bindings (state env o : obj) :
  constructor state env = Ok o ->
  NoDup (obj_keys env) -> NoDup (obj_keys state) ->
  obj_get o "env" = Some (VObj env)
  /\ (forall key binding,
        obj_get env key = Some binding ->
        get_prop (state_of o) key
        = Ok (if is_namespace binding then proxyDurable_object key
              else binding))
  /\ (forall key v,
        obj_get env key = None -> obj_get state key = Some v ->
        get_prop (state_of o) key = Ok v).
Proof.
  intros Hc Hnd Hnds. unfold constructor in Hc.
  destruct (embed_bindings env _) as [st|e] eqn:Hemb; [|discriminate].
  destruct (obj_prop st "router"); try discriminate.
  injection Hc as <-. split; [reflexivity|]. split.
  - intros key binding Hget. simpl. unfold obj_prop.
    rewrite (embed_bindings_get _ _ _ _ _ Hnd Hemb Hget). reflexivity.
  - intros key v He Hs. simpl. unfold obj_prop.
    rewrite (embed_bindings_keeps _ _ _ _ Hemb He).
    rewrite obj_get_assign, (obj_get_rev_unique _ _ Hnds), Hs. reflexivity.
Qed.

(** X14. The constructor throws when a binding of the environment is [null]
    or [undefined]. *)
Theorem constructor_rejects_a_missing_binding (state env : obj) (key : string)
  (binding : value) :
  In (key, binding) env -> binding = VNull \/ binding = VUndefined ->
  exists e, constructor state env = Throw e.
Proof.
  intros Hin Hnull. unfold constructor.
  destruct (embed_bindings_fails env
              (obj_assign
                 (obj_assign
                    [("defaultState", VUndefined); ("initialized", VBool false);
                     ("router", VRouter); ("env", VObj env)] env) state)
              key binding Hin Hnull) as [e ->].
  eauto.
Qed.

Lemma constructor_embeds_the_bindings_witness :
  get_prop (state_of Sample.bound) "COUNTER" = Ok (proxyDurable_object "COUNTER")
  /\ get_prop (state_of Sample.bound) "storage" = Ok VStorage.
Proof.
  destruct (constructor_embeds_the_bindings Sample.platform
              [("COUNTER", Sample.counter_binding)] Sample.bound eq_refl)
    as (_ & Hb & Hs).
  - apply (bool_decide_unpack _). reflexivity.
  - apply (bool_decide_unpack _). reflexivity.
  - split.
    + apply (Hb "COUNTER" Sample.counter_binding). reflexivity.
    + apply (Hs "storage" VStorage); reflexivity.
Defined.

Lemma constructor_rejects_a_missing_binding_witness :
  exists e, constructor Sample.platform [("QUEUE", VUndefined)] = Throw e.
Proof.
  apply (constructor_rejects_a_missing_binding Sample.platform
           [("QUEUE", VUndefined)] "QUEUE" VUndefined).
  - left. reflexivity.
  - right. reflexivity.
Defined.

(** ** [safeAlarm] *)

Section Alarm.

Variable autoPersist : bool.
Variable prefix : string.
Variable superjson_stringify : value -> string.
Variable superjson_parse : string -> result value.
Variable invoke : string -> list value -> machine -> machine * completion.


End Alarm.


(** * Properties of the client *)

Lemma headers_get_set (h : list (string * string)) (name name' v : string) :
  headers_get (Client.headers_set h name v) name'
  = if String.eqb name name' then Some v else headers_get h name'.
Proof.
  induction h as [|[k x] h IH]; simpl.
  - reflexivity.
  - destruct (String.eqb_spec k name) as [->|Hne]; simpl.
    + destruct (String.eqb name name'); reflexivity.
    + rewrite IH. destruct (String.eqb_spec k name') as [->|Hne'].
      * destruct (String.eqb_spec name name'); [congruence|reflexivity].
      * reflexivity.
Qed.

(** X16. [proxyDurable] accepts every binding the constructor wraps, and
    refuses a binding that is missing or is an object without [idFromName]
    with the status error 500 that names the binding, or [That] where no
    name is given. *)
Theorem proxyDurable_checks_the_binding (durable : value)
  (middlewareOptions : Client.options) :
  (is_namespace durable = true \/ truthy durable = false
   \/ exists o, durable = VObj o /\ obj_get o "idFromName" = None) ->
  Client.proxyDurable durable middlewareOptions
  = if is_namespace durable then Client.Done tt
    else Client.Fail
           (Client.StatusErrorOf 500
              (VStr (match Client.opt_name middlewareOptions with
                     | Some (String c name) => String c name
                     | _ => "That"
                     end ++ " is not a valid Durable Object binding."))).
Proof.
  assert (Client.invalid_binding middlewareOptions
          = match Client.opt_name middlewareOptions with
            | Some (String c name) => String c name
            | _ => "That"
            end ++ " is not a valid Durable Object binding.") as Hmsg.
  { unfold Client.invalid_binding.
    destruct (Client.opt_name middlewareOptions) as [[|c name]|]; reflexivity. }
  rewrite <- Hmsg. unfold Client.proxyDurable, is_namespace.
  intros [Hns|[Hfalse|(o & -> & Hnone)]].
  - destruct durable as [| |b|n|s|items named|props|f|nm msg st| | | |r|n pl];
      simpl in *; try discriminate.
    + destruct (obj_prop named "idFromName"); try discriminate. reflexivity.
    + destruct (obj_prop props "idFromName"); try discriminate. reflexivity.
  - rewrite Hfalse. simpl.
    destruct durable as [| |b|n|s|items named|props|f|nm msg st| | | |r|n pl];
      simpl in *; try discriminate; reflexivity.
  - simpl. unfold obj_prop. rewrite Hnone. reflexivity.
Qed.

Lemma proxyDurable_checks_the_binding_witness :
  Client.proxyDurable Sample.counter_binding Client.no_options = Client.Done tt
  /\ Client.proxyDurable (VObj [("get", VFun "get")])
       (Client.Options (Some "KV") None None None)
     = Client.Fail
         (Client.StatusErrorOf 500
            (VStr "KV is not a valid Durable Object binding.")).
Proof.
  split.
  - apply (proxyDurable_checks_the_binding Sample.counter_binding
             Client.no_options).
    left. reflexivity.
  - apply (proxyDurable_checks_the_binding (VObj [("get", VFun "get")])
             (Client.Options (Some "KV") None None None)).
    right. right. eexists. split; reflexivity.
Defined.

Section Handles.

Variable idFromName : string -> result value.
Variable durable_get : value -> result value.
Variable middlewareOptions : Client.options.

Local Abbreviation get := (Client.get idFromName durable_get middlewareOptions).

Lemma get_done (shared : option (list (string * string))) (id : value)
  (opts : Client.options) (h : Client.handle)
  (shared' : option (list (string * string))) :
  get shared id opts = (Client.Done h, shared') ->
  exists id',
    match id with VStr name => idFromName name | _ => Ok id end = Ok id'
    /\ durable_get id' = Ok (Client.h_stub h)
    /\ Client.is_object (Client.h_stub h) = true
    /\ let named h0 := match id with
                       | VStr name => Client.headers_set h0 "do-name" name
                       | _ => h0
                       end in
       match Client.opt_headers opts, shared with
       | Some h0, _ => Client.h_headers h = Client.Own (named h0) /\ shared' = shared
       | None, Some h0 => Client.h_headers h = Client.Shared /\ shared' = Some (named h0)
       | None, None => Client.h_headers h = Client.Own (named []) /\ shared' = None
       end.
Proof.
  unfold Client.get.
  destruct (match id with VStr name => idFromName name | _ => Ok id end)
    as [id'|err] eqn:Hid.
  2:{ destruct (Client.opt_headers opts), shared; discriminate. }
  destruct (durable_get id') as [stub|err] eqn:Hget.
  2:{ destruct (Client.opt_headers opts), shared; discriminate. }
  intros H. exists id'. split; [reflexivity|].
  destruct (Client.is_object stub) eqn:Hobj.
  2:{ destruct (Client.opt_headers opts), shared,
        (match Client.opt_class opts with
         | Some c => Some c
         | None => Client.opt_class middlewareOptions
         end) as [[]|]; discriminate. }
  destruct (Client.opt_headers opts), shared,
    (match Client.opt_class opts with
     | Some c => Some c
     | None => Client.opt_class middlewareOptions
     end) as [[]|]; try discriminate; injection H as <- <-; simpl; auto.
Qed.

(** X17. A handle asked for by name talks to the stub of the identifier the
    name resolves to, and its requests carry the name in [do-name]; a handle
    asked for by identifier, where no headers are given at all, talks to the
    stub of that identifier and sends no header of its own. *)
Theorem get_resolves_and_names (shared : option (list (string * string)))
  (id : value) (opts : Client.options) (h : Client.handle)
  (shared' : option (list (string * string))) :
  get shared id opts = (Client.Done h, shared') ->
  match id with
  | VStr name =>
      (exists id', idFromName name = Ok id'
                   /\ durable_get id' = Ok (Client.h_stub h))
      /\ headers_get (Client.current_headers shared' h) "do-name" = Some name
  | _ =>
      durable_get id = Ok (Client.h_stub h)
      /\ (Client.opt_headers opts = None -> shared = None ->
          Client.current_headers shared' h = [])
  end.
Proof.
  intros H. apply get_done in H as (id' & Hid & Hstub & _ & Hh).
  unfold Client.current_headers.
  destruct id; try (injection Hid as <-; split; [exact Hstub|];
                    intros Ho Hs; rewrite Ho, Hs in Hh; simpl in Hh;
                    destruct Hh as [-> _]; reflexivity).
  split; [eauto|].
  destruct (Client.opt_headers opts), shared; simpl in Hh; destruct Hh as [-> ->];
    simpl; rewrite ?headers_get_set, ?String.eqb_refl; reflexivity.
Qed.

(** X18. The handles made without headers of their own share the header
    object of [middlewareOptions]: after a second handle has been asked for
    by another name, the requests of the first carry the second name.
    Where [middlewareOptions] has no headers, each handle keeps its own. *)
Theorem handles_share_the_header_object
  (shared : option (list (string * string))) (a b : string)
  (opts1 opts2 : Client.options) (h1 h2 : Client.handle)
  (s1 s2 : option (list (string * string))) :
  Client.opt_headers opts1 = None -> Client.opt_headers opts2 = None ->
  get shared (VStr a) opts1 = (Client.Done h1, s1) ->
  get s1 (VStr b) opts2 = (Client.Done h2, s2) ->
  headers_get (Client.current_headers s2 h1) "do-name"
  = Some (match shared with Some _ => b | None => a end).
Proof.
  intros Ho1 Ho2 H1 H2.
  apply get_done in H1 as (_ & _ & _ & _ & Hh1).
  apply get_done in H2 as (_ & _ & _ & _ & Hh2).
  rewrite Ho1 in Hh1. rewrite Ho2 in Hh2. unfold Client.current_headers.
  destruct shared as [h0|]; simpl in Hh1; destruct Hh1 as [-> ->];
    simpl in Hh2; destruct Hh2 as [_ ->]; simpl;
    rewrite ?headers_get_set, ?String.eqb_refl; reflexivity.
Qed.

(** X19. An error of the binding - the name does not resolve, or the stub
    cannot be had - comes out of [get] as the status error 500 with the
    message of that error; the name has been written into the header object
    by then. *)
Theorem get_rethrows_as_500 (shared : option (list (string * string)))
  (name : string) (opts : Client.options) (err message : value) :
  (idFromName name = Throw err
   \/ exists id', idFromName name = Ok id' /\ durable_get id' = Throw err) ->
  get_prop err "message" = Ok message ->
  Client.opt_headers opts = None ->
  get shared (VStr name) opts
  = (Client.Fail (Client.StatusErrorOf 500 message),
     match shared with
     | Some h0 => Some (Client.headers_set h0 "do-name" name)
     | None => None
     end).
Proof.
  intros Herr Hmsg Ho. unfold Client.get, Client.rethrow. rewrite Ho.
  destruct Herr as [->|(id' & -> & ->)]; rewrite Hmsg;
    destruct shared; reflexivity.
Qed.

End Handles.

Section Responses.

Variable JSON_stringify : value -> result (option string).
Variable response : Type.
Variable response_status : response -> Z.
Variable response_json : response -> completion.
Variable response_text : response -> completion.
Variable stub_fetch : Proxy.outbound -> result response.

Local Abbreviation catchErrors :=
  (Client.catchErrors response response_status response_json response_text).
Local Abbreviation stubFetch :=
  (Client.stubFetch JSON_stringify response response_status response_json
     response_text stub_fetch).

(** X20. [catchErrors] lets a response through, unchanged, exactly when its
    status is in 200..299 or is 101; every other response makes it throw. *)
Theorem catchErrors_passes_exactly (r r' : response) :
  catchErrors r = Client.Done r'
  <-> r' = r /\ (200 <= response_status r <= 299 \/ response_status r = 101).
Proof.
  unfold Client.catchErrors, Client.ok.
  destruct (((200 <=? response_status r) && (response_status r <=? 299)
             || (response_status r =? 101))%bool) eqn:E.
  - split.
    + intros [= <-]. split; [reflexivity|]. lia.
    + intros [-> _]. reflexivity.
  - split.
    + destruct (await (response_json r)); [discriminate|].
      destruct (await (response_text r)); discriminate.
    + intros [_ H]. exfalso. lia.
Qed.

(** X21. For a response outside 200..299 and 101, [catchErrors] throws the
    status error with the status of the response when [json()] gives the
    body: its message is the [error] member of the body where that is
    truthy, else the body.  When [json()] fails, [text()] decides: its
    rejection - the case of a body that is no JSON, which [json()] has used
    up - is thrown as it is, without a status; the text it gives - the empty
    one of a response without a body - is the message of the status
    error. *)
Theorem catchErrors_raises_status_and_message (r : response) :
  ~ (200 <= response_status r <= 299) -> response_status r <> 101 ->
  (forall body,
     await (response_json r) = Ok body ->
     catchErrors r
     = Client.Fail (Client.StatusErrorOf (response_status r)
                      (Client.message_of body)))
  /\ (forall e e',
        await (response_json r) = Throw e ->
        await (response_text r) = Throw e' ->
        catchErrors r = Client.Fail (Client.Other e'))
  /\ (forall e text,
        await (response_json r) = Throw e ->
        await (response_text r) = Ok (VStr text) ->
        catchErrors r
        = Client.Fail (Client.StatusErrorOf (response_status r) (VStr text)))
  /\ (forall o e,
        obj_get o "error" = Some e -> truthy e = true ->
        Client.message_of (VObj o) = e)
  /\ (forall o,
        obj_get o "error" = None -> Client.message_of (VObj o) = VObj o).
Proof.
  intros Hrange H101.
  assert (((200 <=? response_status r) && (response_status r <=? 299)
           || (response_status r =? 101))%bool = false) as E by lia.
  unfold Client.catchErrors, Client.ok. rewrite E. repeat split.
  - intros body ->. reflexivity.
  - intros e e' -> ->. reflexivity.
  - intros e text -> ->. reflexivity.
  - intros o e Hget Ht. unfold Client.message_of. simpl. unfold obj_prop.
    rewrite Hget. simpl. rewrite Ht. reflexivity.
  - intros o Hget. unfold Client.message_of. simpl. unfold obj_prop.
    rewrite Hget. reflexivity.
Qed.

(** X22. With [parse] on, a proxied access settles as the promise of
    [response.json()]: when the body is no JSON it is rejected with the
    error of the parse, and neither the text nor the response is handed
    over; with [parse] off it resolves to the response. *)
Theorem parsed_access_settles_as_json
  (shared : option (list (string * string))) (h : Client.handle)
  (type prop : string) (content : value) (request : Proxy.outbound)
  (r : response) (p : settled) :
  Proxy.buildRequest JSON_stringify (Client.current_headers shared h)
    type prop content = Ok request ->
  stub_fetch request = Ok r ->
  200 <= response_status r <= 299 ->
  response_json r = ReturnedPromise p ->
  stubFetch shared h type prop content
  = if Client.h_parse h then
      match p with
      | Fulfilled v => Client.Done (Client.Body response v)
      | Rejected e => Client.Fail (Client.Other e)
      end
    else Client.Done (Client.Raw response r).
Proof.
  intros Hb Hf Hok Hj. unfold Client.stubFetch. rewrite Hb, Hf.
  assert (catchErrors r = Client.Done r) as ->.
  { unfold Client.catchErrors, Client.ok.
    assert (((200 <=? response_status r) && (response_status r <=? 299)
             || (response_status r =? 101))%bool = true) as -> by lia.
    reflexivity. }
  destruct (Client.h_parse h); [|reflexivity].
  unfold Client.transformResponse. rewrite Hj. destruct p; reflexivity.
Qed.

End Responses.

(** Without a class to tell methods from fields, every property of a
    handle other than [fetch] reads as a method: reading it sends nothing,
    and no [get-prop] request is ever sent for it.  With a class, exactly
    the function-valued members of its instance read as methods; any other
    property is fetched with [get-prop] when it is read. *)
Theorem methods_and_fields_of_a_handle
  (JSON_stringify : value -> result (option string))
  (headers : list (string * string)) (prop : string) :
  prop <> "fetch" ->
  Proxy.proxy_get JSON_stringify headers None prop
  = Proxy.Callable
      (fun args => Proxy.buildRequest JSON_stringify headers "call" prop
                     (VArr args []))
  /\ forall is_fn : string -> bool,
       Proxy.proxy_get JSON_stringify headers (Some is_fn) prop
       = if is_fn prop
         then Proxy.Callable
                (fun args => Proxy.buildRequest JSON_stringify headers "call"
                               prop (VArr args []))
         else Proxy.Sent
                (Proxy.buildRequest JSON_stringify headers "get-prop" prop
                   VUndefined).
Proof.
  intros Hne. unfold Proxy.proxy_get, Proxy.isValidMethod.
  destruct (String.eqb_spec prop "fetch"); [contradiction|]. simpl.
  split; [reflexivity|]. intros is_fn. destruct (is_fn prop); reflexivity.
Qed.

Lemma get_resolves_and_names_witness :
  headers_get
    (Client.current_headers None
       (Client.Handle More.stub (Client.Own [("do-name", "alice")]) None false))
    "do-name"
  = Some "alice".
Proof.
  apply (get_resolves_and_names More.resolve More.stub_of Client.no_options
           None (VStr "alice") Client.no_options
           (Client.Handle More.stub (Client.Own [("do-name", "alice")]) None false)
           None eq_refl).
Defined.

Lemma handles_share_the_header_object_witness :
  headers_get
    (Client.current_headers (Some [("do-name", "bob")])
       (Client.Handle More.stub Client.Shared None false))
    "do-name"
  = Some "bob".
Proof.
  apply (handles_share_the_header_object More.resolve More.stub_of
           Client.no_options (Some []) "alice" "bob"
           Client.no_options Client.no_options
           (Client.Handle More.stub Client.Shared None false)
           (Client.Handle More.stub Client.Shared None false)
           (Some [("do-name", "alice")]) (Some [("do-name", "bob")])
           eq_refl eq_refl eq_refl eq_refl).
Defined.

Lemma get_rethrows_as_500_witness :
  Client.get More.resolve_fails More.stub_of Client.no_options (Some [])
    (VStr "alice") Client.no_options
  = (Client.Fail (Client.StatusErrorOf 500 (VStr "unknown namespace")),
     Some [("do-name", "alice")]).
Proof.
  apply (get_rethrows_as_500 More.resolve_fails More.stub_of Client.no_options
           (Some []) "alice" Client.no_options (Error "unknown namespace")
           (VStr "unknown namespace")).
  - left. reflexivity.
  - reflexivity.
  - reflexivity.
Defined.

Lemma catchErrors_raises_status_and_message_witness :
  Client.catchErrors More.reply fst More.reply_json More.reply_text
    (500, Some ("{" ++ Fragment.quoted "error" ++ ":"
                ++ Fragment.quoted "boom" ++ "}"))
  = Client.Fail (Client.StatusErrorOf 500 (VStr "boom"))
  /\ Client.catchErrors More.reply fst More.reply_json More.reply_text
       (500, Some "Internal Server Error")
     = Client.Fail (Client.Other (TypeError "Body has already been used"))
  /\ Client.catchErrors More.reply fst More.reply_json More.reply_text
       (304, None)
     = Client.Fail (Client.StatusErrorOf 304 (VStr EmptyString)).
Proof.
  split; [|split].
  - destruct (catchErrors_raises_status_and_message More.reply fst
                More.reply_json More.reply_text
                (500, Some ("{" ++ Fragment.quoted "error" ++ ":"
                            ++ Fragment.quoted "boom" ++ "}")))
      as (H & _); [simpl; lia|discriminate|].
    apply (H (VObj [("error", VStr "boom")])). reflexivity.
  - destruct (catchErrors_raises_status_and_message More.reply fst
                More.reply_json More.reply_text
                (500, Some "Internal Server Error"))
      as (_ & H & _); [simpl; lia|discriminate|].
    apply (H Fragment.SyntaxError); reflexivity.
  - destruct (catchErrors_raises_status_and_message More.reply fst
                More.reply_json More.reply_text (304, None))
      as (_ & _ & H & _); [simpl; lia|discriminate|].
    apply (H Fragment.SyntaxError); reflexivity.
Defined.

Lemma parsed_access_settles_as_json_witness :
  Client.stubFetch Fragment.JSON_stringify More.reply fst More.reply_json
    More.reply_text More.no_content None
    (Client.Handle More.stub (Client.Own [("do-name", "alice")]) None true)
    "call" "increment" (VArr [] [])
  = Client.Fail (Client.Other Fragment.SyntaxError).
Proof.
  apply (parsed_access_settles_as_json Fragment.JSON_stringify More.reply fst
           More.reply_json More.reply_text More.no_content None
           (Client.Handle More.stub (Client.Own [("do-name", "alice")]) None true)
           "call" "increment" (VArr [] [])
           (Proxy.Outbound "https://itty-durable/do/call/increment" "GET"
              [("do-name", "alice")] "[]")
           (204, None) (Rejected Fragment.SyntaxError)
           eq_refl eq_refl).
  - simpl. lia.
  - reflexivity.
Defined.

Lemma methods_and_fields_of_a_handle_witness :
  Proxy.proxy_get Fragment.JSON_stringify [] (Some (String.eqb "increment"))
    "count"
  = Proxy.Sent
      (Proxy.buildRequest Fragment.JSON_stringify [] "get-prop" "count"
         VUndefined).
Proof.
  destruct (methods_and_fields_of_a_handle Fragment.JSON_stringify [] "count")
    as [_ H].
  - discriminate.
  - apply (H (String.eqb "increment")).
Defined.
(** ** Requests the actor cannot serve *)

Section Unserved.

Variable autoPersist : bool.
Variable autoReturn : bool.
Variable prefix : string.
Variable JSON_stringify : value -> result (option string).
Variable JSON_parse : value -> result value.
Variable superjson_stringify : value -> string.
Variable superjson_parse : string -> result value.
Variable proto_has : string -> bool.
Variable invoke : string -> list value -> machine -> machine * completion.

Local Abbreviation persisted :=
  (after_persist autoPersist prefix superjson_stringify invoke).

(** X23. Reading a field through a handle sends a [get-prop] request whose
    [do-content] header is the text [undefined], since [JSON.stringify]
    gives nothing for the content that is not there; the route's handler
    parses the header before anything else, so an actor that is ready to
    serve answers such a request with the error of [JSON.parse] and the
    status 500 of the default error handler, not with the field. *)
Theorem field_read_through_a_handle_is_answered_500
  (headers : list (string * string)) (mock : option (string -> bool))
  (prop : string) (r : request) (m : machine) (name message : string) :
  Proxy.isValidMethod mock prop = false ->
  JSON_stringify VUndefined = Ok None ->
  JSON_parse (VStr "undefined") = Throw (VError name message None) ->
  Proxy.proxy_get JSON_stringify headers mock prop
  = Proxy.Sent
      (Ok (Proxy.Outbound ("https://itty-durable/do/get-prop/" ++ prop) "GET"
             headers "undefined"))
  /\ (req_method r = "GET" -> req_params r = Some ("get-prop", prop) ->
      headers_get (req_headers r) "do-content" = Some "undefined" ->
      ready autoPersist autoReturn m ->
      exists ma,
        same_but context_keys m ma
        /\ fetch autoPersist autoReturn prefix default_onError JSON_stringify
             JSON_parse superjson_stringify superjson_parse proto_has invoke
             r m
           = (persisted ma, Fulfilled (VResponse 500 (Some (VStr message))))).
Proof.
  intros Hvalid Hnone Hfail. split.
  - unfold Proxy.proxy_get. rewrite Hvalid.
    unfold Proxy.stubFetch, Proxy.buildRequest. rewrite Hnone. reflexivity.
  - intros Hm Hp Hheader Hready.
    destruct (fetch_answered autoPersist autoReturn prefix default_onError
                JSON_stringify JSON_parse superjson_stringify superjson_parse
                proto_has invoke r m Hready) as (ma & Hs & Hfetch).
    pose proof (ready_same_context _ _ _ _ Hs Hready) as (_ & Hr & _ & Hst & _).
    exists ma. split; [exact Hs|].
    apply Hfetch; [|reflexivity|exact Hst].
    assert (content_text r = "undefined") as Htext
      by (unfold content_text; rewrite Hheader; reflexivity).
    unfold dispatch, bind, state_read. rewrite Hr.
    rewrite (router_handle_bad_content autoReturn JSON_parse proto_has invoke
               r "get-prop" prop (VError name message None) ma Hm Hp)
      by (rewrite Htext; exact Hfail).
    reflexivity.
Qed.

(** X24. The action protocol reserves no name: a [set] of
    [loadFromStorage] is answered like any other and leaves the content as
    an own property in the place of the method.  From then on the instance
    answers every request with 400 and the error of the call
    [this.loadFromStorage()], which it logs; no such request reaches the
    router or is persisted. *)
Theorem set_of_loadFromStorage_disables_the_actor
  (onError : value -> result value) (r_set : request) (content : value)
  (m : machine) :
  req_method r_set = "GET" ->
  req_params r_set = Some ("set", "loadFromStorage") ->
  JSON_parse (VStr (content_text r_set)) = Ok content ->
  is_function content = false ->
  ready autoPersist autoReturn m ->
  exists m1,
    fetch autoPersist autoReturn prefix onError JSON_stringify JSON_parse
      superjson_stringify superjson_parse proto_has invoke r_set m
    = (m1, Fulfilled (fallthrough autoReturn (this m1)))
    /\ obj_get (this m1) "loadFromStorage" = Some content
    /\ forall r,
       exists m2,
         same_but context_keys m1 m2
         /\ fetch autoPersist autoReturn prefix onError JSON_stringify
              JSON_parse superjson_stringify superjson_parse proto_has invoke
              r m1
            = (log m2 (TypeError "this.loadFromStorage is not a function"),
               Fulfilled
                 (VResponse 400
                    (Some (TypeError "this.loadFromStorage is not a function")))).
Proof.
  intros Hm Hp Hc Hdata Hready.
  destruct (fetch_answered autoPersist autoReturn prefix onError
              JSON_stringify JSON_parse superjson_stringify superjson_parse
              proto_has invoke r_set m Hready) as (ma & Hs & Hfetch).
  pose proof (ready_same_context _ _ _ _ Hs Hready)
    as (Hi & Hr & _ & Hst & Hj).
  set (m0 := with_this ma (obj_set (this ma) "loadFromStorage" content)).
  assert (autoPersist = true -> can_persist m0) as Hcan.
  { intros Ha. destruct (Hst Ha) as (Hok & Hpp & Hpg). split; [|split].
    - unfold storage_ok, m0. simpl.
      rewrite state_of_set by discriminate. exact Hok.
    - apply in_place_set; [discriminate|exact Hpp].
    - apply in_place_set; [discriminate|exact Hpg]. }
  destruct (after_persist_this autoPersist prefix superjson_stringify invoke
              m0 Hcan) as [Hthis _].
  assert (obj_get (this (persisted m0)) "loadFromStorage" = Some content)
    as Hown by (rewrite Hthis; apply obj_get_set_eq).
  exists (persisted m0). split; [|split; [exact Hown|]].
  - rewrite Hthis. apply Hfetch.
    + apply dispatch_set; try assumption; [discriminate|].
      intros Ha. apply in_place_set; [discriminate|auto].
    + apply fallthrough_truthy.
    + exact Hcan.
  - intros r.
    apply (fetch_without_loadFromStorage autoPersist autoReturn prefix
             JSON_stringify JSON_parse superjson_stringify superjson_parse
             proto_has invoke onError r (persisted m0) content).
    + unfold initialized. rewrite Hthis. unfold m0. simpl.
      rewrite state_of_set by discriminate. exact Hi.
    + unfold routed. rewrite Hthis. unfold m0. simpl.
      rewrite state_of_set by discriminate. exact Hr.
    + unfold lookup. rewrite Hown. reflexivity.
    + exact Hdata.
Qed.

End Unserved.

Lemma field_read_through_a_handle_is_answered_500_witness :
  exists ma,
    same_but context_keys Sample.loaded ma
    /\ Sample.run_fetch false Sample.plain Sample.no_call More.read_count
         Sample.loaded
       = (ma,
          Fulfilled (VResponse 500 (Some (VStr "Unexpected token in JSON")))).
Proof.
  destruct (field_read_through_a_handle_is_answered_500 false false "_itty:"
              Fragment.JSON_stringify Fragment.JSON_parse
              Fragment.superjson_stringify Fragment.superjson_parse
              Sample.plain Sample.no_call [("do-name", "alice")]
              (Some (String.eqb "increment")) "count"
              More.read_count Sample.loaded "SyntaxError"
              "Unexpected token in JSON" eq_refl eq_refl eq_refl) as [_ H'].
  apply H'; [reflexivity|reflexivity|reflexivity|].
  exact (loaded_ready false false).
Defined.

Lemma set_of_loadFromStorage_disables_the_actor_witness :
  exists m1,
    Sample.run_fetch true Sample.plain Sample.no_call More.set_loadFromStorage
      Sample.loaded
    = (m1, Fulfilled (status 204))
    /\ obj_get (this m1) "loadFromStorage" = Some (VNum 1)
    /\ exists m2,
         Sample.run_fetch true Sample.plain Sample.no_call
           Sample.call_increment m1
         = (m2,
            Fulfilled
              (VResponse 400
                 (Some (TypeError "this.loadFromStorage is not a function")))).
Proof.
  destruct (set_of_loadFromStorage_disables_the_actor true false "_itty:"
              Fragment.JSON_stringify Fragment.JSON_parse
              Fragment.superjson_stringify Fragment.superjson_parse
              Sample.plain Sample.no_call default_onError
              More.set_loadFromStorage (VNum 1) Sample.loaded
              eq_refl eq_refl eq_refl eq_refl (loaded_ready true false))
    as (m1 & Hset & Hown & Hnext).
  exists m1. split; [exact Hset|]. split; [exact Hown|].
  destruct (Hnext Sample.call_increment) as (m2 & _ & Hrun).
  eexists. exact Hrun.
Defined.
